(** * The IDAS integrator interface of CasADi

    A shallow embedding of [casadi/interfaces/sundials/idas_interface.cpp]:
    option reading ([IdasInterface::init]), the symbolic Newton Jacobians
    ([getJacF], [getJacB]), the callbacks handed to the IDAS engine
    ([res], [jtimes], [rhsQ], [rhsQB], [psetup], [psolve], [lsetup],
    [lsolve] and their backward variants), the translation of engine
    return flags ([idas_error], the [THROWING] macro) and the session
    operations [init_memory], [reset], [advance], [resetB] and [retreat].

    Conventions.
    - A C++ [double] is a binary64 primitive float; comparisons are the
      IEEE ones ([<=?], [<?], [=?]), so a NaN operand makes them false.
    - An [N_Vector] or a [std::vector<double>] is a [list double].
    - An [int] return flag is a [Z]; element counts ([nx_], [nz_], ...) are
      [nat].
    - A C++ exception is a value of [exn]; code that can throw returns an
      [outcome], and code that also mutates its memory block runs in the
      monad [M], which keeps the mutated state when an exception leaves.
    - The IDAS engine, the model evaluator behind [calc_function] and the
      linear solver behind [linsol_solve] live outside this file: they are
      the members of the class [Collaborators]. *)

From Stdlib Require Import ZArith List String Ascii Floats Bool Lia Arith.
From Stdlib Require Import DecimalString.
Import ListNotations.

Set Implicit Arguments.

(* ================================================================= *)
(** ** Doubles *)

Definition double : Set := float.

(** The literal [1e-9] of [advance]: the binary64 value nearest to it. *)
Definition ttol : double := 0x1.12e0be826d695p-30%float.

(** C++ [a >= b] and [a != b] on doubles. *)
Definition dge (a b : double) : bool := (b <=? a)%float.
Definition dne (a b : double) : bool := negb (a =? b)%float.

Definition fabs (a : double) : double := abs a.

(* ================================================================= *)
(** ** Strings *)

Local Open Scope string_scope.
Local Open Scope list_scope.

(** The double-quote character, for messages that quote a name. *)
Definition dquote : string := String (ascii_of_nat 34) EmptyString.

(** [operator<<] of an element count. *)
Definition show_nat (n : nat) : string := NilZero.string_of_uint (Nat.to_uint n).

(** [contains hay needle]: [needle] occurs in [hay]. *)
Definition contains (hay needle : string) : Prop :=
  exists pre post, hay = (pre ++ needle ++ post)%string.

(* ================================================================= *)
(** ** Exceptions *)

(** What the code throws: an [int] (the recoverable-error signal of the
    callbacks) or a [std::exception], of which only [what()] is kept. *)
Inductive exn : Type :=
| ThrowInt (flag : Z)
| ThrowStd (what : string).

Inductive outcome (A : Type) : Type :=
| Ok (a : A)
| Throw (e : exn).
Arguments Ok {A} a.
Arguments Throw {A} e.

(** Modelled from the spec: the macros [casadi_error] and
    [casadi_assert_message] are defined in the core library, outside the
    source embedded here.  A fatal error is a thrown [CasadiException], a
    [std::exception], whose text holds the message given (the source
    location the macros add to it is left out). *)
Definition casadi_error {A} (msg : string) : outcome A := Throw (ThrowStd msg).

(** Modelled from the spec: [casadi_assert_message(cond, msg)] is a fatal
    error with [msg] unless [cond] holds. *)
Definition casadi_assert_message (cond : bool) (msg : string) : outcome unit :=
  if cond then Ok tt else casadi_error msg.

(** Code that mutates a memory block of type [S] and may throw. *)
Definition M (S A : Type) : Type := S -> S * outcome A.

Definition ret {S A} (a : A) : M S A := fun s => (s, Ok a).

Definition bind {S A B} (c : M S A) (k : A -> M S B) : M S B :=
  fun s => match c s with
           | (s', Ok a) => k a s'
           | (s', Throw e) => (s', Throw e)
           end.

Definition lift {S A} (o : outcome A) : M S A := fun s => (s, o).
Definition get {S} : M S S := fun s => (s, Ok s).
Definition modify {S} (f : S -> S) : M S unit := fun s => (f s, Ok tt).
Definition when {S} (b : bool) (c : M S unit) : M S unit := if b then c else ret tt.

Declare Scope monad_scope.
Delimit Scope monad_scope with monad.
Notation "x <- c ;; k" := (bind c (fun x => k))
  (at level 61, c at next level, right associativity) : monad_scope.
Notation "c ;; k" := (bind c (fun _ => k))
  (at level 61, right associativity) : monad_scope.

Fixpoint for_each {S A} (l : list A) (body : A -> M S unit) : M S unit :=
  match l with
  | [] => ret tt
  | a :: l' => bind (body a) (fun _ => for_each l' body)
  end.

(* ================================================================= *)
(** ** Options *)

(** The types of the options this interface reads. *)
Inductive TypeID : Set := OT_BOOL | OT_DOUBLE | OT_DOUBLEVECTOR.

(** An option value: a [GenericType] holding a value of one of these
    types. *)
Inductive GenericType : Type :=
| GT_bool (b : bool)
| GT_double (d : double)
| GT_double_vector (v : list double).

Definition getType (g : GenericType) : TypeID :=
  match g with
  | GT_bool _ => OT_BOOL
  | GT_double _ => OT_DOUBLE
  | GT_double_vector _ => OT_DOUBLEVECTOR
  end.

(** Modelled from the spec: the conversion operators of [GenericType]
    belong to the core library; an option value of another type is an
    invalid option value, refused with an exception. *)
Definition to_bool (g : GenericType) : outcome bool :=
  match g with GT_bool b => Ok b | _ => casadi_error "type mismatch: bool expected" end.
Definition to_double (g : GenericType) : outcome double :=
  match g with GT_double d => Ok d | _ => casadi_error "type mismatch: double expected" end.
Definition to_double_vector (g : GenericType) : outcome (list double) :=
  match g with
  | GT_double_vector v => Ok v
  | _ => casadi_error "type mismatch: double vector expected"
  end.

(** [Dict] is a [std::map<std::string, GenericType>]; a loop over it
    visits the entries in key order, so it is kept as the list of its
    entries in that order.  Keys of a map are distinct. *)
Definition Dict : Type := list (string * GenericType).

Definition wf_Dict (opts : Dict) : Prop := NoDup (map fst opts).

Fixpoint lookup {A} (key : string) (opts : list (string * A)) : option A :=
  match opts with
  | [] => None
  | (k, v) :: opts' => if (k =? key)%string then Some v else lookup key opts'
  end.

(** The option table [IdasInterface::options_] (names and types; the
    options of the base classes are not listed here). *)
Definition options_ : list (string * TypeID) :=
  [("suppress_algebraic", OT_BOOL);
   ("calc_ic", OT_BOOL);
   ("calc_icB", OT_BOOL);
   ("abstolv", OT_DOUBLEVECTOR);
   ("fsens_abstolv", OT_DOUBLEVECTOR);
   ("max_step_size", OT_DOUBLE);
   ("first_time", OT_DOUBLE);
   ("cj_scaling", OT_BOOL);
   ("extra_fsens_calc_ic", OT_BOOL);
   ("init_xdot", OT_DOUBLEVECTOR)].

Definition TypeID_eqb (a b : TypeID) : bool :=
  match a, b with
  | OT_BOOL, OT_BOOL | OT_DOUBLE, OT_DOUBLE | OT_DOUBLEVECTOR, OT_DOUBLEVECTOR => true
  | _, _ => false
  end.

(** The value [v] has the type the table gives the option [k], if the
    table lists it. *)
Definition option_typed (k : string) (v : GenericType) : bool :=
  match lookup k options_ with
  | Some ty => TypeID_eqb (getType v) ty
  | None => true
  end.

(** Every option of the table that [opts] sets has a value of the type
    the table gives it. *)
Definition well_typed (opts : Dict) : bool :=
  forallb (fun op : string * GenericType => option_typed (fst op) (snd op)) opts.

(* ================================================================= *)
(** ** Symbolic matrices *)

(** A sparsity pattern, kept dense: one row of flags per matrix row. *)
Definition Sparsity : Type := list (list bool).

Definition sp_cols (sp : Sparsity) : nat := List.length (hd [] sp).

(** Modelled from the spec: [diagcat] of the core library, the
    block-diagonal pattern of the given patterns. *)
Fixpoint diagcat (sps : list Sparsity) : Sparsity :=
  match sps with
  | [] => []
  | sp :: rest =>
      let d := diagcat rest in
      map (fun row => row ++ repeat false (sp_cols d)) sp
      ++ map (fun row => repeat false (sp_cols sp) ++ row) d
  end.

(** Inputs and outputs of the DAE oracle. *)
Inductive DaeIn : Set := DE_T | DE_X | DE_Z | DE_P | DE_RX | DE_RZ | DE_RP.
Inductive DaeOut : Set := DE_ODE | DE_ALG | DE_QUAD | DE_RODE | DE_RALG | DE_RQUAD.

(** The expressions [getJacF] and [getJacB] build, whatever the matrix
    type ([SX] or [MX]) they are instantiated at. *)
Inductive MatType : Type :=
| oracle_in (a : DaeIn)
| oracle_out (r : DaeOut)
| sym (name : string)
| eye (n : nat)
| jacobian (e x : MatType)
| minus (a b : MatType)
| plus (a b : MatType)
| times (a b : MatType)
| horzcat (a b : MatType)
| vertcat (a b : MatType)
| project (a : MatType) (sp : Sparsity).

(** A symbolic [Function]: name, inputs, outputs. *)
Record Function : Type := mkFunction {
  f_name : string;
  f_in : list MatType;
  f_out : list MatType
}.

(** *** Values of the expressions

    Modelled from the spec: the matrix operations of the symbolic core
    (identity, difference, sum, scaling by a scalar, concatenation,
    projection on a pattern) are not part of this interface.  Integer
    entries are enough to tell two expressions apart.  The Jacobian blocks
    of the oracle and the value of the symbol [cj] come from an
    environment. *)
Definition matrix : Type := list (list Z).

Record env : Type := mkEnv {
  jac_val : DaeOut -> DaeIn -> matrix;
  cj_val : Z
}.

Fixpoint zip_with {A B C} (f : A -> B -> C) (l : list A) (l' : list B) : list C :=
  match l, l' with
  | a :: l, b :: l' => f a b :: zip_with f l l'
  | _, _ => []
  end.

Definition unit_row (n i : nat) : list Z :=
  map (fun j => if Nat.eqb i j then 1%Z else 0%Z) (seq 0 n).

Definition eye_val (n : nat) : matrix := map (unit_row n) (seq 0 n).

Definition scale_val (a b : matrix) : matrix :=
  match a with
  | [[c]] => map (map (Z.mul c)) b
  | _ => []
  end.

Definition mask_val (a : matrix) (sp : Sparsity) : matrix :=
  zip_with (zip_with (fun v (keep : bool) => if keep then v else 0%Z)) a sp.

(** Modelled from the spec: the value of an expression, by the matrix
    operations above. *)
Fixpoint eval (rho : env) (e : MatType) : matrix :=
  match e with
  | jacobian (oracle_out r) (oracle_in a) => jac_val rho r a
  | sym _ => [[cj_val rho]]
  | eye n => eye_val n
  | minus a b => zip_with (zip_with Z.sub) (eval rho a) (eval rho b)
  | plus a b => zip_with (zip_with Z.add) (eval rho a) (eval rho b)
  | times a b => scale_val (eval rho a) (eval rho b)
  | horzcat a b => zip_with (@app Z) (eval rho a) (eval rho b)
  | vertcat a b => eval rho a ++ eval rho b
  | project a sp => mask_val (eval rho a) sp
  | _ => []
  end.

(* ================================================================= *)
(** ** The interface object *)

Inductive IterativeSolver : Set := SD_GMRES | SD_BCGSTAB | SD_TFQMR.
Inductive InterpType : Set := SD_POLYNOMIAL | SD_HERMITE.

(** What the base class [SundialsInterface] holds once its own [init]
    has run.  [derivative_jacF_sp] and [derivative_jacB_sp] stand for
    [derivative_of_.get_function(...).sparsity_out(0)], read only when
    [ns_ > 0]. *)
Record SundialsInterface : Type := mkSundials {
  nx_ : nat; nz_ : nat; nq_ : nat;
  nrx_ : nat; nrz_ : nat; nrq_ : nat;
  ns_ : nat;
  grid_ : list double;
  stop_at_end_ : bool;
  iterative_ : bool;
  use_precon_ : bool;
  quad_err_con_ : bool;
  itsol_ : IterativeSolver;
  interp_ : InterpType;
  reltol_ : double;
  abstol_ : double;
  max_num_steps_ : Z;
  max_krylov_ : Z;
  max_multistep_order_ : Z;
  steps_per_checkpoint_ : Z;
  derivative_jacF_sp : Sparsity;
  derivative_jacB_sp : Sparsity
}.

(** [grid_.front()] and [grid_.back()]; the base class leaves a grid of
    at least two points. *)
Definition grid_front (b : SundialsInterface) : double := hd 0%float (grid_ b).
Definition grid_back (b : SundialsInterface) : double := last (grid_ b) 0%float.

(** A function registered with the object: created from the oracle by the
    names of its inputs and outputs, or given symbolically. *)
Inductive Registered : Type :=
| FromOracle (name : string) (ins outs : list string)
| Symbolic (f : Function).

Record IdasInterface : Type := mkIdas {
  base :> SundialsInterface;
  cj_scaling_ : bool;
  calc_ic_ : bool;
  calc_icB_ : bool;
  suppress_algebraic_ : bool;
  max_step_size_ : double;
  first_time_ : double;
  init_xdot_ : list double;
  abstolv_ : list double;
  fsens_abstolv_ : list double;
  functions_ : list Registered
}.

Definition set_cj_scaling v s := mkIdas (base s) v (calc_ic_ s) (calc_icB_ s)
  (suppress_algebraic_ s) (max_step_size_ s) (first_time_ s) (init_xdot_ s)
  (abstolv_ s) (fsens_abstolv_ s) (functions_ s).
Definition set_calc_ic v s := mkIdas (base s) (cj_scaling_ s) v (calc_icB_ s)
  (suppress_algebraic_ s) (max_step_size_ s) (first_time_ s) (init_xdot_ s)
  (abstolv_ s) (fsens_abstolv_ s) (functions_ s).
Definition set_calc_icB v s := mkIdas (base s) (cj_scaling_ s) (calc_ic_ s) v
  (suppress_algebraic_ s) (max_step_size_ s) (first_time_ s) (init_xdot_ s)
  (abstolv_ s) (fsens_abstolv_ s) (functions_ s).
Definition set_suppress_algebraic v s := mkIdas (base s) (cj_scaling_ s) (calc_ic_ s)
  (calc_icB_ s) v (max_step_size_ s) (first_time_ s) (init_xdot_ s)
  (abstolv_ s) (fsens_abstolv_ s) (functions_ s).
Definition set_max_step_size v s := mkIdas (base s) (cj_scaling_ s) (calc_ic_ s)
  (calc_icB_ s) (suppress_algebraic_ s) v (first_time_ s) (init_xdot_ s)
  (abstolv_ s) (fsens_abstolv_ s) (functions_ s).
Definition set_first_time v s := mkIdas (base s) (cj_scaling_ s) (calc_ic_ s)
  (calc_icB_ s) (suppress_algebraic_ s) (max_step_size_ s) v (init_xdot_ s)
  (abstolv_ s) (fsens_abstolv_ s) (functions_ s).
Definition set_init_xdot v s := mkIdas (base s) (cj_scaling_ s) (calc_ic_ s)
  (calc_icB_ s) (suppress_algebraic_ s) (max_step_size_ s) (first_time_ s) v
  (abstolv_ s) (fsens_abstolv_ s) (functions_ s).
Definition set_abstolv v s := mkIdas (base s) (cj_scaling_ s) (calc_ic_ s)
  (calc_icB_ s) (suppress_algebraic_ s) (max_step_size_ s) (first_time_ s)
  (init_xdot_ s) v (fsens_abstolv_ s) (functions_ s).
Definition set_fsens_abstolv v s := mkIdas (base s) (cj_scaling_ s) (calc_ic_ s)
  (calc_icB_ s) (suppress_algebraic_ s) (max_step_size_ s) (first_time_ s)
  (init_xdot_ s) (abstolv_ s) v (functions_ s).
Definition add_function f s := mkIdas (base s) (cj_scaling_ s) (calc_ic_ s)
  (calc_icB_ s) (suppress_algebraic_ s) (max_step_size_ s) (first_time_ s)
  (init_xdot_ s) (abstolv_ s) (fsens_abstolv_ s) (functions_ s ++ [f]).

(** The object as its constructor leaves it, before [init]: the vectors
    are empty; the scalar members have no value yet and get one in [init]
    before they are read. *)
Definition construct (b : SundialsInterface) : IdasInterface :=
  mkIdas b false false false false 0%float 0%float [] [] [] [].

(* ================================================================= *)
(** ** The Newton Jacobians *)

(** [getJacF]: the Jacobian of the forward residual in the Newton
    iteration. *)
Definition getJacF (s : SundialsInterface) : Function :=
  let a := oracle_in in
  let r := oracle_out in
  let cj := sym "cj" in
  let jac := minus (jacobian (r DE_ODE) (a DE_X)) (times cj (eye (nx_ s))) in
  let jac :=
    if (0 <? nz_ s)%nat
    then horzcat (vertcat jac (jacobian (r DE_ALG) (a DE_X)))
                 (vertcat (jacobian (r DE_ODE) (a DE_Z))
                          (jacobian (r DE_ALG) (a DE_Z)))
    else jac in
  (* Remove second order terms *)
  let jac :=
    if (0 <? ns_ s)%nat && (nz_ s =? 0)%nat
    then project jac (diagcat (repeat (derivative_jacF_sp s) (1 + ns_ s)))
    else jac in
  mkFunction "jacF" [a DE_T; a DE_X; a DE_Z; a DE_P; cj] [jac].

(** [getJacB]: the same for the backward residual. *)
Definition getJacB (s : SundialsInterface) : Function :=
  let a := oracle_in in
  let r := oracle_out in
  let cj := sym "cj" in
  let jac := plus (jacobian (r DE_RODE) (a DE_RX)) (times cj (eye (nrx_ s))) in
  let jac :=
    if (0 <? nrz_ s)%nat
    then horzcat (vertcat jac (jacobian (r DE_RALG) (a DE_RX)))
                 (vertcat (jacobian (r DE_RODE) (a DE_RZ))
                          (jacobian (r DE_RALG) (a DE_RZ)))
    else jac in
  let jac :=
    if (0 <? ns_ s)%nat && (nrz_ s =? 0)%nat
    then project jac (diagcat (repeat (derivative_jacB_sp s) (1 + ns_ s)))
    else jac in
  mkFunction "jacB"
    [a DE_T; a DE_RX; a DE_RZ; a DE_RP; a DE_X; a DE_Z; a DE_P; cj] [jac].

(** *** The Jacobians as the specification words them

    The differential block: the partial derivative of the residual with
    respect to the differential state, minus [cj] times the identity
    (forward) or plus [cj] times the identity (backward); and the matrix
    of four blocks, concatenated vertically and then horizontally. *)
Definition differential_block_F (nx : nat) : MatType :=
  minus (jacobian (oracle_out DE_ODE) (oracle_in DE_X)) (times (sym "cj") (eye nx)).

Definition differential_block_B (nrx : nat) : MatType :=
  plus (jacobian (oracle_out DE_RODE) (oracle_in DE_RX)) (times (sym "cj") (eye nrx)).

Definition four_blocks (upper_left lower_left upper_right lower_right : MatType)
  : MatType :=
  horzcat (vertcat upper_left lower_left) (vertcat upper_right lower_right).

(* ================================================================= *)
(** ** [IdasInterface::init] *)

(** [init_xdot_.resize(n, v)]. *)
Definition resize {A} (n : nat) (v : A) (l : list A) : list A :=
  firstn n l ++ repeat v (n - List.length l).

Definition is_empty {A} (l : list A) : bool :=
  match l with [] => true | _ => false end.

Definition create_function (name : string) (ins outs : list string)
  : M IdasInterface unit :=
  modify (add_function (FromOracle name ins outs)).

Definition set_function (f : Function) : M IdasInterface unit :=
  modify (add_function (Symbolic f)).

Local Open Scope monad_scope.

(** The object itself. *)
Definition this : M IdasInterface IdasInterface := get.

(** Body of the first loop over the options. *)
Definition read_option (op : string * GenericType) : M IdasInterface unit :=
  let (key, val) := op in
  if (key =? "init_xdot")%string then
    v <- lift (to_double_vector val) ;; modify (set_init_xdot v)
  else if (key =? "cj_scaling")%string then
    v <- lift (to_bool val) ;; modify (set_cj_scaling v)
  else if (key =? "calc_ic")%string then
    v <- lift (to_bool val) ;; modify (set_calc_ic v)
  else if (key =? "suppress_algebraic")%string then
    v <- lift (to_bool val) ;; modify (set_suppress_algebraic v)
  else if (key =? "max_step_size")%string then
    v <- lift (to_double val) ;; modify (set_max_step_size v)
  else if (key =? "abstolv")%string then
    v <- lift (to_double_vector val) ;; modify (set_abstolv v)
  else if (key =? "fsens_abstolv")%string then
    v <- lift (to_double_vector val) ;; modify (set_fsens_abstolv v)
  else ret tt.

(** Body of the second loop, over the options whose defaults depend on
    other options. *)
Definition read_dependent_option (op : string * GenericType)
  : M IdasInterface unit :=
  let (key, val) := op in
  if (key =? "calc_icB")%string then
    v <- lift (to_bool val) ;; modify (set_calc_icB v)
  else if (key =? "first_time")%string then
    v <- lift (to_double val) ;; modify (set_first_time v)
  else ret tt.

Definition init_xdot_message (nx got : nat) : string :=
  ("Option " ++ dquote ++ "init_xdot" ++ dquote
   ++ " has incorrect length. Expecting " ++ show_nat nx
   ++ ", but got " ++ show_nat got
   ++ ". Note that this message may actually be generated by the augmented"
   ++ " integrator. In that case, make use of the 'augmented_options' options"
   ++ " to correct 'init_xdot' for the augmented integrator.")%string.

(** [init], run on the object whose base-class part is initialised
    already ([SundialsInterface::init(opts)] is the first statement, and
    reads the same options).  The two calls into the base class after
    the Jacobians, [init_jacF()] and [init_jacB()], are not in this file
    and are left out: [functions_] holds what [init] registers by its
    own calls of [create_function] and [set_function]. *)
Definition init (opts : Dict) : M IdasInterface unit :=
  (* Default options *)
  modify (set_cj_scaling false) ;;
  modify (set_calc_ic true) ;;
  modify (set_suppress_algebraic false) ;;
  modify (set_max_step_size 0%float) ;;
  (* Read options *)
  for_each opts read_option ;;
  (* Default dependent options *)
  s <- this ;;
  modify (set_calc_icB (calc_ic_ s)) ;;
  modify (set_first_time (grid_back s)) ;;
  (* Read dependent options *)
  for_each opts read_dependent_option ;;
  create_function "daeF" ["x"; "z"; "p"; "t"] ["ode"; "alg"] ;;
  create_function "quadF" ["x"; "z"; "p"; "t"] ["quad"] ;;
  create_function "daeB" ["rx"; "rz"; "rp"; "x"; "z"; "p"; "t"] ["rode"; "ralg"] ;;
  create_function "quadB" ["rx"; "rz"; "rp"; "x"; "z"; "p"; "t"] ["rquad"] ;;
  (* Create a Jacobian if requested *)
  s <- this ;;
  set_function (getJacF s) ;;
  (* Create a backwards Jacobian if requested *)
  when (0 <? nrx_ s)%nat (set_function (getJacB s)) ;;
  (* Get initial conditions for the state derivatives *)
  (if is_empty (init_xdot_ s)
   then modify (set_init_xdot (resize (nx_ s) 0%float (init_xdot_ s)))
   else lift (casadi_assert_message
                (List.length (init_xdot_ s) =? nx_ s)%nat
                (init_xdot_message (nx_ s) (List.length (init_xdot_ s))))) ;;
  (* Attach functions for jacobian information *)
  when (iterative_ s)
    (create_function "jtimesF"
       ["t"; "x"; "z"; "p"; "fwd:x"; "fwd:z"] ["fwd:ode"; "fwd:alg"] ;;
     when (0 <? nrx_ s)%nat
       (create_function "jtimesB"
          ["t"; "x"; "z"; "p"; "rx"; "rz"; "rp"; "fwd:rx"; "fwd:rz"]
          ["fwd:rode"; "fwd:ralg"])).

(** Construction followed by [init]. *)
Definition setup (b : SundialsInterface) (opts : Dict)
  : IdasInterface * outcome unit :=
  init opts (construct b).

(* ================================================================= *)
(** ** The engine seen from the interface *)

Definition N_Vector : Type := list double.

(** The counters [IDAGetIntegratorStats] reports. *)
Record IdaStats : Type := mkStats {
  nsteps : Z; nfevals : Z; nlinsetups : Z; netfails : Z;
  qlast : Z; qcur : Z;
  hinused : double; hlast : double; hcur : double; tcur : double
}.

Definition no_stats : IdaStats :=
  mkStats 0 0 0 0 0 0 0%float 0%float 0%float 0%float.

(** Constants of the IDAS headers. *)
Definition IDA_SUCCESS : Z := 0.
Definition IDA_NORMAL : Z := 1.
Definition IDA_HERMITE : Z := 1.
Definition IDA_POLYNOMIAL : Z := 2.

(** The entry points of IDAS the modelled functions use, each with the
    arguments of the C call; where the C call passes a pointer for the
    engine to write through, the constructor carries what the pointer
    holds at the call.  [IDAMem_set_linear_solver] is not an entry point:
    it stands for the direct path's assignment of [ida_lmem],
    [ida_lsetup], [ida_lsolve] and [ida_setupNonNull] in the engine's own
    structure.  [IDAGetIntegratorStats true] is the query on the backward
    sub-context [IDAB_mem->IDA_mem]. *)
Inductive IdaCall : Type :=
| IDACreate
| IDASetErrHandlerFn
| IDASetUserData
| IDAInit (t0 : double) (yy yp : N_Vector)
| IDASetSuppressAlg (suppress : bool)
| IDASetMaxOrd (maxord : Z)
| IDASetMaxStep (hmax : double)
| IDASVtolerances (reltol : double) (abstol : N_Vector)
| IDASStolerances (reltol abstol : double)
| IDASetMaxNumSteps (mxsteps : Z)
| IDASetId (id : N_Vector)
| IDASpgmr (maxl : Z)
| IDASpbcg (maxl : Z)
| IDASptfqmr (maxl : Z)
| IDASpilsSetJacTimesVecFn
| IDASpilsSetPreconditioner
| IDAMem_set_linear_solver
| IDAQuadInit (yQ0 : N_Vector)
| IDASetQuadErrCon (errconQ : bool)
| IDAQuadSStolerances (reltol abstol : double)
| IDAAdjInit (steps : Z) (interp : Z)
| IDASolveF (tout tret : double) (yret ypret : N_Vector) (itask ncheck : Z)
| IDASolve (tout tret : double) (yret ypret : N_Vector) (itask : Z)
| IDAGetQuad (yQout : N_Vector)
| IDAGetIntegratorStats (backward : bool)
| IDASolveB (tBout : double) (itaskB : Z)
| IDAGetB (which : Z) (tret : double) (yy yp : N_Vector)
| IDAGetQuadB (which : Z) (tret : double) (qB : N_Vector).

(** [CASADI_ASSERT_STR(fcn)]: the name of the called function. *)
Definition fcn_name (c : IdaCall) : string :=
  match c with
  | IDACreate => "IDACreate"
  | IDASetErrHandlerFn => "IDASetErrHandlerFn"
  | IDASetUserData => "IDASetUserData"
  | IDAInit _ _ _ => "IDAInit"
  | IDASetSuppressAlg _ => "IDASetSuppressAlg"
  | IDASetMaxOrd _ => "IDASetMaxOrd"
  | IDASetMaxStep _ => "IDASetMaxStep"
  | IDASVtolerances _ _ => "IDASVtolerances"
  | IDASStolerances _ _ => "IDASStolerances"
  | IDASetMaxNumSteps _ => "IDASetMaxNumSteps"
  | IDASetId _ => "IDASetId"
  | IDASpgmr _ => "IDASpgmr"
  | IDASpbcg _ => "IDASpbcg"
  | IDASptfqmr _ => "IDASptfqmr"
  | IDASpilsSetJacTimesVecFn => "IDASpilsSetJacTimesVecFn"
  | IDASpilsSetPreconditioner => "IDASpilsSetPreconditioner"
  | IDAMem_set_linear_solver => "IDAMem"
  | IDAQuadInit _ => "IDAQuadInit"
  | IDASetQuadErrCon _ => "IDASetQuadErrCon"
  | IDAQuadSStolerances _ _ => "IDAQuadSStolerances"
  | IDAAdjInit _ _ => "IDAAdjInit"
  | IDASolveF _ _ _ _ _ _ => "IDASolveF"
  | IDASolve _ _ _ _ _ => "IDASolve"
  | IDAGetQuad _ => "IDAGetQuad"
  | IDAGetIntegratorStats _ => "IDAGetIntegratorStats"
  | IDASolveB _ _ => "IDASolveB"
  | IDAGetB _ _ _ _ => "IDAGetB"
  | IDAGetQuadB _ _ _ => "IDAGetQuadB"
  end.

(** What a call hands back: the return flag and the values written
    through the pointer arguments (the fields a call does not write are
    ignored by its caller). *)
Record IdaReply : Type := mkReply {
  r_flag : Z;
  r_tret : double;
  r_yy : N_Vector;
  r_yp : N_Vector;
  r_q : N_Vector;
  r_ncheck : Z;
  r_stats : IdaStats
}.

(** The adjoint module's record inside the engine, as far as [lsetupB]
    and [lsolveB] read it: [ia_getY t] interpolates the forward solution
    at [t] and gives the flag and the two vectors it stores in [ia_yyTmp]
    and [ia_ypTmp]. *)
Record IDAadjMemRec : Type := mkAdj {
  ia_noInterp : bool;
  ia_getY : double -> Z * N_Vector * N_Vector;
  ia_yyTmp : N_Vector;
  ia_ypTmp : N_Vector
}.

(** The engine's record as the linear-solver hooks read it.  For a
    backward problem [ida_adj_mem] is the adjoint record of the forward
    problem found through [ida_user_data]. *)
Record IDAMemRec : Type := mkIDAMem {
  ida_tn : double;
  ida_cj : double;
  ida_cjratio : double;
  ida_adj_mem : IDAadjMemRec
}.

(** Everything the interface calls but does not define: the evaluator of
    the oracle's functions, the linear solver plugin with states in [L],
    the IDAS engine with states in [E] (a null handle is [None]), the
    engine's table of flag names, the source-location text of the
    assertion macros (by line), and the printing of a double. *)
Class Collaborators (E L : Type) : Type := {
  calc_function : string -> list N_Vector -> outcome (list N_Vector);
  linsol_factorize : L -> list double -> outcome L;
  linsol_solve : L -> N_Vector -> outcome N_Vector;
  ida : option E -> IdaCall -> option E * IdaReply;
  IDAGetReturnFlagName : Z -> string;
  CASADI_ASSERT_WHERE : nat -> string;
  show_double : double -> string
}.

(* ================================================================= *)
(** ** The memory block *)

Section Memory.
Context {E L : Type}.

(** [IdasMemory] with the members of its base classes.  The counters of
    the two directions are grouped in [m_statsF] and [m_statsB]; [m_linsolF] and
    [m_linsolB] are the states of the two linear solver functions.  Two
    fields are ghost state: [m_userOut], the lines written to the warning
    stream, and [m_calls], the engine calls made so far, latest first. *)
Record IdasMemory : Type := mkMem {
  m_self : IdasInterface;
  m_p : N_Vector;
  m_rp : N_Vector;
  m_t : double;
  m_xz : N_Vector;
  m_xzdot : N_Vector;
  m_q : N_Vector;
  m_rxz : N_Vector;
  m_rxzdot : N_Vector;
  m_rq : N_Vector;
  m_jac : list double;
  m_jacB : list double;
  m_linsolF : L;
  m_linsolB : L;
  m_mem : option E;
  m_ncheck : Z;
  m_whichB : Z;
  m_first_callB : bool;
  m_statsF : IdaStats;
  m_statsB : IdaStats;
  m_userOut : list string;
  m_calls : list IdaCall
}.

Definition set_t (v : double) (m : IdasMemory) : IdasMemory :=
  mkMem (m_self m) (m_p m) (m_rp m) v (m_xz m) (m_xzdot m) (m_q m) (m_rxz m)
    (m_rxzdot m) (m_rq m) (m_jac m) (m_jacB m) (m_linsolF m) (m_linsolB m)
    (m_mem m) (m_ncheck m) (m_whichB m) (m_first_callB m) (m_statsF m)
    (m_statsB m) (m_userOut m) (m_calls m).
Definition set_xz (v : N_Vector) (m : IdasMemory) : IdasMemory :=
  mkMem (m_self m) (m_p m) (m_rp m) (m_t m) v (m_xzdot m) (m_q m) (m_rxz m)
    (m_rxzdot m) (m_rq m) (m_jac m) (m_jacB m) (m_linsolF m) (m_linsolB m)
    (m_mem m) (m_ncheck m) (m_whichB m) (m_first_callB m) (m_statsF m)
    (m_statsB m) (m_userOut m) (m_calls m).
Definition set_xzdot (v : N_Vector) (m : IdasMemory) : IdasMemory :=
  mkMem (m_self m) (m_p m) (m_rp m) (m_t m) (m_xz m) v (m_q m) (m_rxz m)
    (m_rxzdot m) (m_rq m) (m_jac m) (m_jacB m) (m_linsolF m) (m_linsolB m)
    (m_mem m) (m_ncheck m) (m_whichB m) (m_first_callB m) (m_statsF m)
    (m_statsB m) (m_userOut m) (m_calls m).
Definition set_q (v : N_Vector) (m : IdasMemory) : IdasMemory :=
  mkMem (m_self m) (m_p m) (m_rp m) (m_t m) (m_xz m) (m_xzdot m) v (m_rxz m)
    (m_rxzdot m) (m_rq m) (m_jac m) (m_jacB m) (m_linsolF m) (m_linsolB m)
    (m_mem m) (m_ncheck m) (m_whichB m) (m_first_callB m) (m_statsF m)
    (m_statsB m) (m_userOut m) (m_calls m).
Definition set_rxz (v : N_Vector) (m : IdasMemory) : IdasMemory :=
  mkMem (m_self m) (m_p m) (m_rp m) (m_t m) (m_xz m) (m_xzdot m) (m_q m) v
    (m_rxzdot m) (m_rq m) (m_jac m) (m_jacB m) (m_linsolF m) (m_linsolB m)
    (m_mem m) (m_ncheck m) (m_whichB m) (m_first_callB m) (m_statsF m)
    (m_statsB m) (m_userOut m) (m_calls m).
Definition set_rxzdot (v : N_Vector) (m : IdasMemory) : IdasMemory :=
  mkMem (m_self m) (m_p m) (m_rp m) (m_t m) (m_xz m) (m_xzdot m) (m_q m)
    (m_rxz m) v (m_rq m) (m_jac m) (m_jacB m) (m_linsolF m) (m_linsolB m)
    (m_mem m) (m_ncheck m) (m_whichB m) (m_first_callB m) (m_statsF m)
    (m_statsB m) (m_userOut m) (m_calls m).
Definition set_rq (v : N_Vector) (m : IdasMemory) : IdasMemory :=
  mkMem (m_self m) (m_p m) (m_rp m) (m_t m) (m_xz m) (m_xzdot m) (m_q m)
    (m_rxz m) (m_rxzdot m) v (m_jac m) (m_jacB m) (m_linsolF m)
    (m_linsolB m) (m_mem m) (m_ncheck m) (m_whichB m) (m_first_callB m)
    (m_statsF m) (m_statsB m) (m_userOut m) (m_calls m).
Definition set_jac (v : list double) (m : IdasMemory) : IdasMemory :=
  mkMem (m_self m) (m_p m) (m_rp m) (m_t m) (m_xz m) (m_xzdot m) (m_q m)
    (m_rxz m) (m_rxzdot m) (m_rq m) v (m_jacB m) (m_linsolF m) (m_linsolB m)
    (m_mem m) (m_ncheck m) (m_whichB m) (m_first_callB m) (m_statsF m)
    (m_statsB m) (m_userOut m) (m_calls m).
Definition set_jacB (v : list double) (m : IdasMemory) : IdasMemory :=
  mkMem (m_self m) (m_p m) (m_rp m) (m_t m) (m_xz m) (m_xzdot m) (m_q m)
    (m_rxz m) (m_rxzdot m) (m_rq m) (m_jac m) v (m_linsolF m) (m_linsolB m)
    (m_mem m) (m_ncheck m) (m_whichB m) (m_first_callB m) (m_statsF m)
    (m_statsB m) (m_userOut m) (m_calls m).
Definition set_linsolF (v : L) (m : IdasMemory) : IdasMemory :=
  mkMem (m_self m) (m_p m) (m_rp m) (m_t m) (m_xz m) (m_xzdot m) (m_q m)
    (m_rxz m) (m_rxzdot m) (m_rq m) (m_jac m) (m_jacB m) v (m_linsolB m)
    (m_mem m) (m_ncheck m) (m_whichB m) (m_first_callB m) (m_statsF m)
    (m_statsB m) (m_userOut m) (m_calls m).
Definition set_linsolB (v : L) (m : IdasMemory) : IdasMemory :=
  mkMem (m_self m) (m_p m) (m_rp m) (m_t m) (m_xz m) (m_xzdot m) (m_q m)
    (m_rxz m) (m_rxzdot m) (m_rq m) (m_jac m) (m_jacB m) (m_linsolF m) v
    (m_mem m) (m_ncheck m) (m_whichB m) (m_first_callB m) (m_statsF m)
    (m_statsB m) (m_userOut m) (m_calls m).
Definition set_mem (v : option E) (m : IdasMemory) : IdasMemory :=
  mkMem (m_self m) (m_p m) (m_rp m) (m_t m) (m_xz m) (m_xzdot m) (m_q m)
    (m_rxz m) (m_rxzdot m) (m_rq m) (m_jac m) (m_jacB m) (m_linsolF m)
    (m_linsolB m) v (m_ncheck m) (m_whichB m) (m_first_callB m) (m_statsF m)
    (m_statsB m) (m_userOut m) (m_calls m).
Definition set_ncheck (v : Z) (m : IdasMemory) : IdasMemory :=
  mkMem (m_self m) (m_p m) (m_rp m) (m_t m) (m_xz m) (m_xzdot m) (m_q m)
    (m_rxz m) (m_rxzdot m) (m_rq m) (m_jac m) (m_jacB m) (m_linsolF m)
    (m_linsolB m) (m_mem m) v (m_whichB m) (m_first_callB m) (m_statsF m)
    (m_statsB m) (m_userOut m) (m_calls m).
Definition set_whichB (v : Z) (m : IdasMemory) : IdasMemory :=
  mkMem (m_self m) (m_p m) (m_rp m) (m_t m) (m_xz m) (m_xzdot m) (m_q m)
    (m_rxz m) (m_rxzdot m) (m_rq m) (m_jac m) (m_jacB m) (m_linsolF m)
    (m_linsolB m) (m_mem m) (m_ncheck m) v (m_first_callB m) (m_statsF m)
    (m_statsB m) (m_userOut m) (m_calls m).
Definition set_first_callB (v : bool) (m : IdasMemory) : IdasMemory :=
  mkMem (m_self m) (m_p m) (m_rp m) (m_t m) (m_xz m) (m_xzdot m) (m_q m)
    (m_rxz m) (m_rxzdot m) (m_rq m) (m_jac m) (m_jacB m) (m_linsolF m)
    (m_linsolB m) (m_mem m) (m_ncheck m) (m_whichB m) v (m_statsF m)
    (m_statsB m) (m_userOut m) (m_calls m).
Definition set_statsF (v : IdaStats) (m : IdasMemory) : IdasMemory :=
  mkMem (m_self m) (m_p m) (m_rp m) (m_t m) (m_xz m) (m_xzdot m) (m_q m)
    (m_rxz m) (m_rxzdot m) (m_rq m) (m_jac m) (m_jacB m) (m_linsolF m)
    (m_linsolB m) (m_mem m) (m_ncheck m) (m_whichB m) (m_first_callB m) v
    (m_statsB m) (m_userOut m) (m_calls m).
Definition set_statsB (v : IdaStats) (m : IdasMemory) : IdasMemory :=
  mkMem (m_self m) (m_p m) (m_rp m) (m_t m) (m_xz m) (m_xzdot m) (m_q m)
    (m_rxz m) (m_rxzdot m) (m_rq m) (m_jac m) (m_jacB m) (m_linsolF m)
    (m_linsolB m) (m_mem m) (m_ncheck m) (m_whichB m) (m_first_callB m)
    (m_statsF m) v (m_userOut m) (m_calls m).
Definition set_userOut (v : list string) (m : IdasMemory) : IdasMemory :=
  mkMem (m_self m) (m_p m) (m_rp m) (m_t m) (m_xz m) (m_xzdot m) (m_q m)
    (m_rxz m) (m_rxzdot m) (m_rq m) (m_jac m) (m_jacB m) (m_linsolF m)
    (m_linsolB m) (m_mem m) (m_ncheck m) (m_whichB m) (m_first_callB m)
    (m_statsF m) (m_statsB m) v (m_calls m).
Definition set_calls (v : list IdaCall) (m : IdasMemory) : IdasMemory :=
  mkMem (m_self m) (m_p m) (m_rp m) (m_t m) (m_xz m) (m_xzdot m) (m_q m)
    (m_rxz m) (m_rxzdot m) (m_rq m) (m_jac m) (m_jacB m) (m_linsolF m)
    (m_linsolB m) (m_mem m) (m_ncheck m) (m_whichB m) (m_first_callB m)
    (m_statsF m) (m_statsB m) (m_userOut m) v.

End Memory.
Arguments IdasMemory : clear implicits.

(* ================================================================= *)
(** ** Vector kernels *)

(** [slice off n v]: the [n] entries a function reads through the pointer
    [v + off]. *)
Definition slice {A} (off n : nat) (v : list A) : list A := firstn n (skipn off v).

(** [store off src dst]: [dst] after [src] has been written through the
    pointer [dst + off]. *)
Definition store {A} (off : nat) (src dst : list A) : list A :=
  firstn off dst ++ src ++ skipn (off + List.length src) dst.

(** Modelled from the spec: the kernels [casadi_axpy], [casadi_scal] and
    [casadi_copy] of the core runtime and [N_VScale], [N_VConst] of the
    engine's serial vectors are not part of this interface.  They are the
    loops [y[i] += alpha*x[i]], [x[i] *= alpha], [y[i] = x[i]] over the
    first [n] entries, and [z[i] = c*x[i]], [z[i] = c] over a whole
    vector. *)
Fixpoint casadi_axpy (n : nat) (alpha : double) (x y : list double) : list double :=
  match n, x, y with
  | S n', xi :: x', yi :: y' => (yi + alpha * xi)%float :: casadi_axpy n' alpha x' y'
  | _, _, _ => y
  end.

(** Modelled from the spec: [casadi_scal(n, alpha, x)], the loop
    [x[i] *= alpha] over the first [n] entries. *)
Fixpoint casadi_scal (n : nat) (alpha : double) (x : list double) : list double :=
  match n, x with
  | S n', xi :: x' => (xi * alpha)%float :: casadi_scal n' alpha x'
  | _, _ => x
  end.

(** Modelled from the spec: [casadi_copy(x, n, y)], the first [n] entries
    of [x], which become those of [y]. *)
Definition casadi_copy (x : list double) (n : nat) : list double := firstn n x.

(** Modelled from the spec: [N_VScale(c, x, z)], the vector [z[i] = c*x[i]]. *)
Definition N_VScale (c : double) (x : N_Vector) : N_Vector :=
  map (fun xi => (c * xi)%float) x.

(** Modelled from the spec: [N_VConst(c, z)], the vector [z[i] = c]. *)
Definition N_VConst (c : double) (z : N_Vector) : N_Vector := map (fun _ => c) z.

(** Modelled from the spec: [N_VNew_Serial(n)], a fresh vector of [n]
    entries (their values are not defined until written; zero here). *)
Definition N_VNew_Serial (n : nat) : N_Vector := repeat 0%float n.

(* ================================================================= *)
(** ** Callbacks *)

Section Callbacks.
Context {E L : Type} {X : Collaborators E L}.

Abbreviation Mem := (IdasMemory E L).

(** [userOut<true, PL_WARN>() << line << endl]. *)
Definition warn (line : string) (m : Mem) : Mem :=
  set_userOut (m_userOut m ++ [line]) m.

(** A callback gives the engine a return code, or lets an exception
    escape into the engine ([Throw]); next to it stands the vector it
    writes.  When an exception leaves the [try] block that vector is
    given as it was before the call that threw: what a failing
    evaluation leaves in it is not modelled. *)
Definition callback (A : Type) : Type := Mem -> Mem * (outcome Z * A).

(** [try { body } catch(int flag) { return flag; }
    catch(exception& e) { userOut << who << " failed: " << e.what();
    return -1; }] *)
Definition try_catch_int_exception {A} (who : string) (entry : A)
    (body : M Mem (Z * A)) : callback A :=
  fun m =>
    match body m with
    | (m', Ok (flag, v)) => (m', (Ok flag, v))
    | (m', Throw (ThrowInt flag)) => (m', (Ok flag, entry))
    | (m', Throw (ThrowStd what)) =>
        (warn (who ++ " failed: " ++ what)%string m', (Ok (-1)%Z, entry))
    end.

(** [try { body } catch(exception& e) { userOut << who << " failed: "
    << e.what(); return code; }]: a thrown [int] is not caught. *)
Definition try_catch_exception {A} (who : string) (code : Z) (entry : A)
    (body : M Mem (Z * A)) : callback A :=
  fun m =>
    match body m with
    | (m', Ok (flag, v)) => (m', (Ok flag, v))
    | (m', Throw (ThrowInt flag)) => (m', (Throw (ThrowInt flag), entry))
    | (m', Throw (ThrowStd what)) =>
        (warn (who ++ " failed: " ++ what)%string m', (Ok code, entry))
    end.

(** A callback called from inside another one: an exception that escapes
    it travels on in the caller. *)
Definition call {A} (cb : callback A) : M Mem (Z * A) :=
  fun m =>
    match cb m with
    | (m', (Ok flag, v)) => (m', Ok (flag, v))
    | (m', (Throw e, _)) => (m', Throw e)
    end.

(** [auto m = to_mem(mem)]: the memory block at hand. *)
Definition to_mem : M Mem Mem := get.

Definition res (t : double) (xz xzdot rr : N_Vector) : callback N_Vector :=
  try_catch_int_exception "res" rr
    (m <- to_mem ;;
     let s := m_self m in
     outs <- lift (calc_function "daeF"
                     [slice 0 (nx_ s) xz; slice (nx_ s) (nz_ s) xz; m_p m; [t]]) ;;
     let rr := store (nx_ s) (nth 1 outs []) (store 0 (nth 0 outs []) rr) in
     (* Subtract state derivative to get residual *)
     let rr := casadi_axpy (nx_ s) (-1)%float xzdot rr in
     ret (0%Z, rr)).

Definition jtimes (t : double) (xz xzdot rr v Jv : N_Vector) (cj : double)
  : callback N_Vector :=
  try_catch_exception "jtimes" 1 Jv
    (m <- to_mem ;;
     let s := m_self m in
     outs <- lift (calc_function "jtimesF"
                     [[t]; slice 0 (nx_ s) xz; slice (nx_ s) (nz_ s) xz; m_p m;
                      slice 0 (nx_ s) v; slice (nx_ s) (nz_ s) v]) ;;
     let Jv := store (nx_ s) (nth 1 outs []) (store 0 (nth 0 outs []) Jv) in
     let Jv := casadi_axpy (nx_ s) (- cj)%float v Jv in
     ret (0%Z, Jv)).

Definition jtimesB (t : double) (xz xzdot xzB xzdotB resvalB vB JvB : N_Vector)
    (cjB : double) : callback N_Vector :=
  try_catch_exception "jtimesB" 1 JvB
    (m <- to_mem ;;
     let s := m_self m in
     outs <- lift (calc_function "jtimesB"
                     [[t]; slice 0 (nx_ s) xz; slice (nx_ s) (nz_ s) xz; m_p m;
                      slice 0 (nrx_ s) xzB; slice (nrx_ s) (nrz_ s) xzB; m_rp m;
                      slice 0 (nrx_ s) vB; slice (nrx_ s) (nrz_ s) vB]) ;;
     let JvB := store (nrx_ s) (nth 1 outs []) (store 0 (nth 0 outs []) JvB) in
     let JvB := casadi_axpy (nrx_ s) cjB vB JvB in
     ret (0%Z, JvB)).

Definition rhsQ (t : double) (xz xzdot rhsQ : N_Vector) : callback N_Vector :=
  try_catch_exception "rhsQ" 1 rhsQ
    (m <- to_mem ;;
     let s := m_self m in
     outs <- lift (calc_function "quadF"
                     [slice 0 (nx_ s) xz; slice (nx_ s) (nz_ s) xz; m_p m; [t]]) ;;
     let rhsQ := store 0 (nth 0 outs []) rhsQ in
     ret (0%Z, rhsQ)).

Definition resB (t : double) (xz xzdot rxz rxzdot rr : N_Vector)
  : callback N_Vector :=
  try_catch_exception "resB" 1 rr
    (m <- to_mem ;;
     let s := m_self m in
     outs <- lift (calc_function "daeB"
                     [slice 0 (nrx_ s) rxz; slice (nrx_ s) (nrz_ s) rxz; m_rp m;
                      slice 0 (nx_ s) xz; slice (nx_ s) (nz_ s) xz; m_p m; [t]]) ;;
     let rr := store (nrx_ s) (nth 1 outs []) (store 0 (nth 0 outs []) rr) in
     let rr := casadi_axpy (nrx_ s) 1%float rxzdot rr in
     ret (0%Z, rr)).

Definition rhsQB (t : double) (xz xzdot rxz rxzdot rqdot : N_Vector)
  : callback N_Vector :=
  try_catch_exception "rhsQB" 1 rqdot
    (m <- to_mem ;;
     let s := m_self m in
     outs <- lift (calc_function "quadB"
                     [slice 0 (nrx_ s) rxz; slice (nrx_ s) (nrz_ s) rxz; m_rp m;
                      slice 0 (nx_ s) xz; slice (nx_ s) (nz_ s) xz; m_p m; [t]]) ;;
     let rqdot := store 0 (nth 0 outs []) rqdot in
     (* Negate (note definition of g) *)
     let rqdot := casadi_scal (nrq_ s) (-1)%float rqdot in
     ret (0%Z, rqdot)).

(** [psolve]; [zvec = None] says that [zvec] is the vector [rvec] itself.
    A [zvec] of its own holds the copy of [rvec] by the time the solve
    can throw. *)
Definition psolve (t : double) (xz xzdot rr rvec : N_Vector)
    (zvec : option N_Vector) (cj delta : double) : callback N_Vector :=
  try_catch_exception "psolve" 1
    (match zvec with None => rvec | Some _ => N_VScale 1%float rvec end)
    (m <- to_mem ;;
     (* Copy input to output, if necessary *)
     let zvec := match zvec with None => rvec | Some _ => N_VScale 1%float rvec end in
     (* Solve the (possibly factorized) system *)
     zvec <- lift (linsol_solve (m_linsolF m) zvec) ;;
     ret (0%Z, zvec)).

Definition psolveB (t : double) (xz xzdot xzB xzdotB resvalB rvecB : N_Vector)
    (zvecB : option N_Vector) (cjB deltaB : double) : callback N_Vector :=
  try_catch_exception "psolveB" 1
    (match zvecB with None => rvecB | Some _ => N_VScale 1%float rvecB end)
    (m <- to_mem ;;
     let zvecB :=
       match zvecB with None => rvecB | Some _ => N_VScale 1%float rvecB end in
     zvecB <- lift (linsol_solve (m_linsolB m) zvecB) ;;
     ret (0%Z, zvecB)).

Definition psetup (t : double) (xz xzdot rr : N_Vector) (cj : double)
  : callback unit :=
  try_catch_exception "psetup" 1 tt
    (m <- to_mem ;;
     let s := m_self m in
     outs <- lift (calc_function "jacF"
                     [[t]; slice 0 (nx_ s) xz; slice (nx_ s) (nz_ s) xz; m_p m; [cj]]) ;;
     modify (set_jac (nth 0 outs [])) ;;
     (* Prepare the solution of the linear system (e.g. factorize) *)
     m <- to_mem ;;
     l <- lift (linsol_factorize (m_linsolF m) (m_jac m)) ;;
     modify (set_linsolF l) ;;
     ret (0%Z, tt)).

Definition psetupB (t : double) (xz xzdot rxz rxzdot rresval : N_Vector)
    (cj : double) : callback unit :=
  try_catch_exception "psetupB" 1 tt
    (m <- to_mem ;;
     let s := m_self m in
     outs <- lift (calc_function "jacB"
                     [[t]; slice 0 (nrx_ s) rxz; slice (nrx_ s) (nrz_ s) rxz; m_rp m;
                      slice 0 (nx_ s) xz; slice (nx_ s) (nz_ s) xz; m_p m; [cj]]) ;;
     modify (set_jacB (nth 0 outs [])) ;;
     m <- to_mem ;;
     l <- lift (linsol_factorize (m_linsolB m) (m_jacB m)) ;;
     modify (set_linsolB l) ;;
     ret (0%Z, tt)).

(** [lsetup] has no [try] block of its own. *)
Definition lsetup (IDA_mem : IDAMemRec) (xz xzdot resp : N_Vector)
  : callback unit :=
  fun m =>
    (* Current time *)
    let t := ida_tn IDA_mem in
    (* Multiple of df_dydot to be added to the matrix *)
    let cj := ida_cj IDA_mem in
    match psetup t xz xzdot [] cj m with
    | (m', (Ok flag, _)) => (m', (Ok (if (flag =? 0)%Z then 0 else 1)%Z, tt))
    | (m', (Throw e, _)) => (m', (Throw e, tt))
    end.

(** Get FORWARD solution from interpolation. *)
Definition interpolate_forward (adj : IDAadjMemRec) (t : double)
  : M Mem (N_Vector * N_Vector) :=
  if negb (ia_noInterp adj) then
    let '(flag, yy, yp) := ia_getY adj t in
    if negb (flag =? IDA_SUCCESS)%Z
    then lift (casadi_error "Could not interpolate forward states")
    else ret (yy, yp)
  else ret (ia_yyTmp adj, ia_ypTmp adj).

Definition lsetupB (IDA_mem : IDAMemRec) (xzB xzdotB respB : N_Vector)
  : callback unit :=
  try_catch_exception "lsetupB" (-1) tt
    (let t := ida_tn IDA_mem in
     let cj := ida_cj IDA_mem in
     let IDAADJ_mem := ida_adj_mem IDA_mem in
     yy <- interpolate_forward IDAADJ_mem t ;;
     r <- call (psetupB t (fst yy) (snd yy) xzB xzdotB [] cj) ;;
     if negb (fst r =? 0)%Z then ret (1%Z, tt) else ret (0%Z, tt)).

Definition lsolve (IDA_mem : IDAMemRec) (b weight xz xzdot rr : N_Vector)
  : callback N_Vector :=
  try_catch_int_exception "lsolve" b
    (m <- to_mem ;;
     let s := m_self m in
     (* Current time *)
     let t := ida_tn IDA_mem in
     (* Multiple of df_dydot to be added to the matrix *)
     let cj := ida_cj IDA_mem in
     (* Accuracy *)
     let delta := 0%float in
     (* Call the preconditioner solve function *)
     r <- call (psolve t xz xzdot rr b None cj delta) ;;
     let b := snd r in
     if negb (fst r =? 0)%Z then ret (1%Z, b) else
     (* Scale the correction to account for change in cj *)
     let b :=
       if cj_scaling_ s then
         let cjratio := ida_cjratio IDA_mem in
         if dne cjratio 1%float then N_VScale (2 / (1 + cjratio))%float b else b
       else b in
     ret (0%Z, b)).

Definition lsolveB (IDA_mem : IDAMemRec) (b weight xzB xzdotB rrB : N_Vector)
  : callback N_Vector :=
  try_catch_int_exception "lsolveB" b
    (m <- to_mem ;;
     let s := m_self m in
     let t := ida_tn IDA_mem in
     let cj := ida_cj IDA_mem in
     let cjratio := ida_cjratio IDA_mem in
     let IDAADJ_mem := ida_adj_mem IDA_mem in
     yy <- interpolate_forward IDAADJ_mem t ;;
     (* Accuracy *)
     let delta := 0%float in
     r <- call (psolveB t (fst yy) (snd yy) xzB xzdotB rrB b None cj delta) ;;
     let b := snd r in
     if negb (fst r =? 0)%Z then ret (1%Z, b) else
     (* Scale the correction to account for change in cj *)
     let b :=
       if cj_scaling_ s then
         if dne cjratio 1%float then N_VScale (2 / (1 + cjratio))%float b else b
       else b in
     ret (0%Z, b)).

End Callbacks.

(* ================================================================= *)
(** ** Engine calls and their errors *)

Section Session.
Context {E L : Type} {X : Collaborators E L}.

Abbreviation Mem := (IdasMemory E L).

(** [idas_error]: nothing on a flag that is not negative, a fatal error
    otherwise. *)
Definition idas_error (module : string) (flag : Z) : outcome unit :=
  (* Successfull return or warning *)
  if (flag >=? IDA_SUCCESS)%Z then Ok tt else
  (* Construct error message *)
  let flagname := IDAGetReturnFlagName flag in
  casadi_error (module ++ " returned " ++ dquote ++ flagname ++ dquote ++ "."
                ++ " Consult IDAS documentation.")%string.

(** One call into the engine: the handle is updated and the call noted. *)
Definition engine (c : IdaCall) : M Mem IdaReply :=
  fun m =>
    let (e', r) := ida (m_mem m) c in
    (set_calls (c :: m_calls m) (set_mem e' m), Ok r).

(** The macro [THROWING(fcn, ...)], used on source line [line]: call
    [fcn], let it write through its pointer arguments ([out]), then hand
    its name, the source location and its flag to [idas_error]. *)
Definition THROWING (line : nat) (c : IdaCall) (out : IdaReply -> Mem -> Mem)
  : M Mem unit :=
  r <- engine c ;;
  modify (out r) ;;
  lift (idas_error (fcn_name c ++ CASADI_ASSERT_WHERE line)%string (r_flag r)).

(** A call without pointer arguments to write through. *)
Definition no_out (r : IdaReply) (m : Mem) : Mem := m.

(* ================================================================= *)
(** ** [init_memory] *)

(** The memory block as the constructor [IdasMemory::IdasMemory] leaves
    it; the members it does not set get a value before they are read. *)
Definition IdasMemory_new (s : IdasInterface) (lF lB : L) : Mem :=
  mkMem s [] [] 0%float [] [] [] [] [] [] [] [] lF lB None 0 0 false
        no_stats no_stats [] [].

(** Modelled from the spec: the base-class part of [init_memory]
    ([SundialsInterface::init_memory]) is not in this file; it allocates
    the state vectors [xz], [q], [rxz] and [rq]. *)
Definition SundialsInterface_init_memory : M Mem unit :=
  m <- to_mem ;;
  let s := m_self m in
  modify (set_xz (N_VNew_Serial (nx_ s + nz_ s))) ;;
  modify (set_q (N_VNew_Serial (nq_ s))) ;;
  modify (set_rxz (N_VNew_Serial (nrx_ s + nrz_ s))) ;;
  modify (set_rq (N_VNew_Serial (nrq_ s))).

Definition is_some {A} (o : option A) : bool :=
  match o with Some _ => true | None => false end.

Definition init_memory : M Mem unit :=
  SundialsInterface_init_memory ;;
  m <- to_mem ;;
  let s := m_self m in
  (* Create IDAS memory block *)
  _ <- engine IDACreate ;;
  m <- to_mem ;;
  lift (casadi_assert_message (is_some (m_mem m)) "IDACreate: Creation failed") ;;
  (* Set error handler function *)
  THROWING 281 IDASetErrHandlerFn no_out ;;
  (* Set user data *)
  THROWING 284 IDASetUserData no_out ;;
  (* Allocate n-vectors for ivp *)
  modify (set_xzdot (N_VNew_Serial (nx_ s + nz_ s))) ;;
  (* Initialize Idas *)
  let t0 := 0%float in
  modify (fun m => set_xz (N_VConst 0%float (m_xz m)) m) ;;
  modify (fun m => set_xzdot (N_VConst 0%float (m_xzdot m)) m) ;;
  m <- to_mem ;;
  _ <- engine (IDAInit t0 (m_xz m) (m_xzdot m)) ;;
  (* Include algebraic variables in error testing *)
  THROWING 297 (IDASetSuppressAlg (suppress_algebraic_ s)) no_out ;;
  (* Maxinum order for the multistep method *)
  THROWING 300 (IDASetMaxOrd (max_multistep_order_ s)) no_out ;;
  (* Set maximum step size *)
  THROWING 303 (IDASetMaxStep (max_step_size_ s)) no_out ;;
  (if negb (is_empty (abstolv_ s)) then
     (* Vector absolute tolerances *)
     let nv_abstol := N_VNew_Serial (List.length (abstolv_ s)) in
     let nv_abstol := store 0 (abstolv_ s) nv_abstol in
     THROWING 309 (IDASVtolerances (reltol_ s) nv_abstol) no_out
   else
     (* Scalar absolute tolerances *)
     THROWING 313 (IDASStolerances (reltol_ s) (abstol_ s)) no_out) ;;
  (* Maximum number of steps *)
  THROWING 317 (IDASetMaxNumSteps (max_num_steps_ s)) no_out ;;
  (* Set algebraic components *)
  let id := N_VNew_Serial (nx_ s + nz_ s) in
  let id := store 0 (repeat 1%float (nx_ s)) id in
  let id := store (nx_ s) (repeat 0%float (nz_ s)) id in
  (* Pass this information to IDAS *)
  THROWING 325 (IDASetId id) no_out ;;
  (* attach a linear solver *)
  (if iterative_ s then
     match itsol_ s with
     | SD_GMRES => THROWING 333 (IDASpgmr (max_krylov_ s)) no_out
     | SD_BCGSTAB => THROWING 334 (IDASpbcg (max_krylov_ s)) no_out
     | SD_TFQMR => THROWING 335 (IDASptfqmr (max_krylov_ s)) no_out
     end ;;
     THROWING 337 IDASpilsSetJacTimesVecFn no_out ;;
     when (use_precon_ s) (THROWING 338 IDASpilsSetPreconditioner no_out)
   else
     _ <- engine IDAMem_set_linear_solver ;; ret tt) ;;
  (* Quadrature equations *)
  when (0 <? nq_ s)%nat
    (m <- to_mem ;;
     (* Initialize quadratures in IDAS *)
     THROWING 351 (IDAQuadInit (m_q m)) no_out ;;
     (* Should the quadrature errors be used for step size control? *)
     when (quad_err_con_ s)
       (THROWING 355 (IDASetQuadErrCon true) no_out ;;
        (* Quadrature error tolerances *)
        THROWING 359 (IDAQuadSStolerances (reltol_ s) (abstol_ s)) no_out)) ;;
  (* Adjoint sensitivity problem *)
  when (0 <? nrx_ s)%nat
    (modify (set_rxzdot (N_VNew_Serial (nrx_ s + nrz_ s))) ;;
     modify (fun m => set_rxz (N_VConst 0%float (m_rxz m)) m) ;;
     modify (fun m => set_rxzdot (N_VConst 0%float (m_rxzdot m)) m)) ;;
  (* Initialize adjoint sensitivities *)
  when (0 <? nrx_ s)%nat
    (let interpType :=
       match interp_ s with SD_HERMITE => IDA_HERMITE | _ => IDA_POLYNOMIAL end in
     THROWING 376 (IDAAdjInit (steps_per_checkpoint_ s) interpType) no_out) ;;
  modify (set_first_callB true).

(* ================================================================= *)
(** ** [advance] and [retreat] *)

Definition earlier_than_t0_message (t t0 : double) : string :=
  ("IdasInterface::integrate(" ++ show_double t ++ "): "
   ++ "Cannot integrate to a time earlier than t0 (" ++ show_double t0 ++ ")")%string.

Definition later_than_tf_message (t tf : double) : string :=
  ("IdasInterface::integrate(" ++ show_double t ++ "): "
   ++ "Cannot integrate past a time later than tf (" ++ show_double tf ++ ") "
   ++ "unless stop_at_end is set to False.")%string.

(** What [IDASolve] and [IDASolveF] write: the time reached, the state
    and its derivative (and the number of checkpoints). *)
Definition out_solve (r : IdaReply) (m : Mem) : Mem :=
  set_xzdot (r_yp r) (set_xz (r_yy r) (set_t (r_tret r) m)).

Definition out_solveF (r : IdaReply) (m : Mem) : Mem :=
  set_ncheck (r_ncheck r) (out_solve r m).

(** [advance]: the result is what is copied to [x], [z] and [q]. *)
Definition advance (t : double) : M Mem (N_Vector * N_Vector * N_Vector) :=
  m <- to_mem ;;
  let s := m_self m in
  lift (casadi_assert_message (dge t (grid_front s))
          (earlier_than_t0_message t (grid_front s))) ;;
  lift (casadi_assert_message ((t <=? grid_back s)%float || negb (stop_at_end_ s))
          (later_than_tf_message t (grid_back s))) ;;
  (* Integrate, unless already at desired time *)
  when (dge (fabs (m_t m - t)%float) ttol)
    ((* Integrate forward ... *)
     (if (0 <? nrx_ s)%nat then (* ... with taping *)
        THROWING 428 (IDASolveF t (m_t m) (m_xz m) (m_xzdot m) IDA_NORMAL (m_ncheck m))
                 out_solveF
      else (* ... without taping *)
        THROWING 430 (IDASolve t (m_t m) (m_xz m) (m_xzdot m) IDA_NORMAL) out_solve) ;;
     (* Get quadratures *)
     when (0 <? nq_ s)%nat
       (m <- to_mem ;;
        THROWING 436 (IDAGetQuad (m_q m)) (fun r => set_q (r_q r)))) ;;
  (* Set function outputs *)
  m <- to_mem ;;
  let x := casadi_copy (m_xz m) (nx_ s) in
  let z := casadi_copy (skipn (nx_ s) (m_xz m)) (nz_ s) in
  let q := casadi_copy (m_q m) (nq_ s) in
  (* Get stats *)
  THROWING 446 (IDAGetIntegratorStats false) (fun r => set_statsF (r_stats r)) ;;
  ret (x, z, q).

(** What [IDAGetB] and [IDAGetQuadB] write. *)
Definition out_getB (r : IdaReply) (m : Mem) : Mem :=
  set_rxzdot (r_yp r) (set_rxz (r_yy r) (set_t (r_tret r) m)).

Definition out_getQuadB (r : IdaReply) (m : Mem) : Mem :=
  set_rq (r_q r) (set_t (r_tret r) m).

(** [retreat]: the result is what is copied to [rx], [rz] and [rq]. *)
Definition retreat (t : double) : M Mem (N_Vector * N_Vector * N_Vector) :=
  m <- to_mem ;;
  let s := m_self m in
  (* Integrate, unless already at desired time *)
  when (t <? m_t m)%float
    (THROWING 530 (IDASolveB t IDA_NORMAL) no_out ;;
     m <- to_mem ;;
     THROWING 531 (IDAGetB (m_whichB m) (m_t m) (m_rxz m) (m_rxzdot m)) out_getB ;;
     when (0 <? nrq_ s)%nat
       (m <- to_mem ;;
        THROWING 533 (IDAGetQuadB (m_whichB m) (m_t m) (m_rq m)) out_getQuadB)) ;;
  (* Save outputs *)
  m <- to_mem ;;
  let rx := casadi_copy (m_rxz m) (nrx_ s) in
  let rz := casadi_copy (skipn (nrx_ s) (m_rxz m)) (nrz_ s) in
  let rq := casadi_copy (m_rq m) (nrq_ s) in
  (* Get stats *)
  THROWING 546 (IDAGetIntegratorStats true) (fun r => set_statsB (r_stats r)) ;;
  ret (rx, rz, rq).

End Session.

(* ================================================================= *)
(** ** Observing the engine calls *)

(** The forward step of the engine. *)
Definition is_solver_step (c : IdaCall) : bool :=
  match c with
  | IDASolve _ _ _ _ _ | IDASolveF _ _ _ _ _ _ => true
  | _ => false
  end.

Definition is_quad_retrieval (c : IdaCall) : bool :=
  match c with IDAGetQuad _ => true | _ => false end.

Definition count_calls (p : IdaCall -> bool) (cs : list IdaCall) : nat :=
  List.length (filter p cs).

(** The session time equals [t] within the absolute tolerance [ttol]. *)
Definition at_time {E L} (m : IdasMemory E L) (t : double) : Prop :=
  (fabs (m_t m - t) <? ttol)%float = true.

(* ================================================================= *)
(** ** Sample collaborators

    Small stand-ins for the outside world, to run the model on. *)

(** An evaluator that gives the same outputs, or throws the same
    exception, whatever it is asked. *)
Definition calc_gives (outs : list N_Vector) : string -> list N_Vector -> outcome (list N_Vector) :=
  fun _ _ => Ok outs.
Definition calc_throws (e : exn) : string -> list N_Vector -> outcome (list N_Vector) :=
  fun _ _ => Throw e.

(** An engine that accepts every call with flag [flag], reports [tr] as
    the time reached and leaves the vectors it is handed as they are. *)
Definition const_ida (flag : Z) (tr : double) (e : option unit) (c : IdaCall)
  : option unit * IdaReply :=
  let reply yy yp q n := (Some tt, mkReply flag tr yy yp q n no_stats) in
  match c with
  | IDASolveF _ _ yret ypret _ ncheck => reply yret ypret [] (ncheck + 1)%Z
  | IDASolve _ _ yret ypret _ => reply yret ypret [] 0%Z
  | IDAGetQuad yQ => reply [] [] yQ 0%Z
  | IDAGetB _ _ yy yp => reply yy yp [] 0%Z
  | IDAGetQuadB _ _ qB => reply [] [] qB 0%Z
  | _ => reply [] [] [] 0%Z
  end.

(** An engine that goes where it is told: a forward or backward step ends
    at the requested time, and the backward getters report the time the
    engine is at. *)
Definition obedient_ida (e : option double) (c : IdaCall) : option double * IdaReply :=
  let now := match e with Some t => t | None => 0%float end in
  match c with
  | IDACreate => (Some 0%float, mkReply 0 0%float [] [] [] 0 no_stats)
  | IDASolveF tout _ yret ypret _ ncheck =>
      (Some tout, mkReply 0 tout yret ypret [] (ncheck + 1) no_stats)
  | IDASolve tout _ yret ypret _ => (Some tout, mkReply 0 tout yret ypret [] 0 no_stats)
  | IDAGetQuad yQ => (e, mkReply 0 now [] [] yQ 0 no_stats)
  | IDASolveB tBout _ => (Some tBout, mkReply 0 tBout [] [] [] 0 no_stats)
  | IDAGetB _ _ yy yp => (e, mkReply 0 now yy yp [] 0 no_stats)
  | IDAGetQuadB _ _ qB => (e, mkReply 0 now [] [] qB 0 no_stats)
  | _ => (e, mkReply 0 now [] [] [] 0 no_stats)
  end.

(** A few names of the engine's flag table. *)
Definition sample_flag_name (flag : Z) : string :=
  match flag with
  | 0%Z => "IDA_SUCCESS"
  | (-1)%Z => "IDA_TOO_MUCH_WORK"
  | (-2)%Z => "IDA_TOO_MUCH_ACC"
  | (-3)%Z => "IDA_ERR_FAIL"
  | (-4)%Z => "IDA_CONV_FAIL"
  | _ => "NONE"
  end.

Definition sample_where (line : nat) : string :=
  (" on line " ++ show_nat line ++ " of file idas_interface.cpp")%string.

(** A world with the identity as linear solver. *)
Definition world {E} (calc : string -> list N_Vector -> outcome (list N_Vector))
    (engine_ : option E -> IdaCall -> option E * IdaReply) : Collaborators E unit :=
  {| calc_function := calc;
     linsol_factorize := fun l _ => Ok l;
     linsol_solve := fun _ v => Ok v;
     ida := engine_;
     IDAGetReturnFlagName := sample_flag_name;
     CASADI_ASSERT_WHERE := sample_where;
     show_double := fun _ => "?" |}.

(** A linear solver that always throws [e]. *)
Definition world_linsol_throws {E} (e : exn)
    (engine_ : option E -> IdaCall -> option E * IdaReply) : Collaborators E unit :=
  {| calc_function := calc_gives [];
     linsol_factorize := fun _ _ => Throw e;
     linsol_solve := fun _ _ => Throw e;
     ida := engine_;
     IDAGetReturnFlagName := sample_flag_name;
     CASADI_ASSERT_WHERE := sample_where;
     show_double := fun _ => "?" |}.

(** A base object with [nx] differential and [nz] algebraic states, [nq]
    quadratures, [nrx], [nrz], [nrq] backward ones, [ns] sensitivity
    directions, on the grid [0, 1]. *)
Definition sample_base (nx nz nq nrx nrz nrq ns : nat) (stop : bool)
  : SundialsInterface :=
  mkSundials nx nz nq nrx nrz nrq ns [0%float; 1%float] stop false false false
    SD_GMRES SD_HERMITE 0x1p-20%float 0x1p-27%float 10000 10 5 20
    [[true]] [[true]].

(** The object [setup] leaves for [sample_base] and the options [opts]. *)
Definition sample_object (b : SundialsInterface) (opts : Dict) : IdasInterface :=
  fst (setup b opts).

(** A memory block for that object, at time [t]. *)
Definition sample_memory {E} (s : IdasInterface) (t : double) : IdasMemory E unit :=
  set_t t (IdasMemory_new s tt tt).

(* ================================================================= *)
(** ** The reset operations *)

(** The entry points of IDAS that [reset], [setStopTime] and [resetB]
    use, with the arguments of the C call.  [IDAQuadReInit_memB which]
    stands for the pair [IDAGetAdjIDABmem(mem, which)] and
    [IDAQuadReInit(memB, rq)] of the workaround in [resetB], and
    [IDABMem_set_linear_solver] for the direct path's assignments in the
    structure of the backward problem. *)
Inductive IdaResetCall : Type :=
| IDAReInit (t0 : double) (yy0 yp0 : N_Vector)
| IDAQuadReInit (yQ0 : N_Vector)
| IDACalcIC (icopt : Z) (tout1 : double)
| IDAGetConsistentIC (yy0_mod yp0_mod : N_Vector)
| IDAAdjReInit
| IDASetStopTime (tstop : double)
| IDACreateB (which : Z)
| IDAInitB (which : Z) (tB0 : double) (yyB0 ypB0 : N_Vector)
| IDASStolerancesB (which : Z) (reltol abstol : double)
| IDASetUserDataB (which : Z)
| IDASetMaxNumStepsB (which : Z) (mxsteps : Z)
| IDASetIdB (which : Z) (id : N_Vector)
| IDASpgmrB (which : Z) (maxl : Z)
| IDASpbcgB (which : Z) (maxl : Z)
| IDASptfqmrB (which : Z) (maxl : Z)
| IDASpilsSetJacTimesVecFnB (which : Z)
| IDASpilsSetPreconditionerB (which : Z)
| IDABMem_set_linear_solver
| IDAQuadInitB (which : Z) (yQB0 : N_Vector)
| IDASetQuadErrConB (which : Z) (errconQB : bool)
| IDAQuadSStolerancesB (which : Z) (reltol abstol : double)
| IDAReInitB (which : Z) (tB0 : double) (yyB0 ypB0 : N_Vector)
| IDAQuadReInit_memB (which : Z) (yQ0 : N_Vector)
| IDACalcICB (which : Z) (tout1 : double) (yy0 yp0 : N_Vector)
| IDAGetConsistentICB (which : Z) (yyB0_mod ypB0_mod : N_Vector).

Definition reset_fcn_name (c : IdaResetCall) : string :=
  match c with
  | IDAReInit _ _ _ => "IDAReInit"
  | IDAQuadReInit _ => "IDAQuadReInit"
  | IDACalcIC _ _ => "IDACalcIC"
  | IDAGetConsistentIC _ _ => "IDAGetConsistentIC"
  | IDAAdjReInit => "IDAAdjReInit"
  | IDASetStopTime _ => "IDASetStopTime"
  | IDACreateB _ => "IDACreateB"
  | IDAInitB _ _ _ _ => "IDAInitB"
  | IDASStolerancesB _ _ _ => "IDASStolerancesB"
  | IDASetUserDataB _ => "IDASetUserDataB"
  | IDASetMaxNumStepsB _ _ => "IDASetMaxNumStepsB"
  | IDASetIdB _ _ => "IDASetIdB"
  | IDASpgmrB _ _ => "IDASpgmrB"
  | IDASpbcgB _ _ => "IDASpbcgB"
  | IDASptfqmrB _ _ => "IDASptfqmrB"
  | IDASpilsSetJacTimesVecFnB _ => "IDASpilsSetJacTimesVecFnB"
  | IDASpilsSetPreconditionerB _ => "IDASpilsSetPreconditionerB"
  | IDABMem_set_linear_solver => "IDABMem"
  | IDAQuadInitB _ _ => "IDAQuadInitB"
  | IDASetQuadErrConB _ _ => "IDASetQuadErrConB"
  | IDAQuadSStolerancesB _ _ _ => "IDAQuadSStolerancesB"
  | IDAReInitB _ _ _ _ => "IDAReInitB"
  | IDAQuadReInit_memB _ _ => "IDAQuadReInit"
  | IDACalcICB _ _ _ _ => "IDACalcICB"
  | IDAGetConsistentICB _ _ _ => "IDAGetConsistentICB"
  end.

(** What such a call hands back: the flag, the identifier of a created
    backward problem, and the two vectors of a consistent initial
    condition. *)
Record IdaResetReply : Type := mkResetReply {
  rr_flag : Z;
  rr_which : Z;
  rr_yy : N_Vector;
  rr_yp : N_Vector
}.

(** The engine behind these entry points. *)
Class ResetEngine (E : Type) : Type := {
  ida_reset : option E -> IdaResetCall -> option E * IdaResetReply
}.

Definition IDA_YA_YDP_INIT : Z := 1.

(** The members [p] and [rp] of the memory block, set by the resets. *)
Definition set_p {E L} (v : N_Vector) (m : IdasMemory E L) : IdasMemory E L :=
  mkMem (m_self m) v (m_rp m) (m_t m) (m_xz m) (m_xzdot m) (m_q m) (m_rxz m)
    (m_rxzdot m) (m_rq m) (m_jac m) (m_jacB m) (m_linsolF m) (m_linsolB m)
    (m_mem m) (m_ncheck m) (m_whichB m) (m_first_callB m) (m_statsF m)
    (m_statsB m) (m_userOut m) (m_calls m).

Definition set_rp {E L} (v : N_Vector) (m : IdasMemory E L) : IdasMemory E L :=
  mkMem (m_self m) (m_p m) v (m_t m) (m_xz m) (m_xzdot m) (m_q m) (m_rxz m)
    (m_rxzdot m) (m_rq m) (m_jac m) (m_jacB m) (m_linsolF m) (m_linsolB m)
    (m_mem m) (m_ncheck m) (m_whichB m) (m_first_callB m) (m_statsF m)
    (m_statsB m) (m_userOut m) (m_calls m).

Section Reset.
Context {E L : Type} {X : Collaborators E L} {R : ResetEngine E}.

Abbreviation Mem := (IdasMemory E L).

(** The memory block together with the calls the reset operations have
    made, latest first (ghost state, like [m_calls]). *)
Record ResetMemory : Type := mkResetMemory {
  block : Mem;
  reset_calls : list IdaResetCall
}.

(** An update of the memory block. *)
Definition on_block (f : Mem -> Mem) : M ResetMemory unit :=
  modify (fun rm => mkResetMemory (f (block rm)) (reset_calls rm)).

(** [auto m = to_mem(mem)]. *)
Definition the_block : M ResetMemory Mem := fun rm => (rm, Ok (block rm)).

(** An operation on the memory block alone, run on the pair. *)
Definition with_block {A} (c : M Mem A) : M ResetMemory A :=
  fun rm => let (m', o) := c (block rm) in (mkResetMemory m' (reset_calls rm), o).

(** One call of the reset engine: the handle is updated, the call
    noted. *)
Definition engine_reset (c : IdaResetCall) : M ResetMemory IdaResetReply :=
  fun rm =>
    let (e', r) := ida_reset (m_mem (block rm)) c in
    (mkResetMemory (set_mem e' (block rm)) (c :: reset_calls rm), Ok r).

(** The macro [THROWING] on these entry points. *)
Definition THROWING_reset (line : nat) (c : IdaResetCall)
    (out : IdaResetReply -> Mem -> Mem) : M ResetMemory unit :=
  r <- engine_reset c ;;
  on_block (out r) ;;
  lift (idas_error (reset_fcn_name c ++ CASADI_ASSERT_WHERE line)%string (rr_flag r)).

Definition no_reset_out (r : IdaResetReply) (m : Mem) : Mem := m.

(** Modelled from the spec: the base-class part of [reset]
    ([SundialsInterface::reset]) is not in this file; it reloads the
    initial conditions: the time, the parameters, the differential and
    algebraic state, and zero quadratures. *)
Definition SundialsInterface_reset (t : double) (_x _z _p : list double) (m : Mem)
  : Mem :=
  let s := m_self m in
  let xz := store 0 (casadi_copy _x (nx_ s)) (m_xz m) in
  let xz := store (nx_ s) (casadi_copy _z (nz_ s)) xz in
  set_q (N_VConst 0%float (m_q m)) (set_xz xz (set_p _p (set_t t m))).

(** Modelled from the spec: the base-class part of [resetB]
    ([SundialsInterface::resetB]), the same for the backward state. *)
Definition SundialsInterface_resetB (t : double) (rx rz rp : list double) (m : Mem)
  : Mem :=
  let s := m_self m in
  let rxz := store 0 (casadi_copy rx (nrx_ s)) (m_rxz m) in
  let rxz := store (nrx_ s) (casadi_copy rz (nrz_ s)) rxz in
  set_rq (N_VConst 0%float (m_rq m)) (set_rxz rxz (set_rp rp (set_t t m))).

(** [setStopTime]: don't integrate past this point. *)
Definition setStopTime (tf : double) : M ResetMemory unit :=
  THROWING_reset 637 (IDASetStopTime tf) no_reset_out.

(** What [IDAGetConsistentIC] and [IDAGetConsistentICB] write. *)
Definition out_consistent (r : IdaResetReply) (m : Mem) : Mem :=
  set_xzdot (rr_yp r) (set_xz (rr_yy r) m).

Definition out_consistentB (r : IdaResetReply) (m : Mem) : Mem :=
  set_rxzdot (rr_yp r) (set_rxz (rr_yy r) m).

Definition reset (t : double) (_x _z _p : list double) : M ResetMemory unit :=
  (* Reset the base classes *)
  on_block (SundialsInterface_reset t _x _z _p) ;;
  m <- the_block ;;
  let s := m_self m in
  (* Re-initialize *)
  on_block (fun m => set_xzdot (store 0 (init_xdot_ s) (m_xzdot m)) m) ;;
  m <- the_block ;;
  THROWING_reset 392 (IDAReInit (grid_front s) (m_xz m) (m_xzdot m)) no_reset_out ;;
  (* Re-initialize quadratures *)
  when (0 <? nq_ s)%nat
    (m <- the_block ;; THROWING_reset 395 (IDAQuadReInit (m_q m)) no_reset_out) ;;
  (* Correct initial conditions, if necessary *)
  when (calc_ic_ s)
    (THROWING_reset 399 (IDACalcIC IDA_YA_YDP_INIT (first_time_ s)) no_reset_out ;;
     m <- the_block ;;
     THROWING_reset 400 (IDAGetConsistentIC (m_xz m) (m_xzdot m)) out_consistent) ;;
  (* Re-initialize backward integration *)
  when (0 <? nrx_ s)%nat (THROWING_reset 404 IDAAdjReInit no_reset_out) ;;
  (* Set the stop time of the integration -- don't integrate past this point *)
  when (stop_at_end_ s) (setStopTime (grid_back s)).

Definition resetB (t : double) (rx rz rp : list double) : M ResetMemory unit :=
  (* Reset the base classes *)
  on_block (SundialsInterface_resetB t rx rz rp) ;;
  m <- the_block ;;
  let s := m_self m in
  (if m_first_callB m then
     (* Create backward problem *)
     THROWING_reset 461 (IDACreateB (m_whichB m)) (fun r => set_whichB (rr_which r)) ;;
     m <- the_block ;;
     let which := m_whichB m in
     THROWING_reset 462 (IDAInitB which (grid_back s) (m_rxz m) (m_rxzdot m))
                    no_reset_out ;;
     THROWING_reset 463 (IDASStolerancesB which (reltol_ s) (abstol_ s)) no_reset_out ;;
     THROWING_reset 464 (IDASetUserDataB which) no_reset_out ;;
     THROWING_reset 465 (IDASetMaxNumStepsB which (max_num_steps_ s)) no_reset_out ;;
     (* Set algebraic components *)
     let id := N_VNew_Serial (nrx_ s + nrz_ s) in
     let id := store 0 (repeat 1%float (nrx_ s)) id in
     let id := store (nrx_ s) (repeat 0%float (nrz_ s)) id in
     THROWING_reset 471 (IDASetIdB which id) no_reset_out ;;
     (* attach linear solver *)
     (if iterative_ s then
        match itsol_ s with
        | SD_GMRES => THROWING_reset 477 (IDASpgmrB which (max_krylov_ s)) no_reset_out
        | SD_BCGSTAB => THROWING_reset 478 (IDASpbcgB which (max_krylov_ s)) no_reset_out
        | SD_TFQMR => THROWING_reset 479 (IDASptfqmrB which (max_krylov_ s)) no_reset_out
        end ;;
        THROWING_reset 481 (IDASpilsSetJacTimesVecFnB which) no_reset_out ;;
        when (use_precon_ s)
          (THROWING_reset 482 (IDASpilsSetPreconditionerB which) no_reset_out)
      else
        _ <- engine_reset IDABMem_set_linear_solver ;; ret tt) ;;
     (* Quadratures for the adjoint problem *)
     THROWING_reset 495 (IDAQuadInitB which (m_rq m)) no_reset_out ;;
     when (quad_err_con_ s)
       (THROWING_reset 497 (IDASetQuadErrConB which true) no_reset_out ;;
        THROWING_reset 498 (IDAQuadSStolerancesB which (reltol_ s) (abstol_ s))
                       no_reset_out) ;;
     (* Mark initialized *)
     on_block (set_first_callB false)
   else
     (* Re-initialize *)
     THROWING_reset 505 (IDAReInitB (m_whichB m) (grid_back s) (m_rxz m) (m_rxzdot m))
                    no_reset_out ;;
     when (0 <? nrq_ s)%nat
       (* Workaround (bug in SUNDIALS) *)
       (THROWING_reset 510 (IDAQuadReInit_memB (m_whichB m) (m_rq m)) no_reset_out)) ;;
  (* Correct initial values for the integration if necessary *)
  when (calc_icB_ s)
    (m <- the_block ;;
     THROWING_reset 516 (IDACalcICB (m_whichB m) (grid_front s) (m_xz m) (m_xzdot m))
                    no_reset_out ;;
     m <- the_block ;;
     THROWING_reset 517 (IDAGetConsistentICB (m_whichB m) (m_rxz m) (m_rxzdot m))
                    out_consistentB).

End Reset.
Arguments ResetMemory : clear implicits.

(* ================================================================= *)
(** ** Reading the outcome of [init] *)

(** The option keys the two loops of [init] look at. *)
Definition first_loop_keys : list string :=
  ["init_xdot"; "cj_scaling"; "calc_ic"; "suppress_algebraic"; "max_step_size";
   "abstolv"; "fsens_abstolv"].

Definition second_loop_keys : list string := ["calc_icB"; "first_time"].

Definition string_in (k : string) (ks : list string) : bool :=
  existsb (String.eqb k) ks.

(** The value of an option in [opts], or [dflt] when it is not set. *)
Definition bool_option (key : string) (dflt : bool) (opts : Dict) : bool :=
  match lookup key opts with Some (GT_bool b) => b | _ => dflt end.
Definition double_option (key : string) (dflt : double) (opts : Dict) : double :=
  match lookup key opts with Some (GT_double d) => d | _ => dflt end.
Definition vector_option (key : string) (opts : Dict) : list double :=
  match lookup key opts with Some (GT_double_vector v) => v | _ => [] end.

(* ================================================================= *)
(** ** The calls of a successful setup *)

(** The algebraic/differential partition vector: 1 for a differential
    component, 0 for an algebraic one. *)
Definition partition_vector (nd na : nat) : N_Vector :=
  repeat 1%float nd ++ repeat 0%float na.

(** The engine calls [init_memory] makes for the object [s] when none of
    them fails, latest first, by the parts of the function: the choice of
    the tolerances, the linear solver, the quadratures (for the
    quadrature vector [q]), the adjoint problem. *)
Definition tolerance_call (s : IdasInterface) : IdaCall :=
  if is_empty (abstolv_ s)
  then IDASStolerances (reltol_ s) (abstol_ s)
  else IDASVtolerances (reltol_ s) (abstolv_ s).

Definition linear_solver_calls (s : IdasInterface) : list IdaCall :=
  if iterative_ s
  then (if use_precon_ s then [IDASpilsSetPreconditioner] else [])
       ++ [IDASpilsSetJacTimesVecFn;
           match itsol_ s with
           | SD_GMRES => IDASpgmr (max_krylov_ s)
           | SD_BCGSTAB => IDASpbcg (max_krylov_ s)
           | SD_TFQMR => IDASptfqmr (max_krylov_ s)
           end]
  else [IDAMem_set_linear_solver].

Definition quadrature_calls (s : IdasInterface) (q : N_Vector) : list IdaCall :=
  if (0 <? nq_ s)%nat
  then (if quad_err_con_ s
        then [IDAQuadSStolerances (reltol_ s) (abstol_ s); IDASetQuadErrCon true]
        else [])
       ++ [IDAQuadInit q]
  else [].

Definition adjoint_calls (s : IdasInterface) : list IdaCall :=
  if (0 <? nrx_ s)%nat
  then [IDAAdjInit (steps_per_checkpoint_ s)
          (match interp_ s with SD_HERMITE => IDA_HERMITE | _ => IDA_POLYNOMIAL end)]
  else [].

Definition init_memory_calls (s : IdasInterface) : list IdaCall :=
  adjoint_calls s
  ++ quadrature_calls s (N_VNew_Serial (nq_ s))
  ++ linear_solver_calls s
  ++ [IDASetId (partition_vector (nx_ s) (nz_ s));
      IDASetMaxNumSteps (max_num_steps_ s);
      tolerance_call s;
      IDASetMaxStep (max_step_size_ s);
      IDASetMaxOrd (max_multistep_order_ s);
      IDASetSuppressAlg (suppress_algebraic_ s);
      IDAInit 0%float (repeat 0%float (nx_ s + nz_ s)) (repeat 0%float (nx_ s + nz_ s));
      IDASetUserData;
      IDASetErrHandlerFn;
      IDACreate].

(** [m'] is [m] after the engine calls [new] (latest first), which
    leave some handle and change nothing else. *)
Definition after_calls {E L} (new : list IdaCall) (m m' : IdasMemory E L) : Prop :=
  exists h, m' = set_calls (new ++ m_calls m) (set_mem h m).

(** A sample reset engine: it accepts every call, numbers the backward
    problem 7 and hands back the vectors [yy] and [yp] as the consistent
    initial condition. *)
Definition accepting_reset (yy yp : N_Vector) : ResetEngine unit :=
  {| ida_reset := fun _ _ => (Some tt, mkResetReply 0 7 yy yp) |}.

(** A sample reset engine that refuses the calls [refused] picks out,
    with flag [-1]. *)
Definition refusing_reset (refused : IdaResetCall -> bool) : ResetEngine unit :=
  {| ida_reset := fun _ c =>
       (Some tt, mkResetReply (if refused c then -1 else 0) 7 [] []) |}.

(* ================================================================= *)
(** ** Outcomes of runs *)

(** [c] runs to its end from every state. *)
Definition succeeds {S A} (c : M S A) : Prop :=
  forall s, exists s' a, c s = (s', Ok a).

(** [c] leaves the observation [f] of the state as it is, whatever its
    outcome; and when it throws. *)
Definition preserves {S A B} (f : S -> B) (c : M S A) : Prop :=
  forall s s' o, c s = (s', o) -> f s' = f s.

Definition preserves_on_failure {S A B} (f : S -> B) (c : M S A) : Prop :=
  forall s s' e, c s = (s', Throw e) -> f s' = f s.

(* ================================================================= *)
(** ** The calls of the resets *)

(** The engine calls [reset] makes for the object [s] when none of them
    fails, latest first; [xz], [xzdot] and [q] are the vectors of the
    memory block when [IDAReInit] is called. *)
Definition reset_engine_calls (s : IdasInterface) (xz xzdot q : N_Vector)
  : list IdaResetCall :=
  (if stop_at_end_ s then [IDASetStopTime (grid_back s)] else [])
  ++ (if (0 <? nrx_ s)%nat then [IDAAdjReInit] else [])
  ++ (if calc_ic_ s
      then [IDAGetConsistentIC xz xzdot; IDACalcIC IDA_YA_YDP_INIT (first_time_ s)]
      else [])
  ++ (if (0 <? nq_ s)%nat then [IDAQuadReInit q] else [])
  ++ [IDAReInit (grid_front s) xz xzdot].

(** The calls of [resetB] that attach the linear solver of the backward
    problem [which]. *)
Definition linear_solver_callsB (s : IdasInterface) (which : Z) : list IdaResetCall :=
  if iterative_ s
  then (if use_precon_ s then [IDASpilsSetPreconditionerB which] else [])
       ++ [IDASpilsSetJacTimesVecFnB which;
           match itsol_ s with
           | SD_GMRES => IDASpgmrB which (max_krylov_ s)
           | SD_BCGSTAB => IDASpbcgB which (max_krylov_ s)
           | SD_TFQMR => IDASptfqmrB which (max_krylov_ s)
           end]
  else [IDABMem_set_linear_solver].

(** The calls of [resetB] that correct the initial values. *)
Definition consistentB_calls (s : IdasInterface) (which : Z)
    (xz xzdot rxz rxzdot : N_Vector) : list IdaResetCall :=
  if calc_icB_ s
  then [IDAGetConsistentICB which rxz rxzdot;
        IDACalcICB which (grid_front s) xz xzdot]
  else [].

(** The calls of the first [resetB], which creates the backward problem:
    [which0] is the identifier in the memory block on entry, [which] the
    one [IDACreateB] hands back. *)
Definition resetB_create_calls (s : IdasInterface) (which0 which : Z)
    (rxz rxzdot rq : N_Vector) : list IdaResetCall :=
  (if quad_err_con_ s
   then [IDAQuadSStolerancesB which (reltol_ s) (abstol_ s);
         IDASetQuadErrConB which true]
   else [])
  ++ [IDAQuadInitB which rq]
  ++ linear_solver_callsB s which
  ++ [IDASetIdB which (partition_vector (nrx_ s) (nrz_ s));
      IDASetMaxNumStepsB which (max_num_steps_ s);
      IDASetUserDataB which;
      IDASStolerancesB which (reltol_ s) (abstol_ s);
      IDAInitB which (grid_back s) rxz rxzdot;
      IDACreateB which0].

(** The calls of a later [resetB], which re-initializes it. *)
Definition resetB_reinit_calls (s : IdasInterface) (which : Z)
    (rxz rxzdot rq : N_Vector) : list IdaResetCall :=
  (if (0 <? nrq_ s)%nat then [IDAQuadReInit_memB which rq] else [])
  ++ [IDAReInitB which (grid_back s) rxz rxzdot].

Definition is_IDACreateB (c : IdaResetCall) : bool :=
  match c with IDACreateB _ => true | _ => false end.

(* ================================================================= *)
(** ** What [init] leaves in the object *)

(** The members of the object a round of a loop can set. *)
Definition first_loop_reads (opts : Dict) (s s' : IdasInterface) : Prop :=
  base s' = base s
  /\ functions_ s' = functions_ s
  /\ calc_icB_ s' = calc_icB_ s
  /\ first_time_ s' = first_time_ s
  /\ cj_scaling_ s' = bool_option "cj_scaling" (cj_scaling_ s) opts
  /\ calc_ic_ s' = bool_option "calc_ic" (calc_ic_ s) opts
  /\ suppress_algebraic_ s' = bool_option "suppress_algebraic" (suppress_algebraic_ s) opts
  /\ max_step_size_ s' = double_option "max_step_size" (max_step_size_ s) opts
  /\ abstolv_ s' = match lookup "abstolv" opts with
                   | Some (GT_double_vector x) => x
                   | _ => abstolv_ s
                   end
  /\ fsens_abstolv_ s' = match lookup "fsens_abstolv" opts with
                         | Some (GT_double_vector x) => x
                         | _ => fsens_abstolv_ s
                         end.

Definition second_loop_reads (opts : Dict) (s s' : IdasInterface) : Prop :=
  base s' = base s
  /\ functions_ s' = functions_ s
  /\ cj_scaling_ s' = cj_scaling_ s
  /\ calc_ic_ s' = calc_ic_ s
  /\ suppress_algebraic_ s' = suppress_algebraic_ s
  /\ max_step_size_ s' = max_step_size_ s
  /\ abstolv_ s' = abstolv_ s
  /\ fsens_abstolv_ s' = fsens_abstolv_ s
  /\ init_xdot_ s' = init_xdot_ s
  /\ calc_icB_ s' = bool_option "calc_icB" (calc_icB_ s) opts
  /\ first_time_ s' = double_option "first_time" (first_time_ s) opts.

(* ================================================================= *)
(** * Properties *)

Unset Implicit Arguments.

(* ================================================================= *)
(** ** The model at work *)

Example casadi_axpy_sample :
  casadi_axpy 2 (-1)%float [1; 2; 3]%float [10; 20; 30]%float = [9; 18; 30]%float.
Proof. vm_compute. reflexivity. Qed.

Example casadi_scal_sample :
  casadi_scal 2 (-1)%float [1; 2; 3]%float = [-1; -2; 3]%float.
Proof. vm_compute. reflexivity. Qed.

Example store_sample : store 1 [7; 8] [1; 2; 3; 4] = [1; 7; 8; 4].
Proof. vm_compute. reflexivity. Qed.

Example diagcat_sample :
  diagcat [[[true]]; [[true; true]]] = [[true; false; false]; [false; true; true]].
Proof. vm_compute. reflexivity. Qed.

(** The residual of [x' = 2x] at [x = 3], [x' = 10]: [2*3 - 10]. *)
Example res_sample :
  let W := world (fun _ args => Ok [map (fun x => (2 * x)%float) (hd [] args); []])
                 obedient_ida in
  let m : IdasMemory double unit :=
    sample_memory (sample_object (sample_base 1 0 0 0 0 0 0 true) []) 0%float in
  @res _ _ W 0%float [3%float] [10%float] [0%float] m = (m, (Ok 0%Z, [-4]%float)).
Proof. vm_compute. reflexivity. Qed.

(** The forward Jacobian with one algebraic variable: four blocks. *)
Example getJacF_sample :
  let rho := mkEnv (fun r a =>
                      match r, a with
                      | DE_ODE, DE_X => [[5]] | DE_ODE, DE_Z => [[6]]
                      | DE_ALG, DE_X => [[7]] | _, _ => [[8]]
                      end%Z) 2%Z in
  map (eval rho) (f_out (getJacF (sample_base 1 1 0 0 0 0 0 true)))
  = [[[3; 6]; [7; 8]]%Z].
Proof. vm_compute. reflexivity. Qed.

(* ================================================================= *)
(** ** Doubles *)

Lemma SFcompare_Lt_swap (x y : spec_float) :
  SFcompare x y = Some Lt -> SFcompare y x = Some Gt.
Proof.
  destruct x as [sx|sx| |sx mx ex], y as [sy|sy| |sy my ey]; simpl; try congruence;
    try (destruct sx, sy; simpl; congruence);
    try (destruct sx; simpl; congruence);
    try (destruct sy; simpl; congruence).
  change (Pos.compare_cont Eq mx my) with (mx ?= my)%positive.
  change (Pos.compare_cont Eq my mx) with (my ?= mx)%positive.
  rewrite (Z.compare_antisym ex ey), (Pos.compare_antisym mx my).
  destruct sx, sy; simpl; try congruence;
    destruct (ex ?= ey)%Z; simpl; try congruence;
    destruct (mx ?= my)%positive; simpl; congruence.
Qed.

(** [x < y] excludes [y <= x]. *)
Lemma ltb_not_leb (x y : double) : (x <? y)%float = true -> (y <=? x)%float = false.
Proof.
  rewrite ltb_spec, leb_spec. unfold SFltb, SFleb.
  destruct (SFcompare (Prim2SF x) (Prim2SF y)) as [[ | | ]|] eqn:Hc; try discriminate.
  intros _. now rewrite (SFcompare_Lt_swap _ _ Hc).
Qed.

(** [x < y] excludes [y < x]. *)
Lemma ltb_asym (x y : double) : (x <? y)%float = true -> (y <? x)%float = false.
Proof.
  rewrite !ltb_spec. unfold SFltb.
  destruct (SFcompare (Prim2SF x) (Prim2SF y)) as [[ | | ]|] eqn:Hc; try discriminate.
  intros _. now rewrite (SFcompare_Lt_swap _ _ Hc).
Qed.

Lemma ltb_irrefl (x : double) : (x <? x)%float = false.
Proof.
  destruct (x <? x)%float eqn:Hx; [|reflexivity].
  now rewrite (ltb_asym _ _ Hx) in Hx.
Qed.

(** Multiplying by [-1.0] is the negation: on a finite number the product
    [m * 2^52] at exponent [e - 52] is rounded back, exactly, to the
    mantissa [m] at exponent [e]. *)
Lemma SFmul_minus_one (x : spec_float) :
  valid_binary x = true ->
  SF64mul x (S754_finite true 4503599627370496 (-52)) = SFopp x.
Proof.
  destruct x as [s|s| |s m e]; intros Hv;
    [destruct s; reflexivity | destruct s; reflexivity | reflexivity | ].
  cbn in Hv. unfold bounded, canonical_mantissa in Hv.
  apply andb_true_iff in Hv as [Hc Hb]. apply Z.eqb_eq in Hc.
  unfold SF64mul, SFmul, SFopp.
  rewrite (Pos.mul_comm m). cbn [Pos.mul].
  unfold binary_round_aux, shr_fexp. cbn [Zdigits2 digits2_pos].
  match goal with
  | |- context [(fexp prec emax ?a - ?b)%Z] =>
      replace (fexp prec emax a - b)%Z with 52%Z
        by (replace a with (Z.pos (digits2_pos m) + e)%Z by lia; rewrite Hc; lia)
  end.
  cbn [shr shr_record_of_loc iter_pos shr_1 orb shr_m loc_of_shr_record
       round_nearest_even Zdigits2].
  replace (e + -52 + 52)%Z with e by lia.
  rewrite Hc, Z.sub_diag. cbn [shr shr_record_of_loc shr_m].
  rewrite Hb. now destruct s.
Qed.

Lemma mul_minus_one (x : double) : (x * (-1))%float = (- x)%float.
Proof.
  rewrite <- (SF2Prim_Prim2SF (x * -1)%float), <- (SF2Prim_Prim2SF (- x)%float).
  f_equal. rewrite mul_spec, opp_spec.
  change (Prim2SF (-1)%float) with (S754_finite true 4503599627370496 (-52)).
  apply SFmul_minus_one, Prim2SF_valid.
Qed.

(** Within the tolerance, the guard [fabs(m->t - t) >= ttol] of [advance]
    is false. *)
Lemma at_time_guard {E L} (m : IdasMemory E L) (t : double) :
  at_time m t -> dge (fabs (m_t m - t)%float) ttol = false.
Proof. unfold at_time, dge. apply ltb_not_leb. Qed.

(* ================================================================= *)
(** ** Strings *)

Lemma prefix_append (a b : string) : prefix a (a ++ b)%string = true.
Proof.
  induction a as [|c a IH]; simpl; [now destruct b|].
  destruct (ascii_dec c c); [exact IH | congruence].
Qed.

Lemma append_assoc (a b c : string) : ((a ++ b) ++ c = a ++ (b ++ c))%string.
Proof. induction a as [|x a IH]; simpl; [reflexivity | now rewrite IH]. Qed.

(* ================================================================= *)
(** ** The error translator *)

Section ErrorTranslator.
Context {E L : Type} {X : Collaborators E L}.

Lemma idas_error_success (module : string) (flag : Z) :
  (0 <= flag)%Z -> idas_error module flag = Ok tt.
Proof.
  intros H. unfold idas_error, IDA_SUCCESS.
  destruct (flag >=? 0)%Z eqn:Hf; [reflexivity | lia].
Qed.

Lemma idas_error_failure (module : string) (flag : Z) :
  (flag < 0)%Z ->
  idas_error module flag =
  Throw (ThrowStd (module ++ " returned " ++ dquote ++ IDAGetReturnFlagName flag
                   ++ dquote ++ "." ++ " Consult IDAS documentation.")%string).
Proof.
  intros H. unfold idas_error, IDA_SUCCESS, casadi_error.
  destruct (flag >=? 0)%Z eqn:Hf; [lia | reflexivity].
Qed.

(** C6: a wrapped engine call whose flag is not negative succeeds, the
    translator [idas_error] doing nothing; a negative flag raises a fatal
    error whose message starts with the call site (the name of the called
    function followed by the source location) and holds the engine's name
    of the flag.  In both cases the memory is what the call left. *)
Theorem THROWING_translates_flag
    (line : nat) (c : IdaCall) (out : IdaReply -> IdasMemory E L -> IdasMemory E L)
    (m : IdasMemory E L) :
  let r := snd (ida (m_mem m) c) in
  let m' := out r (set_calls (c :: m_calls m) (set_mem (fst (ida (m_mem m) c)) m)) in
  let site := (fcn_name c ++ CASADI_ASSERT_WHERE line)%string in
  ((0 <= r_flag r)%Z ->
     idas_error site (r_flag r) = Ok tt /\ THROWING line c out m = (m', Ok tt))
  /\
  ((r_flag r < 0)%Z ->
     exists msg,
       THROWING line c out m = (m', Throw (ThrowStd msg))
       /\ prefix site msg = true
       /\ contains msg (IDAGetReturnFlagName (r_flag r))).
Proof.
  cbv zeta. unfold THROWING, bind, engine, modify, lift.
  destruct (ida (m_mem m) c) as [e' r]. cbn [fst snd]. split; intros Hflag.
  - rewrite (idas_error_success _ _ Hflag). now split.
  - rewrite (idas_error_failure _ _ Hflag). eexists. split; [reflexivity|]. split.
    + apply prefix_append.
    + exists ((fcn_name c ++ CASADI_ASSERT_WHERE line) ++ " returned " ++ dquote)%string,
             (dquote ++ "." ++ " Consult IDAS documentation.")%string.
      now rewrite !append_assoc.
Qed.

End ErrorTranslator.

(** The theorem at work: flag 0 passes, [IDA_CONV_FAIL] is fatal. *)
Lemma THROWING_translates_flag_witness :
  @THROWING unit unit (world (calc_gives []) (const_ida 0 0%float)) 430
     (IDASolve 1%float 0%float [] [] 1) no_out
     (sample_memory (sample_object (sample_base 1 0 0 0 0 0 0 true) []) 0%float)
  = (set_calls [IDASolve 1%float 0%float [] [] 1]
       (set_mem (Some tt)
          (sample_memory (sample_object (sample_base 1 0 0 0 0 0 0 true) []) 0%float)),
     Ok tt)
  /\ exists msg,
       snd (@THROWING unit unit (world (calc_gives []) (const_ida (-4) 0%float)) 430
              (IDASolve 1%float 0%float [] [] 1) no_out
              (sample_memory (sample_object (sample_base 1 0 0 0 0 0 0 true) []) 0%float))
       = Throw (ThrowStd msg)
       /\ contains msg "IDA_CONV_FAIL".
Proof.
  split.
  - apply (proj1 (@THROWING_translates_flag unit unit
                    (world (calc_gives []) (const_ida 0 0%float)) 430
                    (IDASolve 1%float 0%float [] [] 1) no_out
                    (sample_memory (sample_object (sample_base 1 0 0 0 0 0 0 true) [])
                       0%float))).
    simpl. lia.
  - destruct (proj2 (@THROWING_translates_flag unit unit
                    (world (calc_gives []) (const_ida (-4) 0%float)) 430
                    (IDASolve 1%float 0%float [] [] 1) no_out
                    (sample_memory (sample_object (sample_base 1 0 0 0 0 0 0 true) [])
                       0%float))) as (msg & Hrun & _ & Hname).
    + simpl. lia.
    + exists msg. split; [now rewrite Hrun | exact Hname].
Defined.

(* ================================================================= *)
(** ** [advance] *)

(** Unfolding one session operation down to the engine calls. *)
Ltac unfold_session :=
  unfold THROWING, engine, bind, to_mem, get, lift, when, ret, modify,
    casadi_assert_message, casadi_error in *.

(** Case analysis on every test and every engine reply on the way. *)
Ltac split_run :=
  repeat match goal with
    | H : context [if ?b then _ else _] |- _ => destruct b eqn:?
    | H : context [let (_, _) := ?p in _] |- _ => destruct p eqn:?
    | H : context [match idas_error ?s ?f with _ => _ end] |- _ =>
        destruct (idas_error s f) eqn:?
    | H : (_, _) = (_, _) |- _ => inversion H; subst; clear H
    end.

Section Advance.
Context {E L : Type} {X : Collaborators E L}.

Abbreviation Mem := (IdasMemory E L).

(** One call of [advance] makes at most one forward step of the engine. *)
Lemma advance_steps_at_most_once (t : double) (m m' : Mem) o :
  advance t m = (m', o) ->
  count_calls is_solver_step (m_calls m')
  <= 1 + count_calls is_solver_step (m_calls m).
Proof.
  unfold advance, count_calls. unfold_session. intros H.
  split_run; cbn; lia.
Qed.

(** At the target time already, [advance] leaves the engine where it is:
    no step, no quadrature retrieval, and the time, the state and the
    quadratures of the session stay as they are.  The one engine call
    left is the statistics query; if that query leaves the engine handle
    as it is, so does [advance]. *)
Lemma advance_at_time (t : double) (m m' : Mem) o :
  at_time m t ->
  advance t m = (m', o) ->
  count_calls is_solver_step (m_calls m') = count_calls is_solver_step (m_calls m)
  /\ count_calls is_quad_retrieval (m_calls m')
     = count_calls is_quad_retrieval (m_calls m)
  /\ (m_calls m' = m_calls m
      \/ m_calls m' = IDAGetIntegratorStats false :: m_calls m)
  /\ m_t m' = m_t m /\ m_xz m' = m_xz m /\ m_xzdot m' = m_xzdot m
  /\ m_q m' = m_q m
  /\ (fst (ida (m_mem m) (IDAGetIntegratorStats false)) = m_mem m ->
      m_mem m' = m_mem m).
Proof.
  intros Hat. apply at_time_guard in Hat.
  unfold advance, count_calls. unfold_session. rewrite Hat. intros H.
  split_run; cbn; repeat split; auto;
    match goal with
    | Hc : ida _ _ = (_, _) |- _ => rewrite Hc; cbn [fst]; auto
    end.
Qed.

(** C1: two calls of [advance] in a row with the same target [t], the
    first of which left the session at [t] within the tolerance [ttol]:
    the two calls together make at most one engine step, because the
    second makes no solver call ([IDASolve], [IDASolveF]) and no
    quadrature retrieval ([IDAGetQuad]).  Its only engine call is the
    statistics query, so it leaves the engine as that query does, and
    time, state and quadratures are unchanged. *)
Theorem advance_twice_steps_once (t : double) (m m1 m2 : Mem) o1 o2 :
  advance t m = (m1, o1) ->
  at_time m1 t ->
  advance t m1 = (m2, o2) ->
  count_calls is_solver_step (m_calls m2)
  <= 1 + count_calls is_solver_step (m_calls m)
  /\ count_calls is_solver_step (m_calls m2)
     = count_calls is_solver_step (m_calls m1)
  /\ count_calls is_quad_retrieval (m_calls m2)
     = count_calls is_quad_retrieval (m_calls m1)
  /\ (m_calls m2 = m_calls m1
      \/ m_calls m2 = IDAGetIntegratorStats false :: m_calls m1)
  /\ m_t m2 = m_t m1 /\ m_xz m2 = m_xz m1 /\ m_xzdot m2 = m_xzdot m1
  /\ m_q m2 = m_q m1
  /\ (fst (ida (m_mem m1) (IDAGetIntegratorStats false)) = m_mem m1 ->
      m_mem m2 = m_mem m1).
Proof.
  intros H1 Hat H2.
  pose proof (advance_steps_at_most_once _ _ _ _ H1) as Hone.
  destruct (advance_at_time _ _ _ _ Hat H2)
    as (Hs & Hq & Hc & Ht & Hx & Hd & Hqq & He).
  repeat split; try assumption. now rewrite Hs.
Qed.

End Advance.

Lemma advance_twice_steps_once_witness :
  let W := world (calc_gives []) obedient_ida in
  let m : IdasMemory double unit :=
    sample_memory (sample_object (sample_base 1 0 1 0 0 0 0 true) []) 0%float in
  let m1 := fst (@advance _ _ W 0.5%float m) in
  let m2 := fst (@advance _ _ W 0.5%float m1) in
  at_time m1 0.5%float
  /\ count_calls is_solver_step (m_calls m1) = 1
  /\ count_calls is_solver_step (m_calls m2) = 1
  /\ m_calls m2 = IDAGetIntegratorStats false :: m_calls m1.
Proof.
  intros W m m1 m2.
  assert (Hat : at_time m1 0.5%float) by (vm_compute; reflexivity).
  destruct (@advance_twice_steps_once _ _ W 0.5%float m m1 m2
              (snd (@advance _ _ W 0.5%float m)) (snd (@advance _ _ W 0.5%float m1)))
    as (_ & Hs & _ & Hc & _).
  - vm_compute; reflexivity.
  - exact Hat.
  - vm_compute; reflexivity.
  - split; [exact Hat|]. split; [vm_compute; reflexivity|].
    split; [rewrite Hs; vm_compute; reflexivity|].
    destruct Hc as [Hc|Hc]; [|exact Hc].
    vm_compute in Hc. discriminate Hc.
Defined.

Section AdvanceRange.
Context {E L : Type} {X : Collaborators E L}.

Abbreviation Mem := (IdasMemory E L).

(** The first check of [advance] fails. *)
Lemma advance_before_t0 (t : double) (m : Mem) :
  dge t (grid_front (m_self m)) = false ->
  advance t m
  = (m, Throw (ThrowStd (earlier_than_t0_message t (grid_front (m_self m))))).
Proof.
  intros H. unfold advance. unfold_session. now rewrite H.
Qed.

(** The first check passes and the second fails. *)
Lemma advance_after_tf (t : double) (m : Mem) :
  dge t (grid_front (m_self m)) = true ->
  (t <=? grid_back (m_self m))%float = false ->
  stop_at_end_ (m_self m) = true ->
  advance t m
  = (m, Throw (ThrowStd (later_than_tf_message t (grid_back (m_self m))))).
Proof.
  intros H0 H1 H2. unfold advance. unfold_session. now rewrite H0, H1, H2.
Qed.

(** Both checks pass: the engine is called. *)
Lemma advance_in_range (t : double) (m : Mem) :
  dge t (grid_front (m_self m)) = true ->
  (t <=? grid_back (m_self m))%float || negb (stop_at_end_ (m_self m)) = true ->
  exists c cs, m_calls (fst (advance t m)) = c :: cs ++ m_calls m.
Proof.
  intros H0 H1. destruct (advance t m) as [m' o] eqn:H. revert H.
  unfold advance. unfold_session. rewrite H0, H1. intros H.
  split_run; cbn;
    solve [ eexists _, []; reflexivity
          | eexists _, [_]; reflexivity
          | eexists _, [_; _]; reflexivity ].
Qed.

(** C2: [advance] to a time strictly before [t0] fails with the
    time-ordering error of the first check; to a time strictly after
    [tf], with [stop_at_end] set, it fails with a time-ordering error as
    well; in both cases the memory block, its engine handle and its list
    of engine calls are untouched, so the check comes before any engine
    call.  With [stop_at_end] unset a time after [tf] and not before [t0]
    passes the checks and reaches the engine. *)
Theorem advance_time_ordering (t : double) (m : Mem) :
  let s := m_self m in
  let too_early := ThrowStd (earlier_than_t0_message t (grid_front s)) in
  let too_late := ThrowStd (later_than_tf_message t (grid_back s)) in
  ((t <? grid_front s)%float = true -> advance t m = (m, Throw too_early))
  /\
  ((grid_back s <? t)%float = true -> stop_at_end_ s = true ->
     advance t m = (m, Throw too_early) \/ advance t m = (m, Throw too_late))
  /\
  ((grid_back s <? t)%float = true -> stop_at_end_ s = false ->
     (grid_front s <=? t)%float = true ->
     exists c cs, m_calls (fst (advance t m)) = c :: cs ++ m_calls m).
Proof.
  cbv zeta. split; [|split].
  - intros H. apply advance_before_t0. unfold dge. now apply ltb_not_leb.
  - intros H Hstop. apply ltb_not_leb in H.
    destruct (dge t (grid_front (m_self m))) eqn:H0.
    + right. now apply advance_after_tf.
    + left. now apply advance_before_t0.
  - intros _ Hstop H0. apply advance_in_range; [exact H0|].
    rewrite Hstop. apply orb_true_r.
Qed.

End AdvanceRange.

Lemma advance_time_ordering_witness :
  let W := world (calc_gives []) obedient_ida in
  let strict : IdasMemory double unit :=
    sample_memory (sample_object (sample_base 1 0 0 0 0 0 0 true) []) 0%float in
  let lax : IdasMemory double unit :=
    sample_memory (sample_object (sample_base 1 0 0 0 0 0 0 false) []) 0%float in
  fst (@advance _ _ W (-1)%float strict) = strict
  /\ fst (@advance _ _ W 2%float strict) = strict
  /\ m_calls (fst (@advance _ _ W 2%float lax)) <> [].
Proof.
  intros W strict lax.
  pose proof (@advance_time_ordering _ _ W (-1)%float strict) as (Hearly & _ & _).
  pose proof (@advance_time_ordering _ _ W 2%float strict) as (_ & Hlate & _).
  pose proof (@advance_time_ordering _ _ W 2%float lax) as (_ & _ & Hpast).
  split; [|split].
  - assert (H : advance (-1)%float strict = (strict, Throw (ThrowStd
               (earlier_than_t0_message (-1)%float (grid_front (m_self strict))))))
      by (apply Hearly; vm_compute; reflexivity).
    exact (f_equal fst H).
  - destruct Hlate as [H|H]; try (vm_compute; reflexivity);
      exact (f_equal fst H).
  - destruct Hpast as (c & cs & H); try (vm_compute; reflexivity).
    intros Hnil. rewrite Hnil in H. discriminate H.
Defined.

(* ================================================================= *)
(** ** [retreat] *)

Section Retreat.
Context {E L : Type} {X : Collaborators E L}.

Abbreviation Mem := (IdasMemory E L).

(** Not strictly earlier than the session time: the backward problem is
    left alone, but the statistics of the backward sub-context are still
    asked for. *)
Lemma retreat_not_earlier (t : double) (m m' : Mem) o :
  (t <? m_t m)%float = false ->
  retreat t m = (m', o) ->
  m_calls m' = IDAGetIntegratorStats true :: m_calls m
  /\ m_t m' = m_t m /\ m_rxz m' = m_rxz m /\ m_rxzdot m' = m_rxzdot m
  /\ m_rq m' = m_rq m.
Proof.
  intros Hlt. unfold retreat. unfold_session. rewrite Hlt. intros H.
  split_run; cbn; auto.
Qed.

(** Strictly earlier: the first engine call is the backward step. *)
Lemma retreat_earlier (t : double) (m m' : Mem) o :
  (t <? m_t m)%float = true ->
  retreat t m = (m', o) ->
  exists cs, m_calls m' = cs ++ IDASolveB t IDA_NORMAL :: m_calls m.
Proof.
  intros Hlt. unfold retreat. unfold_session. rewrite Hlt. intros H.
  split_run; cbn;
    solve [ eexists []; reflexivity
          | eexists [_]; reflexivity
          | eexists [_; _]; reflexivity
          | eexists [_; _; _]; reflexivity ].
Qed.

Ltac simpl_retreat :=
  cbn [fst snd m_self m_mem m_calls m_t m_rxz m_rxzdot m_rq m_whichB
       set_calls set_mem set_t set_rxz set_rxzdot set_rq
       no_out out_getB out_getQuadB] in *.

(** The time after [retreat] is the time before, or a time the engine
    reported in one of the two retrievals of this call.  When the engine
    reports the target there, as it does after a backward step that
    reached it, the session time is not moved forward: the target is
    strictly earlier than the session time, or nothing is retrieved.
    [rB] and [rQB] are the replies to [IDAGetB] and [IDAGetQuadB] as
    [retreat] calls them, on the handles the calls before have left. *)
Lemma retreat_time_never_later (t : double) (m m' : Mem) o :
  let solved := fst (ida (m_mem m) (IDASolveB t IDA_NORMAL)) in
  let getB := IDAGetB (m_whichB m) (m_t m) (m_rxz m) (m_rxzdot m) in
  let rB := snd (ida solved getB) in
  let getQuadB := IDAGetQuadB (m_whichB m) (r_tret rB) (m_rq m) in
  let rQB := snd (ida (fst (ida solved getB)) getQuadB) in
  r_tret rB = t ->
  ((0 <? nrq_ (m_self m))%nat = true -> r_tret rQB = t) ->
  retreat t m = (m', o) ->
  (m_t m <? m_t m')%float = false.
Proof.
  cbv zeta. intros HB HQB. destruct (t <? m_t m)%float eqn:Hlt.
  - unfold retreat. unfold_session. rewrite Hlt.
    destruct (ida (m_mem m) (IDASolveB t IDA_NORMAL)) as [e1 r1].
    simpl_retreat.
    destruct (idas_error _ (r_flag r1)); [|intros [= <- _]; apply ltb_irrefl].
    simpl_retreat.
    destruct (ida e1 _) as [e2 r2]. simpl_retreat. subst t.
    destruct (idas_error _ (r_flag r2));
      [|intros [= <- _]; cbn; now apply ltb_asym].
    simpl_retreat.
    destruct (0 <? nrq_ (m_self m))%nat.
    + specialize (HQB eq_refl). simpl_retreat.
      destruct (ida e2 _) as [e3 r3]. simpl_retreat.
      destruct (idas_error _ (r_flag r3));
        [|intros [= <- _]; cbn; rewrite HQB; now apply ltb_asym].
      simpl_retreat.
      destruct (ida e3 _) as [e4 r4].
      destruct (idas_error _ (r_flag r4)); intros [= <- _]; cbn;
        rewrite HQB; now apply ltb_asym.
    + clear HQB. simpl_retreat. destruct (ida e2 _) as [e4 r4].
      destruct (idas_error _ (r_flag r4)); intros [= <- _]; cbn;
        now apply ltb_asym.
  - intros H. destruct (retreat_not_earlier _ _ _ _ Hlt H) as (_ & Ht & _).
    rewrite Ht. apply ltb_irrefl.
Qed.

(** C8, amended: [retreat] makes the backward step and retrieves the
    backward state and quadratures only for a target strictly earlier
    than the session time; otherwise it makes neither, leaves time, state
    and quadratures as they are, and its one engine call is the query of
    the backward statistics.  When the engine reports the target as the
    time reached in the retrievals of the call ([rB], [rQB]: its replies
    to [IDAGetB] and [IDAGetQuadB] as [retreat] calls them), the session
    time is not later after the call than before. *)
Theorem retreat_only_when_earlier (t : double) (m m' : Mem) o :
  retreat t m = (m', o) ->
  ((t <? m_t m)%float = false ->
     m_calls m' = IDAGetIntegratorStats true :: m_calls m
     /\ m_t m' = m_t m /\ m_rxz m' = m_rxz m /\ m_rxzdot m' = m_rxzdot m
     /\ m_rq m' = m_rq m)
  /\
  ((t <? m_t m)%float = true ->
     exists cs, m_calls m' = cs ++ IDASolveB t IDA_NORMAL :: m_calls m)
  /\
  (let solved := fst (ida (m_mem m) (IDASolveB t IDA_NORMAL)) in
   let getB := IDAGetB (m_whichB m) (m_t m) (m_rxz m) (m_rxzdot m) in
   let rB := snd (ida solved getB) in
   let getQuadB := IDAGetQuadB (m_whichB m) (r_tret rB) (m_rq m) in
   let rQB := snd (ida (fst (ida solved getB)) getQuadB) in
   r_tret rB = t ->
   ((0 <? nrq_ (m_self m))%nat = true -> r_tret rQB = t) ->
   (m_t m <? m_t m')%float = false).
Proof.
  intros H. split; [|split].
  - intros Hlt. exact (retreat_not_earlier _ _ _ _ Hlt H).
  - intros Hlt. exact (retreat_earlier _ _ _ _ Hlt H).
  - cbv zeta. intros HB HQB. exact (retreat_time_never_later _ _ _ _ HB HQB H).
Qed.

End Retreat.

(** The engine [obedient_ida] reports the target of the backward step in
    the retrievals that follow it: with it, no [retreat] moves the
    session time forward, whatever the target and the memory block. *)
Lemma retreat_obedient_never_later
    (calc : string -> list N_Vector -> outcome (list N_Vector))
    (t : double) (m m' : IdasMemory double unit) o :
  @retreat _ _ (world calc obedient_ida) t m = (m', o) ->
  (m_t m <? m_t m')%float = false.
Proof.
  intros H.
  apply (@retreat_time_never_later _ _ (world calc obedient_ida) t m m' o);
    [reflexivity | reflexivity | exact H].
Qed.

(** A target that is not earlier than the session time, and the engine
    call [retreat] makes all the same. *)
Lemma retreat_not_earlier_calls_engine :
  let W := world (calc_gives []) obedient_ida in
  let m : IdasMemory double unit :=
    sample_memory (sample_object (sample_base 1 0 0 1 0 1 0 true) []) 0.5%float in
  (0.5 <? m_t m)%float = false
  /\ m_calls m = []
  /\ m_calls (fst (@retreat _ _ W 0.5%float m)) = [IDAGetIntegratorStats true].
Proof. vm_compute. repeat split. Qed.

Lemma retreat_only_when_earlier_witness :
  let W := world (calc_gives []) obedient_ida in
  let m : IdasMemory double unit :=
    sample_memory (sample_object (sample_base 1 0 0 1 0 1 0 true) []) 0.5%float in
  m_calls (fst (@retreat _ _ W 0.5%float m)) = [IDAGetIntegratorStats true]
  /\ (exists cs, m_calls (fst (@retreat _ _ W 0.25%float m))
                 = cs ++ [IDASolveB 0.25%float IDA_NORMAL])
  /\ (m_t m <? m_t (fst (@retreat _ _ W 0.25%float m)))%float = false.
Proof.
  intros W m.
  pose proof (@retreat_only_when_earlier _ _ W 0.5%float m
                (fst (@retreat _ _ W 0.5%float m)) (snd (@retreat _ _ W 0.5%float m)))
    as Hstay.
  pose proof (@retreat_only_when_earlier _ _ W 0.25%float m
                (fst (@retreat _ _ W 0.25%float m)) (snd (@retreat _ _ W 0.25%float m)))
    as Hmove.
  destruct Hstay as ((Hcalls & _) & _ & _); try (vm_compute; reflexivity).
  destruct Hmove as (_ & Hstep & Htime); try (vm_compute; reflexivity).
  split; [exact Hcalls|]. split.
  - apply Hstep. vm_compute; reflexivity.
  - apply Htime.
    + vm_compute; reflexivity.
    + intros _. vm_compute; reflexivity.
Defined.

(* ================================================================= *)
(** ** The Newton Jacobians *)

(** Where the claimed shape fails: one sensitivity direction and no
    algebraic variable.  The forward Jacobian is then the differential
    block projected on the block-diagonal pattern, which drops the entry
    that couples the sensitivity to the state. *)
Lemma getJacF_with_sensitivities_projects :
  let s := sample_base 2 0 0 0 0 0 1 true in
  let rho := mkEnv (fun _ _ => [[3; 0]; [5; 3]]%Z) 1%Z in
  f_out (getJacF s) <> [differential_block_F (nx_ s)]
  /\ map (eval rho) (f_out (getJacF s)) = [[[2; 0]; [0; 2]]%Z]
  /\ eval rho (differential_block_F (nx_ s)) = [[2; 0]; [5; 2]]%Z.
Proof.
  cbv zeta. split; [|split]; [|reflexivity|reflexivity].
  vm_compute. discriminate.
Qed.

(** C3, amended: the differential block of the forward Jacobian is the
    partial derivative of [ode] by [x] minus [cj] times the identity, that
    of the backward Jacobian the partial derivative of [rode] by [rx] plus
    [cj] times the identity.  With algebraic variables ([nz > 0], resp.
    [nrz > 0]) the Jacobian is the four blocks concatenated.  Without
    them it is the differential block itself when there is no sensitivity
    direction ([ns = 0]), and otherwise that block projected on the
    block-diagonal pattern of [1 + ns] copies of the pattern of the
    Jacobian this integrator was derived from. *)
Theorem getJac_assembly (s : SundialsInterface) :
  let a := oracle_in in
  let r := oracle_out in
  f_out (getJacF s) =
    [ if (0 <? nz_ s)%nat then
        four_blocks (differential_block_F (nx_ s)) (jacobian (r DE_ALG) (a DE_X))
                    (jacobian (r DE_ODE) (a DE_Z)) (jacobian (r DE_ALG) (a DE_Z))
      else if (0 <? ns_ s)%nat then
        project (differential_block_F (nx_ s))
                (diagcat (repeat (derivative_jacF_sp s) (1 + ns_ s)))
      else differential_block_F (nx_ s) ]
  /\
  f_out (getJacB s) =
    [ if (0 <? nrz_ s)%nat then
        four_blocks (differential_block_B (nrx_ s)) (jacobian (r DE_RALG) (a DE_RX))
                    (jacobian (r DE_RODE) (a DE_RZ)) (jacobian (r DE_RALG) (a DE_RZ))
      else if (0 <? ns_ s)%nat then
        project (differential_block_B (nrx_ s))
                (diagcat (repeat (derivative_jacB_sp s) (1 + ns_ s)))
      else differential_block_B (nrx_ s) ].
Proof.
  cbv zeta. unfold getJacF, getJacB, four_blocks, differential_block_F,
    differential_block_B. cbn [f_out]. split.
  - destruct (nz_ s) as [|nz]; cbn [Nat.ltb Nat.leb Nat.eqb];
      [rewrite andb_true_r | rewrite andb_false_r]; reflexivity.
  - destruct (nrz_ s) as [|nrz]; cbn [Nat.ltb Nat.leb Nat.eqb];
      [rewrite andb_true_r | rewrite andb_false_r]; reflexivity.
Qed.

(** The value of the four-block matrix: the rows of the upper blocks side
    by side, then the rows of the lower blocks side by side. *)
Lemma eval_four_blocks (rho : env) (a11 a21 a12 a22 : MatType) :
  eval rho (four_blocks a11 a21 a12 a22)
  = zip_with (@app Z) (eval rho a11 ++ eval rho a21) (eval rho a12 ++ eval rho a22).
Proof. reflexivity. Qed.

(* ================================================================= *)
(** ** Callbacks *)

Lemma casadi_scal_all (alpha : double) (x : list double) (n : nat) :
  List.length x <= n ->
  casadi_scal n alpha x = map (fun v => (v * alpha)%float) x.
Proof.
  revert n. induction x as [|v x IH]; intros [|n] Hn; simpl in *;
    try reflexivity; try lia.
  f_equal. apply IH. lia.
Qed.

Lemma store_whole {A} (src dst : list A) :
  List.length dst <= List.length src -> store 0 src dst = src.
Proof.
  intros H. unfold store. cbn [firstn Nat.add app].
  rewrite skipn_all2 by exact H. apply app_nil_r.
Qed.

Section CallbackProperties.
Context {E L : Type} {X : Collaborators E L}.

Abbreviation Mem := (IdasMemory E L).

Ltac unfold_callback :=
  unfold try_catch_exception, try_catch_int_exception, call, bind, to_mem, get,
    lift, ret, modify.

(** C10: when the evaluation of [quadB] at [(rx, rz, rp, x, z, p, t)]
    succeeds with the [nrq] components [rquad], [rhsQB] returns 0 and
    hands back the negation of [rquad], which is every component of
    [rquad] multiplied by [-1]. *)
Theorem rhsQB_negates (t : double) (xz xzdot rxz rxzdot rqdot : N_Vector)
    (m : Mem) (rquad : N_Vector) (rest : list N_Vector) :
  let s := m_self m in
  calc_function "quadB"
    [slice 0 (nrx_ s) rxz; slice (nrx_ s) (nrz_ s) rxz; m_rp m;
     slice 0 (nx_ s) xz; slice (nx_ s) (nz_ s) xz; m_p m; [t]]
  = Ok (rquad :: rest) ->
  List.length rquad = nrq_ s ->
  List.length rqdot = nrq_ s ->
  rhsQB t xz xzdot rxz rxzdot rqdot m
  = (m, (Ok 0%Z, map (fun v => (- v)%float) rquad))
  /\ map (fun v => (- v)%float) rquad = map (fun v => (v * (-1))%float) rquad.
Proof.
  cbv zeta. intros Hcalc Hlen Hbuf.
  assert (Hneg : map (fun v => (- v)%float) rquad
                 = map (fun v => (v * (-1))%float) rquad).
  { apply map_ext. intros v. symmetry. apply mul_minus_one. }
  split; [|exact Hneg]. rewrite Hneg.
  unfold rhsQB. unfold_callback.
  rewrite Hcalc. cbn [nth].
  rewrite store_whole by lia. rewrite casadi_scal_all by lia. reflexivity.
Qed.

(** The linear solve inside [lsolve]: in place, on the forward solver. *)
Lemma psolve_in_place (t : double) (xz xzdot rr b b1 : N_Vector)
    (cj delta : double) (m : Mem) :
  linsol_solve (m_linsolF m) b = Ok b1 ->
  psolve t xz xzdot rr b None cj delta m = (m, (Ok 0%Z, b1)).
Proof. intros H. unfold psolve. unfold_callback. now rewrite H. Qed.

Lemma psolveB_in_place (t : double) (xz xzdot xzB xzdotB rrB b b1 : N_Vector)
    (cj delta : double) (m : Mem) :
  linsol_solve (m_linsolB m) b = Ok b1 ->
  psolveB t xz xzdot xzB xzdotB rrB b None cj delta m = (m, (Ok 0%Z, b1)).
Proof. intros H. unfold psolveB. unfold_callback. now rewrite H. Qed.

(** C4: in the direct path, once the linear solve has given the
    correction [b1], [lsolve] and [lsolveB] return 0 with [b1] multiplied
    by exactly [2/(1+cjratio)] when [cj_scaling] is set and [cjratio]
    differs from 1, and with [b1] itself when [cj_scaling] is unset or
    [cjratio] equals 1.  (For [lsolveB] the forward solution must have
    been interpolated, or interpolation be switched off.) *)
Theorem direct_solve_rescaling (IDA_mem : IDAMemRec)
    (b weight xz xzdot rr b1 : N_Vector) (m : Mem) :
  let s := m_self m in
  let cjratio := ida_cjratio IDA_mem in
  let adj := ida_adj_mem IDA_mem in
  let correction :=
    if cj_scaling_ s && dne cjratio 1%float
    then map (fun v => (2 / (1 + cjratio) * v)%float) b1
    else b1 in
  (linsol_solve (m_linsolF m) b = Ok b1 ->
     lsolve IDA_mem b weight xz xzdot rr m = (m, (Ok 0%Z, correction)))
  /\
  (linsol_solve (m_linsolB m) b = Ok b1 ->
     (ia_noInterp adj = false ->
        fst (fst (ia_getY adj (ida_tn IDA_mem))) = IDA_SUCCESS) ->
     lsolveB IDA_mem b weight xz xzdot rr m = (m, (Ok 0%Z, correction))).
Proof.
  cbv zeta. split.
  - intros Hsolve. unfold lsolve, try_catch_int_exception, call, bind, to_mem, get.
    rewrite (psolve_in_place _ _ _ _ _ _ _ _ _ Hsolve). cbn.
    unfold N_VScale. destruct (cj_scaling_ (m_self m)); cbn; [|reflexivity].
    destruct (dne (ida_cjratio IDA_mem) 1%float); reflexivity.
  - intros Hsolve Hinterp.
    unfold lsolveB, try_catch_int_exception, call, bind, to_mem, get,
      interpolate_forward.
    destruct (ia_noInterp (ida_adj_mem IDA_mem)) eqn:Hno; cbn [negb].
    + unfold ret. rewrite (psolveB_in_place _ _ _ _ _ _ _ _ _ _ _ Hsolve). cbn.
      unfold N_VScale. destruct (cj_scaling_ (m_self m)); cbn; [|reflexivity].
      destruct (dne (ida_cjratio IDA_mem) 1%float); reflexivity.
    + specialize (Hinterp eq_refl).
      destruct (ia_getY (ida_adj_mem IDA_mem) (ida_tn IDA_mem)) as [[flag yy] yp].
      cbn [fst] in Hinterp. subst flag. cbn. unfold ret.
      rewrite (psolveB_in_place _ _ _ _ _ _ _ _ _ _ _ Hsolve). cbn.
      unfold N_VScale. destruct (cj_scaling_ (m_self m)); cbn; [|reflexivity].
      destruct (dne (ida_cjratio IDA_mem) 1%float); reflexivity.
Qed.

End CallbackProperties.

Lemma rhsQB_negates_witness :
  let W := world (calc_gives [[2; -3]%float]) obedient_ida in
  let m : IdasMemory double unit :=
    sample_memory (sample_object (sample_base 1 0 0 1 0 2 0 true) []) 0%float in
  @rhsQB _ _ W 0%float [1%float] [0%float] [1%float] [0%float] [9; 9]%float m
  = (m, (Ok 0%Z, [-2; 3]%float)).
Proof.
  intros W m.
  apply (proj1 (@rhsQB_negates _ _ W 0%float [1%float] [0%float] [1%float]
                  [0%float] [9; 9]%float m [2; -3]%float []
                  eq_refl eq_refl eq_refl)).
Defined.

Lemma direct_solve_rescaling_witness :
  let W := world (calc_gives []) obedient_ida in
  let scaling : IdasMemory double unit :=
    sample_memory (sample_object (sample_base 2 0 0 0 0 0 0 true)
                     [("cj_scaling", GT_bool true)]) 0%float in
  let plain : IdasMemory double unit :=
    sample_memory (sample_object (sample_base 2 0 0 0 0 0 0 true) []) 0%float in
  let adj := mkAdj true (fun _ => (0%Z, [], [])) [] [] in
  let ratio3 := mkIDAMem 0%float 1%float 3%float adj in
  let ratio1 := mkIDAMem 0%float 1%float 1%float adj in
  @lsolve _ _ W ratio3 [4; 8]%float [] [] [] [] scaling
  = (scaling, (Ok 0%Z, [2; 4]%float))
  /\ @lsolve _ _ W ratio1 [4; 8]%float [] [] [] [] scaling
     = (scaling, (Ok 0%Z, [4; 8]%float))
  /\ @lsolveB _ _ W ratio3 [4; 8]%float [] [] [] [] plain
     = (plain, (Ok 0%Z, [4; 8]%float)).
Proof.
  intros W scaling plain adj ratio3 ratio1. split; [|split].
  - apply (proj1 (@direct_solve_rescaling _ _ W ratio3 [4; 8]%float [] [] [] []
                    [4; 8]%float scaling)).
    reflexivity.
  - apply (proj1 (@direct_solve_rescaling _ _ W ratio1 [4; 8]%float [] [] [] []
                    [4; 8]%float scaling)).
    reflexivity.
  - apply (proj2 (@direct_solve_rescaling _ _ W ratio3 [4; 8]%float [] [] [] []
                    [4; 8]%float plain)).
    + reflexivity.
    + intros H. discriminate H.
Defined.

(* ================================================================= *)
(** ** What the callbacks return when the evaluation fails *)

Section CallbackFailures.
Context {E L : Type} {X : Collaborators E L}.

Abbreviation Mem := (IdasMemory E L).

Ltac unfold_callback :=
  unfold try_catch_exception, try_catch_int_exception, call, bind, to_mem, get,
    lift, ret, modify.

(** [res] is the callback with both handlers: a thrown [int] comes back
    as the return code, any other exception as [-1] after a warning. *)
Lemma res_failure (t : double) (xz xzdot rr : N_Vector) (m : Mem) (e : exn) :
  let s := m_self m in
  calc_function "daeF" [slice 0 (nx_ s) xz; slice (nx_ s) (nz_ s) xz; m_p m; [t]]
  = Throw e ->
  res t xz xzdot rr m =
  match e with
  | ThrowInt flag => (m, (Ok flag, rr))
  | ThrowStd what => (warn ("res failed: " ++ what)%string m, (Ok (-1)%Z, rr))
  end.
Proof.
  cbv zeta. intros H. unfold res. unfold_callback. rewrite H. now destruct e.
Qed.

(** [jtimes] has one handler: an exception comes back as the positive
    code 1 after a warning, and a thrown [int] is not caught. *)
Lemma jtimes_failure (t : double) (xz xzdot rr v Jv : N_Vector) (cj : double)
    (m : Mem) (e : exn) :
  let s := m_self m in
  calc_function "jtimesF"
    [[t]; slice 0 (nx_ s) xz; slice (nx_ s) (nz_ s) xz; m_p m;
     slice 0 (nx_ s) v; slice (nx_ s) (nz_ s) v]
  = Throw e ->
  jtimes t xz xzdot rr v Jv cj m =
  match e with
  | ThrowInt flag => (m, (Throw (ThrowInt flag), Jv))
  | ThrowStd what => (warn ("jtimes failed: " ++ what)%string m, (Ok 1%Z, Jv))
  end.
Proof.
  cbv zeta. intros H. unfold jtimes. unfold_callback. rewrite H. now destruct e.
Qed.

Lemma rhsQ_failure (t : double) (xz xzdot rhs : N_Vector) (m : Mem) (e : exn) :
  let s := m_self m in
  calc_function "quadF" [slice 0 (nx_ s) xz; slice (nx_ s) (nz_ s) xz; m_p m; [t]]
  = Throw e ->
  rhsQ t xz xzdot rhs m =
  match e with
  | ThrowInt flag => (m, (Throw (ThrowInt flag), rhs))
  | ThrowStd what => (warn ("rhsQ failed: " ++ what)%string m, (Ok 1%Z, rhs))
  end.
Proof.
  cbv zeta. intros H. unfold rhsQ. unfold_callback. rewrite H. now destruct e.
Qed.

Lemma psetup_failure (t : double) (xz xzdot rr : N_Vector) (cj : double)
    (m : Mem) (e : exn) :
  let s := m_self m in
  calc_function "jacF"
    [[t]; slice 0 (nx_ s) xz; slice (nx_ s) (nz_ s) xz; m_p m; [cj]]
  = Throw e ->
  psetup t xz xzdot rr cj m =
  match e with
  | ThrowInt flag => (m, (Throw (ThrowInt flag), tt))
  | ThrowStd what => (warn ("psetup failed: " ++ what)%string m, (Ok 1%Z, tt))
  end.
Proof.
  cbv zeta. intros H. unfold psetup. unfold_callback. rewrite H. now destruct e.
Qed.

Lemma psolve_failure (t : double) (xz xzdot rr rvec : N_Vector) (cj delta : double)
    (m : Mem) (e : exn) :
  linsol_solve (m_linsolF m) rvec = Throw e ->
  psolve t xz xzdot rr rvec None cj delta m =
  match e with
  | ThrowInt flag => (m, (Throw (ThrowInt flag), rvec))
  | ThrowStd what => (warn ("psolve failed: " ++ what)%string m, (Ok 1%Z, rvec))
  end.
Proof.
  intros H. unfold psolve. unfold_callback. rewrite H. now destruct e.
Qed.

End CallbackFailures.

(** C5 at work against the code: with an evaluator (or a linear solver)
    that throws the exception ["boom"], [res] returns the negative code
    [-1], but [jtimes], [rhsQ], [psetup] and [psolve] return the positive
    code 1; with one that throws the integer 7, [res] returns 7, but the
    other four let it escape instead of returning it. *)
Theorem callbacks_failure_codes :
  let m : IdasMemory double unit :=
    sample_memory (sample_object (sample_base 1 0 1 0 0 0 0 true) []) 0%float in
  let Wstd := world (calc_throws (ThrowStd "boom")) obedient_ida in
  let Wint := world (calc_throws (ThrowInt 7)) obedient_ida in
  let Lstd := world_linsol_throws (ThrowStd "boom") obedient_ida in
  let Lint := world_linsol_throws (ThrowInt 7) obedient_ida in
  let v := [1%float] in
  (snd (@res _ _ Wstd 0%float v v v m) = (Ok (-1)%Z, v)
   /\ snd (@jtimes _ _ Wstd 0%float v v v v v 1%float m) = (Ok 1%Z, v)
   /\ snd (@rhsQ _ _ Wstd 0%float v v v m) = (Ok 1%Z, v)
   /\ snd (@psetup _ _ Wstd 0%float v v v 1%float m) = (Ok 1%Z, tt)
   /\ snd (@psolve _ _ Lstd 0%float v v v v None 1%float 0%float m) = (Ok 1%Z, v)
   /\ m_userOut (fst (@jtimes _ _ Wstd 0%float v v v v v 1%float m))
      = ["jtimes failed: boom"])
  /\
  (snd (@res _ _ Wint 0%float v v v m) = (Ok 7%Z, v)
   /\ snd (@jtimes _ _ Wint 0%float v v v v v 1%float m) = (Throw (ThrowInt 7), v)
   /\ snd (@rhsQ _ _ Wint 0%float v v v m) = (Throw (ThrowInt 7), v)
   /\ snd (@psetup _ _ Wint 0%float v v v 1%float m) = (Throw (ThrowInt 7), tt)
   /\ snd (@psolve _ _ Lint 0%float v v v v None 1%float 0%float m)
      = (Throw (ThrowInt 7), v)).
Proof. vm_compute. repeat split. Qed.

(* ================================================================= *)
(** ** The absolute tolerance vector *)

(** [init] takes a tolerance vector of any length. *)
Lemma init_accepts_any_abstolv (b : SundialsInterface) (v : list double) :
  snd (setup b [("abstolv", GT_double_vector v)]) = Ok tt
  /\ abstolv_ (fst (setup b [("abstolv", GT_double_vector v)])) = v.
Proof.
  unfold setup, init, when, create_function, set_function, this.
  unfold bind, modify, get, ret, lift. cbn.
  destruct (nrx_ b), (iterative_ b); cbn; split; reflexivity.
Qed.

(** C7 at work against the code: one differential state, no algebraic
    one, and a tolerance vector of two entries.  [init] accepts it, and
    [init_memory], run with an engine that accepts what it is given, hands
    the two entries to [IDASVtolerances] and succeeds: no configuration
    error is raised at setup. *)
Theorem abstolv_length_not_checked :
  let b := sample_base 1 0 0 0 0 0 0 true in
  let opts := [("abstolv", GT_double_vector [0x1p-20; 0x1p-20]%float)] in
  let s := fst (setup b opts) in
  let W := world (calc_gives []) (const_ida 0 0%float) in
  nx_ b + nz_ b = 1
  /\ snd (setup b opts) = Ok tt
  /\ List.length (abstolv_ s) = 2
  /\ snd (@init_memory _ _ W (IdasMemory_new s tt tt)) = Ok tt
  /\ In (IDASVtolerances (reltol_ b) [0x1p-20; 0x1p-20]%float)
        (m_calls (fst (@init_memory _ _ W (IdasMemory_new s tt tt)))).
Proof.
  cbv zeta. split; [reflexivity|]. split; [reflexivity|].
  split; [reflexivity|]. split; [vm_compute; reflexivity|].
  vm_compute. do 3 right. left. reflexivity.
Qed.

(* ================================================================= *)
(** ** The initial state derivatives *)

Lemma lookup_absent {A} (key : string) (opts : list (string * A)) :
  ~ In key (map fst opts) -> lookup key opts = None.
Proof.
  induction opts as [|[k v] opts IH]; cbn; [reflexivity|]. intros Hin.
  destruct (k =? key)%string eqn:Hk.
  - apply String.eqb_eq in Hk. tauto.
  - apply IH. tauto.
Qed.

Lemma resize_empty {A} (n : nat) (v : A) : resize n v [] = repeat v n.
Proof. unfold resize. now rewrite firstn_nil, Nat.sub_0_r. Qed.

Ltac unfold_init :=
  unfold bind, lift, modify, ret, to_bool, to_double, to_double_vector,
    casadi_error.

Ltac known_key Hk Hty v :=
  apply String.eqb_eq in Hk; subst; cbn in Hty; destruct v; try discriminate Hty;
  eexists; repeat split; reflexivity.

(** One round of the first loop on a well-typed option: it succeeds, and
    touches [init_xdot_] only for the key ["init_xdot"]. *)
Lemma read_option_typed (k : string) (v : GenericType) (s : IdasInterface) :
  option_typed k v = true ->
  exists s',
    read_option (k, v) s = (s', Ok tt)
    /\ base s' = base s
    /\ functions_ s' = functions_ s
    /\ init_xdot_ s' =
       (if (k =? "init_xdot")%string
        then match v with GT_double_vector x => x | _ => init_xdot_ s end
        else init_xdot_ s).
Proof.
  unfold option_typed. intros Hty. unfold read_option. unfold_init.
  destruct (k =? "init_xdot")%string eqn:K1; [known_key K1 Hty v|].
  destruct (k =? "cj_scaling")%string eqn:K2; [known_key K2 Hty v|].
  destruct (k =? "calc_ic")%string eqn:K3; [known_key K3 Hty v|].
  destruct (k =? "suppress_algebraic")%string eqn:K4; [known_key K4 Hty v|].
  destruct (k =? "max_step_size")%string eqn:K5; [known_key K5 Hty v|].
  destruct (k =? "abstolv")%string eqn:K6; [known_key K6 Hty v|].
  destruct (k =? "fsens_abstolv")%string eqn:K7; [known_key K7 Hty v|].
  eexists; repeat split; reflexivity.
Qed.

Lemma read_dependent_option_typed (k : string) (v : GenericType) (s : IdasInterface) :
  option_typed k v = true ->
  exists s',
    read_dependent_option (k, v) s = (s', Ok tt)
    /\ base s' = base s
    /\ functions_ s' = functions_ s
    /\ init_xdot_ s' = init_xdot_ s.
Proof.
  unfold option_typed. intros Hty. unfold read_dependent_option. unfold_init.
  destruct (k =? "calc_icB")%string eqn:K1; [known_key K1 Hty v|].
  destruct (k =? "first_time")%string eqn:K2; [known_key K2 Hty v|].
  eexists; repeat split; reflexivity.
Qed.

(** The first loop over well-typed options with distinct keys. *)
Lemma read_options_typed (opts : Dict) :
  forall s : IdasInterface,
    well_typed opts = true ->
    wf_Dict opts ->
    exists s',
      for_each opts read_option s = (s', Ok tt)
      /\ base s' = base s
      /\ functions_ s' = functions_ s
      /\ init_xdot_ s' =
         match lookup "init_xdot" opts with
         | Some (GT_double_vector x) => x
         | _ => init_xdot_ s
         end.
Proof.
  unfold wf_Dict.
  induction opts as [|[k v] opts IH]; intros s Hty Hwf.
  - exists s. repeat split.
  - cbn in Hty. apply andb_true_iff in Hty as [Hkv Hty].
    cbn in Hwf. inversion Hwf as [|? ? Hnotin Hrest]; subst.
    destruct (read_option_typed k v s Hkv) as (s1 & Hrun1 & Hb1 & Hf1 & Hx1).
    destruct (IH s1 Hty Hrest) as (s' & Hrun & Hb & Hf & Hx).
    exists s'. cbn [for_each]. unfold bind at 1. rewrite Hrun1, Hrun.
    split; [reflexivity|]. split; [congruence|]. split; [congruence|].
    rewrite Hx, Hx1. cbn [lookup].
    destruct (k =? "init_xdot")%string eqn:Hk.
    + apply String.eqb_eq in Hk. subst k.
      rewrite (lookup_absent _ _ Hnotin). now destruct v.
    + reflexivity.
Qed.

Lemma read_dependent_options_typed (opts : Dict) :
  forall s : IdasInterface,
    well_typed opts = true ->
    exists s',
      for_each opts read_dependent_option s = (s', Ok tt)
      /\ base s' = base s
      /\ functions_ s' = functions_ s
      /\ init_xdot_ s' = init_xdot_ s.
Proof.
  induction opts as [|[k v] opts IH]; intros s Hty.
  - exists s. repeat split.
  - cbn in Hty. apply andb_true_iff in Hty as [Hkv Hty].
    destruct (read_dependent_option_typed k v s Hkv) as (s1 & Hrun1 & Hb1 & Hf1 & Hx1).
    destruct (IH s1 Hty) as (s' & Hrun & Hb & Hf & Hx).
    exists s'. cbn [for_each]. unfold bind at 1. rewrite Hrun1, Hrun.
    repeat split; congruence.
Qed.

(** What [init] does with the option ["init_xdot"], for well-typed
    options: [v0] is the vector the first loop leaves in [init_xdot_]. *)
Lemma setup_init_xdot (b : SundialsInterface) (opts : Dict) :
  wf_Dict opts ->
  well_typed opts = true ->
  let v0 := match lookup "init_xdot" opts with
            | Some (GT_double_vector x) => x
            | _ => []
            end in
  if is_empty v0 then
    snd (setup b opts) = Ok tt
    /\ init_xdot_ (fst (setup b opts)) = repeat 0%float (nx_ b)
  else if (List.length v0 =? nx_ b)%nat then
    snd (setup b opts) = Ok tt /\ init_xdot_ (fst (setup b opts)) = v0
  else
    snd (setup b opts)
    = Throw (ThrowStd (init_xdot_message (nx_ b) (List.length v0))).
Proof.
  intros Hwf Hty. cbv zeta.
  destruct (setup b opts) as [s o] eqn:Hr. cbn [fst snd]. revert Hr.
  unfold setup, init. unfold bind, modify, this, get.
  match goal with
  | |- context [for_each opts read_option ?s0] =>
      destruct (read_options_typed opts s0 Hty Hwf) as (s1 & Hrun1 & Hb1 & _ & Hx1);
      rewrite Hrun1
  end.
  match goal with
  | |- context [for_each opts read_dependent_option ?s0] =>
      destruct (read_dependent_options_typed opts s0 Hty)
        as (s2 & Hrun2 & Hb2 & _ & Hx2);
      rewrite Hrun2
  end.
  cbn in Hx1, Hb1, Hx2, Hb2.
  rewrite Hx1 in Hx2. rewrite Hb1 in Hb2. clear Hrun1 Hrun2 Hx1 Hb1.
  unfold create_function, set_function, when, bind, modify, lift, ret,
    casadi_assert_message, casadi_error.
  cbn [add_function init_xdot_ base set_init_xdot fst snd].
  rewrite Hx2, Hb2.
  set (v0 := match lookup "init_xdot" opts with
             | Some (GT_double_vector x) => x
             | _ => []
             end) in *.
  clearbody v0.
  destruct (0 <? nrx_ b)%nat, (iterative_ b), v0 as [|x v0]; cbn [is_empty];
    try (intros Hr; inversion Hr; subst; clear Hr; cbn;
         split; [reflexivity | apply resize_empty]).
  all: destruct (List.length (x :: v0) =? nx_ b)%nat;
    intros Hr; inversion Hr; subst; clear Hr; cbn; auto.
Qed.

(** Where the claim as worded fails: the option is supplied, as an empty
    vector, for two differential states.  Its length differs from [nx],
    yet [init] accepts it and takes the zero vector. *)
Lemma init_xdot_supplied_empty_accepted :
  let b := sample_base 2 0 0 0 0 0 0 true in
  let opts := [("init_xdot", GT_double_vector [])] in
  lookup "init_xdot" opts = Some (GT_double_vector [])
  /\ List.length (@nil double) <> nx_ b
  /\ snd (setup b opts) = Ok tt
  /\ init_xdot_ (fst (setup b opts)) = [0; 0]%float.
Proof. cbv zeta. repeat split. cbn. discriminate. Qed.

(** C9, amended: for well-typed options, an ["init_xdot"] that is
    supplied, is not empty and has a length other than [nx] makes [init]
    fail with the configuration error that names both lengths; one of
    length [nx] is taken as it is; and when the option is not supplied, or
    is supplied empty, the initial guess is the zero vector of length
    [nx]. *)
Theorem init_xdot_checked (b : SundialsInterface) (opts : Dict) :
  wf_Dict opts ->
  well_typed opts = true ->
  (forall v, lookup "init_xdot" opts = Some (GT_double_vector v) ->
             v <> [] -> List.length v <> nx_ b ->
             snd (setup b opts)
             = Throw (ThrowStd (init_xdot_message (nx_ b) (List.length v))))
  /\
  (forall v, lookup "init_xdot" opts = Some (GT_double_vector v) ->
             v <> [] -> List.length v = nx_ b ->
             snd (setup b opts) = Ok tt /\ init_xdot_ (fst (setup b opts)) = v)
  /\
  (lookup "init_xdot" opts = None
   \/ lookup "init_xdot" opts = Some (GT_double_vector []) ->
   snd (setup b opts) = Ok tt
   /\ init_xdot_ (fst (setup b opts)) = repeat 0%float (nx_ b)).
Proof.
  intros Hwf Hty. pose proof (setup_init_xdot b opts Hwf Hty) as H.
  cbv zeta in H. split; [|split].
  - intros v Hv Hne Hlen. rewrite Hv in H.
    destruct v as [|x v]; [congruence|]. cbn [is_empty] in H.
    apply Nat.eqb_neq in Hlen. now rewrite Hlen in H.
  - intros v Hv Hne Hlen. rewrite Hv in H.
    destruct v as [|x v]; [congruence|]. cbn [is_empty] in H.
    apply Nat.eqb_eq in Hlen. now rewrite Hlen in H.
  - intros [Hv|Hv]; rewrite Hv in H; exact H.
Qed.

Lemma init_xdot_checked_witness :
  let b := sample_base 2 0 0 0 0 0 0 true in
  snd (setup b [("init_xdot", GT_double_vector [1%float])])
  = Throw (ThrowStd (init_xdot_message 2 1))
  /\ init_xdot_ (fst (setup b [("init_xdot", GT_double_vector [1; 2]%float)]))
     = [1; 2]%float
  /\ init_xdot_ (fst (setup b [("cj_scaling", GT_bool true)])) = [0; 0]%float.
Proof.
  intros b.
  assert (Hwf : forall k v, wf_Dict [(k, v)]).
  { intros k v. unfold wf_Dict. cbn. constructor; [intros []|constructor]. }
  split; [|split].
  - apply (proj1 (init_xdot_checked b [("init_xdot", GT_double_vector [1%float])]
                    (Hwf _ _) eq_refl) [1%float]).
    + reflexivity.
    + discriminate.
    + cbn. lia.
  - apply (proj1 (proj2 (init_xdot_checked b
                           [("init_xdot", GT_double_vector [1; 2]%float)]
                           (Hwf _ _) eq_refl)) [1; 2]%float).
    + reflexivity.
    + discriminate.
    + reflexivity.
  - apply (proj2 (proj2 (init_xdot_checked b [("cj_scaling", GT_bool true)]
                           (Hwf _ _) eq_refl))).
    left. reflexivity.
Defined.

(* ================================================================= *)
(** * Further properties *)

(* ================================================================= *)
(** ** More on doubles *)

Lemma SFadd_opp (x y : spec_float) : SF64add x (SFopp y) = SF64sub x y.
Proof.
  unfold SF64add, SF64sub.
  destruct x as [sx|sx| |sx mx ex], y as [sy|sy| |sy my ey]; cbn;
    try reflexivity;
    try (destruct sx, sy; reflexivity).
Qed.

(** Adding the negation is subtracting. *)
Lemma add_opp (x y : double) : (x + - y)%float = (x - y)%float.
Proof.
  rewrite <- (SF2Prim_Prim2SF (x + - y)%float), <- (SF2Prim_Prim2SF (x - y)%float).
  f_equal. rewrite add_spec, sub_spec, opp_spec. apply SFadd_opp.
Qed.

Lemma binary_round_aux_opp (s : bool) (m e : Z) (l : location) :
  binary_round_aux prec emax (negb s) m e l
  = SFopp (binary_round_aux prec emax s m e l).
Proof.
  unfold binary_round_aux.
  destruct (shr_fexp prec emax m e l) as [mrs e'].
  destruct (shr_fexp prec emax _ e' loc_Exact) as [mrs' e''].
  destruct (shr_m mrs'); try reflexivity.
  destruct (e'' <=? emax - prec)%Z; reflexivity.
Qed.

Lemma SFmul_opp_l (x y : spec_float) : SF64mul (SFopp x) y = SFopp (SF64mul x y).
Proof.
  unfold SF64mul.
  destruct x as [sx|sx| |sx mx ex], y as [sy|sy| |sy my ey]; cbn;
    try reflexivity;
    try (destruct sx, sy; reflexivity).
  rewrite <- binary_round_aux_opp. now destruct sx, sy.
Qed.

(** Rounding is symmetric: the sign can be taken out of a product. *)
Lemma mul_opp_l (x y : double) : (- x * y)%float = (- (x * y))%float.
Proof.
  rewrite <- (SF2Prim_Prim2SF (- x * y)%float), <- (SF2Prim_Prim2SF (- (x * y))%float).
  f_equal. rewrite mul_spec, !opp_spec, mul_spec. apply SFmul_opp_l.
Qed.

Lemma SFmul_one_l (x : spec_float) :
  valid_binary x = true ->
  SF64mul (S754_finite false 4503599627370496 (-52)) x = x.
Proof.
  destruct x as [s|s| |s m e]; intros Hv;
    [destruct s; reflexivity | destruct s; reflexivity | reflexivity | ].
  cbn in Hv. unfold bounded, canonical_mantissa in Hv.
  apply andb_true_iff in Hv as [Hc Hb]. apply Z.eqb_eq in Hc.
  unfold SF64mul, SFmul. cbn [Pos.mul].
  unfold binary_round_aux, shr_fexp. cbn [Zdigits2 digits2_pos].
  match goal with
  | |- context [(fexp prec emax ?a - ?b)%Z] =>
      replace (fexp prec emax a - b)%Z with 52%Z
        by (replace a with (Z.pos (digits2_pos m) + e)%Z by lia; rewrite Hc; lia)
  end.
  cbn [shr shr_record_of_loc iter_pos shr_1 orb shr_m loc_of_shr_record
       round_nearest_even Zdigits2].
  replace (-52 + e + 52)%Z with e by lia.
  rewrite Hc, Z.sub_diag. cbn [shr shr_record_of_loc shr_m].
  rewrite Hb. now destruct s.
Qed.

(** Multiplying by [1.0] changes nothing. *)
Lemma mul_one_l (x : double) : (1 * x)%float = x.
Proof.
  rewrite <- (SF2Prim_Prim2SF (1 * x)%float). rewrite mul_spec.
  change (Prim2SF 1%float) with (S754_finite false 4503599627370496 (-52)).
  rewrite SFmul_one_l by apply Prim2SF_valid. apply SF2Prim_Prim2SF.
Qed.


(* ================================================================= *)
(** ** Vectors *)

Lemma zip_with_ext {A B C} (f g : A -> B -> C) (l : list A) (l' : list B) :
  (forall a b, f a b = g a b) -> zip_with f l l' = zip_with g l l'.
Proof.
  intros H. revert l'. induction l as [|a l IH]; intros [|b l']; cbn;
    try reflexivity. now rewrite H, IH.
Qed.

(** [casadi_axpy] on the first block of a vector: the block is updated
    entry by entry, the rest is kept. *)
Lemma casadi_axpy_block (alpha : double) (x y1 y2 : list double) :
  List.length y1 <= List.length x ->
  casadi_axpy (List.length y1) alpha x (y1 ++ y2)
  = zip_with (fun yi xi => (yi + alpha * xi)%float) y1 x ++ y2.
Proof.
  revert x. induction y1 as [|yi y1 IH]; intros x Hx; cbn.
  - now destruct x, y2.
  - destruct x as [|xi x]; cbn in Hx; [lia|]. cbn. f_equal. apply IH. lia.
Qed.

(** Two outputs written one after the other fill a vector of their joint
    length. *)
Lemma store_two_blocks {A} (a b dst : list A) :
  List.length dst = List.length a + List.length b ->
  store (List.length a) b (store 0 a dst) = a ++ b.
Proof.
  intros Hdst. unfold store. cbn [firstn Nat.add app].
  rewrite firstn_app, firstn_all, Nat.sub_diag. cbn [firstn]. rewrite app_nil_r.
  f_equal. rewrite skipn_all2; [apply app_nil_r|].
  rewrite length_app, length_skipn. lia.
Qed.

Lemma N_VScale_one (x : N_Vector) : N_VScale 1%float x = x.
Proof.
  unfold N_VScale. rewrite <- (map_id x) at 2. apply map_ext, mul_one_l.
Qed.

(* ================================================================= *)
(** ** What the callbacks compute *)

Section CallbackResults.
Context {E L : Type} {X : Collaborators E L}.

Abbreviation Mem := (IdasMemory E L).

Ltac unfold_callback :=
  unfold try_catch_exception, try_catch_int_exception, call, bind, to_mem, get,
    lift, ret, modify.


(** X2: [jtimes]: with the directional derivatives [fwd_ode] and [fwd_alg]
    along [v], the product is [fwd_ode - cj*v] on the differential rows
    and [fwd_alg] on the algebraic rows. *)
Theorem jtimes_computes_product (t : double) (xz xzdot rr v Jv : N_Vector)
    (cj : double) (m : Mem) (fwd_ode fwd_alg : N_Vector) (rest : list N_Vector) :
  let s := m_self m in
  calc_function "jtimesF"
    [[t]; slice 0 (nx_ s) xz; slice (nx_ s) (nz_ s) xz; m_p m;
     slice 0 (nx_ s) v; slice (nx_ s) (nz_ s) v]
  = Ok (fwd_ode :: fwd_alg :: rest) ->
  List.length fwd_ode = nx_ s ->
  List.length fwd_alg = nz_ s ->
  List.length Jv = nx_ s + nz_ s ->
  List.length v = nx_ s + nz_ s ->
  jtimes t xz xzdot rr v Jv cj m
  = (m, (Ok 0%Z,
         zip_with (fun j vi => (j - cj * vi)%float) fwd_ode v ++ fwd_alg)).
Proof.
  cbv zeta. intros Hcalc Hode Halg HJv Hv. unfold jtimes. unfold_callback.
  rewrite Hcalc. cbn [nth]. rewrite <- Hode.
  rewrite store_two_blocks by lia. rewrite casadi_axpy_block by lia.
  do 3 f_equal. apply zip_with_ext. intros j vi.
  now rewrite mul_opp_l, add_opp.
Qed.

(** X3: [resB] and [jtimesB]: the backward residual is [rode + rxzdot] and
    the backward product [fwd_rode + cjB*vB] on the differential rows,
    the algebraic rows being the second output as it is: the signs are
    the opposite of the forward ones. *)
Theorem backward_callbacks_add (t : double)
    (xz xzdot rxz rxzdot rr vB JvB : N_Vector) (cjB : double) (m : Mem)
    (rode ralg : N_Vector) (rest : list N_Vector) :
  let s := m_self m in
  List.length rode = nrx_ s ->
  List.length ralg = nrz_ s ->
  (calc_function "daeB"
     [slice 0 (nrx_ s) rxz; slice (nrx_ s) (nrz_ s) rxz; m_rp m;
      slice 0 (nx_ s) xz; slice (nx_ s) (nz_ s) xz; m_p m; [t]]
   = Ok (rode :: ralg :: rest) ->
   List.length rr = nrx_ s + nrz_ s ->
   List.length rxzdot = nrx_ s + nrz_ s ->
   resB t xz xzdot rxz rxzdot rr m
   = (m, (Ok 0%Z, zip_with (fun r d => (r + d)%float) rode rxzdot ++ ralg)))
  /\
  (calc_function "jtimesB"
     [[t]; slice 0 (nx_ s) xz; slice (nx_ s) (nz_ s) xz; m_p m;
      slice 0 (nrx_ s) rxz; slice (nrx_ s) (nrz_ s) rxz; m_rp m;
      slice 0 (nrx_ s) vB; slice (nrx_ s) (nrz_ s) vB]
   = Ok (rode :: ralg :: rest) ->
   List.length JvB = nrx_ s + nrz_ s ->
   List.length vB = nrx_ s + nrz_ s ->
   jtimesB t xz xzdot rxz rxzdot rr vB JvB cjB m
   = (m, (Ok 0%Z, zip_with (fun j vi => (j + cjB * vi)%float) rode vB ++ ralg))).
Proof.
  cbv zeta. intros Hode Halg. split.
  - intros Hcalc Hrr Hdot. unfold resB. unfold_callback.
    rewrite Hcalc. cbn [nth]. rewrite <- Hode.
    rewrite store_two_blocks by lia. rewrite casadi_axpy_block by lia.
    do 3 f_equal. apply zip_with_ext. intros r d. now rewrite mul_one_l.
  - intros Hcalc HJv Hv. unfold jtimesB. unfold_callback.
    rewrite Hcalc. cbn [nth]. rewrite <- Hode.
    rewrite store_two_blocks by lia. rewrite casadi_axpy_block by lia.
    reflexivity.
Qed.

(** X4: [psolve] with an output vector of its own: the right-hand side is
    copied into it and solved there, so the result is that of the solve
    in place, whatever the output vector held. *)
Theorem psolve_out_of_place (t : double) (xz xzdot rr rvec zvec x : N_Vector)
    (cj delta : double) (m : Mem) :
  linsol_solve (m_linsolF m) rvec = Ok x ->
  psolve t xz xzdot rr rvec (Some zvec) cj delta m = (m, (Ok 0%Z, x))
  /\ psolve t xz xzdot rr rvec (Some zvec) cj delta m
     = psolve t xz xzdot rr rvec None cj delta m.
Proof.
  intros H. unfold psolve. unfold_callback. rewrite N_VScale_one, H. now split.
Qed.

End CallbackResults.


Lemma jtimes_computes_product_witness :
  let W := world (calc_gives [[5]; [7]]%float) obedient_ida in
  let m : IdasMemory double unit :=
    sample_memory (sample_object (sample_base 1 1 0 0 0 0 0 true) []) 0%float in
  @jtimes _ _ W 0%float [1; 2]%float [3; 4]%float [] [1; 1]%float [9; 9]%float
    2%float m
  = (m, (Ok 0%Z, [3; 7]%float)).
Proof.
  intros W m.
  apply (@jtimes_computes_product _ _ W 0%float [1; 2]%float [3; 4]%float []
           [1; 1]%float [9; 9]%float 2%float m [5]%float [7]%float []
           eq_refl eq_refl eq_refl eq_refl eq_refl).
Defined.

Lemma backward_callbacks_add_witness :
  let W := world (calc_gives [[5]; [7]]%float) obedient_ida in
  let m : IdasMemory double unit :=
    sample_memory (sample_object (sample_base 1 1 0 1 1 0 0 true) []) 0%float in
  @resB _ _ W 0%float [1; 2]%float [] [1; 2]%float [3; 4]%float [9; 9]%float m
  = (m, (Ok 0%Z, [8; 7]%float))
  /\ @jtimesB _ _ W 0%float [1; 2]%float [] [1; 2]%float [3; 4]%float
       [9; 9]%float [1; 1]%float [9; 9]%float 2%float m
     = (m, (Ok 0%Z, [7; 7]%float)).
Proof.
  intros W m. split.
  - apply (proj1 (@backward_callbacks_add _ _ W 0%float [1; 2]%float []
                    [1; 2]%float [3; 4]%float [9; 9]%float [1; 1]%float
                    [9; 9]%float 2%float m [5]%float [7]%float []
                    eq_refl eq_refl) eq_refl eq_refl eq_refl).
  - apply (proj2 (@backward_callbacks_add _ _ W 0%float [1; 2]%float []
                    [1; 2]%float [3; 4]%float [9; 9]%float [1; 1]%float
                    [9; 9]%float 2%float m [5]%float [7]%float []
                    eq_refl eq_refl) eq_refl eq_refl eq_refl).
Defined.

Lemma psolve_out_of_place_witness :
  let W := world (calc_gives []) obedient_ida in
  let m : IdasMemory double unit :=
    sample_memory (sample_object (sample_base 2 0 0 0 0 0 0 true) []) 0%float in
  @psolve _ _ W 0%float [] [] [] [4; 8]%float (Some [9; 9]%float) 1%float 0%float m
  = (m, (Ok 0%Z, [4; 8]%float)).
Proof.
  intros W m.
  apply (proj1 (@psolve_out_of_place _ _ W 0%float [] [] [] [4; 8]%float
                  [9; 9]%float [4; 8]%float 1%float 0%float m eq_refl)).
Defined.

(* ================================================================= *)
(** ** The direct linear solver's callbacks, composed *)

Section DirectSolver.
Context {E L : Type} {X : Collaborators E L}.

Abbreviation Mem := (IdasMemory E L).

Ltac unfold_callback :=
  unfold try_catch_exception, try_catch_int_exception, call, bind, to_mem, get,
    lift, ret, modify.

(** X5: [lsetup] evaluates the Jacobian at the engine's current time and
    [cj] and factorizes it: it returns 0 with the Jacobian stored and the
    linear solver updated; when the evaluation throws it returns 1 with
    the warning of [psetup], and so it does when the factorization
    throws, the Jacobian being stored already. *)
Theorem lsetup_outcomes (IDA_mem : IDAMemRec) (xz xzdot resp : N_Vector) (m : Mem) :
  let s := m_self m in
  let args := [[ida_tn IDA_mem]; slice 0 (nx_ s) xz; slice (nx_ s) (nz_ s) xz;
               m_p m; [ida_cj IDA_mem]] in
  (forall jac rest l,
     calc_function "jacF" args = Ok (jac :: rest) ->
     linsol_factorize (m_linsolF m) jac = Ok l ->
     lsetup IDA_mem xz xzdot resp m = (set_linsolF l (set_jac jac m), (Ok 0%Z, tt)))
  /\
  (forall what,
     calc_function "jacF" args = Throw (ThrowStd what) ->
     lsetup IDA_mem xz xzdot resp m
     = (warn ("psetup failed: " ++ what) m, (Ok 1%Z, tt)))
  /\
  (forall jac rest what,
     calc_function "jacF" args = Ok (jac :: rest) ->
     linsol_factorize (m_linsolF m) jac = Throw (ThrowStd what) ->
     lsetup IDA_mem xz xzdot resp m
     = (warn ("psetup failed: " ++ what) (set_jac jac m), (Ok 1%Z, tt))).
Proof.
  cbv zeta. repeat split.
  - intros jac rest l Hcalc Hfact. unfold lsetup, psetup. unfold_callback.
    rewrite Hcalc. cbn. now rewrite Hfact.
  - intros what Hcalc. unfold lsetup, psetup. unfold_callback.
    now rewrite Hcalc.
  - intros jac rest what Hcalc Hfact. unfold lsetup, psetup. unfold_callback.
    rewrite Hcalc. cbn. now rewrite Hfact.
Qed.

(** X6: [lsolve] when the linear solver throws: an exception makes it return
    1, not [-1], with the warning of [psolve], not its own, whereas an
    integer thrown by the linear solver escapes [psolve] and becomes the
    return value of [lsolve]; the right-hand side [b] stays as it was. *)
Theorem lsolve_linear_solver_failure (IDA_mem : IDAMemRec)
    (b weight xz xzdot rr : N_Vector) (m : Mem) :
  (forall what,
     linsol_solve (m_linsolF m) b = Throw (ThrowStd what) ->
     lsolve IDA_mem b weight xz xzdot rr m
     = (warn ("psolve failed: " ++ what) m, (Ok 1%Z, b)))
  /\
  (forall flag,
     linsol_solve (m_linsolF m) b = Throw (ThrowInt flag) ->
     lsolve IDA_mem b weight xz xzdot rr m = (m, (Ok flag, b))).
Proof.
  split.
  - intros what H. unfold lsolve, psolve. unfold_callback. now rewrite H.
  - intros flag H. unfold lsolve, psolve. unfold_callback. now rewrite H.
Qed.

(** X7: [lsetupB] and [lsolveB] when the forward solution cannot be
    interpolated: they return [-1] with a warning of their own, and
    neither the evaluator nor the linear solver is asked anything (the
    collaborators are arbitrary). *)
Theorem backward_interpolation_failure (IDA_mem : IDAMemRec)
    (b weight xzB xzdotB rrB : N_Vector) (m : Mem) :
  let adj := ida_adj_mem IDA_mem in
  ia_noInterp adj = false ->
  fst (fst (ia_getY adj (ida_tn IDA_mem))) <> IDA_SUCCESS ->
  lsetupB IDA_mem xzB xzdotB rrB m
  = (warn "lsetupB failed: Could not interpolate forward states" m, (Ok (-1)%Z, tt))
  /\ lsolveB IDA_mem b weight xzB xzdotB rrB m
     = (warn "lsolveB failed: Could not interpolate forward states" m,
        (Ok (-1)%Z, b)).
Proof.
  cbv zeta. intros Hno Hflag.
  unfold lsetupB, lsolveB, interpolate_forward. rewrite Hno. cbn [negb].
  destruct (ia_getY (ida_adj_mem IDA_mem) (ida_tn IDA_mem)) as [[flag yy] yp].
  cbn [fst] in Hflag. apply Z.eqb_neq in Hflag. rewrite Hflag. cbn [negb].
  unfold_callback. unfold casadi_error. now split.
Qed.

(** X8: [lsetupB] and [lsolveB] work at the interpolated forward state: when
    the interpolation succeeds with the state [(yy, yp)], they do what
    they do with interpolation switched off and [(yy, yp)] in the
    temporaries of the adjoint memory, whatever the temporaries held. *)
Theorem backward_callbacks_use_interpolated_state (tn cj cjratio : double)
    (getY : double -> Z * N_Vector * N_Vector) (tmp1 tmp2 yy yp : N_Vector)
    (b weight xzB xzdotB rrB : N_Vector) (m : Mem) :
  let interpolating := mkIDAMem tn cj cjratio (mkAdj false getY tmp1 tmp2) in
  let stored := mkIDAMem tn cj cjratio (mkAdj true getY yy yp) in
  getY tn = (IDA_SUCCESS, yy, yp) ->
  lsetupB interpolating xzB xzdotB rrB m = lsetupB stored xzB xzdotB rrB m
  /\ lsolveB interpolating b weight xzB xzdotB rrB m
     = lsolveB stored b weight xzB xzdotB rrB m.
Proof.
  cbv zeta. intros Hy.
  unfold lsetupB, lsolveB, interpolate_forward.
  cbn [ida_tn ida_cj ida_cjratio ida_adj_mem ia_noInterp ia_getY ia_yyTmp
       ia_ypTmp negb].
  rewrite Hy. now split.
Qed.

End DirectSolver.

Lemma lsetup_outcomes_witness :
  let m : IdasMemory double unit :=
    sample_memory (sample_object (sample_base 1 0 0 0 0 0 0 true) []) 0%float in
  let now := mkIDAMem 0%float 1%float 1%float (mkAdj true (fun _ => (0%Z, [], [])) [] []) in
  let W := world (calc_gives [[3]]%float) obedient_ida in
  let Wcalc := world (calc_throws (ThrowStd "boom")) obedient_ida in
  let Wfact : Collaborators double unit :=
    {| calc_function := calc_gives [[3]]%float;
       linsol_factorize := fun _ _ => Throw (ThrowStd "singular");
       linsol_solve := fun _ v => Ok v;
       ida := obedient_ida;
       IDAGetReturnFlagName := sample_flag_name;
       CASADI_ASSERT_WHERE := sample_where;
       show_double := fun _ => "?" |} in
  @lsetup _ _ W now [1%float] [0%float] [] m
  = (set_linsolF tt (set_jac [3%float] m), (Ok 0%Z, tt))
  /\ @lsetup _ _ Wcalc now [1%float] [0%float] [] m
     = (@warn double unit "psetup failed: boom" m, (Ok 1%Z, tt))
  /\ @lsetup _ _ Wfact now [1%float] [0%float] [] m
     = (@warn double unit "psetup failed: singular" (set_jac [3%float] m),
        (Ok 1%Z, tt)).
Proof.
  intros m now W Wcalc Wfact. split; [|split].
  - apply (proj1 (@lsetup_outcomes _ _ W now [1%float] [0%float] [] m)
             [3%float] [] tt eq_refl eq_refl).
  - apply (proj1 (proj2 (@lsetup_outcomes _ _ Wcalc now [1%float] [0%float] [] m))
             "boom" eq_refl).
  - apply (proj2 (proj2 (@lsetup_outcomes _ _ Wfact now [1%float] [0%float] [] m))
             [3%float] [] "singular" eq_refl eq_refl).
Defined.

Lemma lsolve_linear_solver_failure_witness :
  let m : IdasMemory double unit :=
    sample_memory (sample_object (sample_base 2 0 0 0 0 0 0 true) []) 0%float in
  let now := mkIDAMem 0%float 1%float 1%float (mkAdj true (fun _ => (0%Z, [], [])) [] []) in
  let Wstd := world_linsol_throws (ThrowStd "boom") obedient_ida in
  let Wint := world_linsol_throws (ThrowInt 7) obedient_ida in
  @lsolve _ _ Wstd now [4; 8]%float [] [] [] [] m
  = (@warn double unit "psolve failed: boom" m, (Ok 1%Z, [4; 8]%float))
  /\ @lsolve _ _ Wint now [4; 8]%float [] [] [] [] m = (m, (Ok 7%Z, [4; 8]%float)).
Proof.
  intros m now Wstd Wint. split.
  - apply (proj1 (@lsolve_linear_solver_failure _ _ Wstd now [4; 8]%float [] [] []
                    [] m) "boom" eq_refl).
  - apply (proj2 (@lsolve_linear_solver_failure _ _ Wint now [4; 8]%float [] [] []
                    [] m) 7%Z eq_refl).
Defined.

Lemma backward_interpolation_failure_witness :
  let m : IdasMemory double unit :=
    sample_memory (sample_object (sample_base 1 0 0 1 0 0 0 true) []) 0%float in
  let W := world (calc_gives [[3]]%float) obedient_ida in
  let lost :=
    mkIDAMem 0%float 1%float 1%float (mkAdj false (fun _ => ((-1)%Z, [], [])) [] []) in
  @lsetupB _ _ W lost [1%float] [0%float] [] m
  = (@warn double unit "lsetupB failed: Could not interpolate forward states" m,
     (Ok (-1)%Z, tt))
  /\ @lsolveB _ _ W lost [4%float] [] [1%float] [0%float] [] m
     = (@warn double unit "lsolveB failed: Could not interpolate forward states" m,
        (Ok (-1)%Z, [4%float])).
Proof.
  intros m W lost.
  apply (@backward_interpolation_failure _ _ W lost [4%float] [] [1%float]
           [0%float] [] m eq_refl).
  cbn. discriminate.
Defined.

Lemma backward_callbacks_use_interpolated_state_witness :
  let m : IdasMemory double unit :=
    sample_memory (sample_object (sample_base 1 0 0 1 0 0 0 true) []) 0%float in
  let W := world (calc_gives [[3]]%float) obedient_ida in
  let getY := fun _ : double => (0%Z, [5%float], [6%float]) in
  let interpolating := mkIDAMem 0%float 1%float 1%float (mkAdj false getY [] []) in
  let stored :=
    mkIDAMem 0%float 1%float 1%float (mkAdj true getY [5%float] [6%float]) in
  @lsetupB _ _ W interpolating [1%float] [0%float] [] m
  = @lsetupB _ _ W stored [1%float] [0%float] [] m
  /\ @lsolveB _ _ W interpolating [4%float] [] [1%float] [0%float] [] m
     = @lsolveB _ _ W stored [4%float] [] [1%float] [0%float] [] m.
Proof.
  intros m W getY interpolating stored.
  apply (@backward_callbacks_use_interpolated_state _ _ W 0%float 1%float 1%float
           getY [] [] [5%float] [6%float] [4%float] [] [1%float] [0%float] [] m
           eq_refl).
Defined.


(* ================================================================= *)
(** ** Running a sequence of operations to its end *)

Lemma bind_Ok_inv {S A B} (c : M S A) (k : A -> M S B) (s s' : S) (b : B) :
  bind c k s = (s', Ok b) ->
  exists s1 a, c s = (s1, Ok a) /\ k a s1 = (s', Ok b).
Proof.
  unfold bind. destruct (c s) as [s1 [a|e]]; intros H; [|discriminate H].
  now exists s1, a.
Qed.

Lemma modify_inv {S} (f : S -> S) (s s' : S) u : modify f s = (s', Ok u) -> s' = f s.
Proof. unfold modify. now intros [= <-]. Qed.

Lemma get_inv {S} (s s' a : S) : get s = (s', Ok a) -> s' = s /\ a = s.
Proof. unfold get. now intros [= <- <-]. Qed.

Lemma ret_inv {S A} (a a' : A) (s s' : S) : ret a s = (s', Ok a') -> s' = s.
Proof. unfold ret. now intros [= <-]. Qed.

Lemma lift_inv {S A} (o : outcome A) (s s' : S) a :
  lift o s = (s', Ok a) -> s' = s /\ o = Ok a.
Proof. unfold lift. now intros [= <- <-]. Qed.

Lemma partition_vector_stored (nd na : nat) :
  store nd (repeat 0%float na) (store 0 (repeat 1%float nd) (N_VNew_Serial (nd + na)))
  = partition_vector nd na.
Proof.
  unfold partition_vector, N_VNew_Serial.
  rewrite <- (repeat_length 1%float nd) at 1.
  apply store_two_blocks. now rewrite !repeat_length.
Qed.

Lemma N_VConst_new (c : double) (n : nat) : N_VConst c (N_VNew_Serial n) = repeat c n.
Proof.
  unfold N_VConst, N_VNew_Serial. induction n; cbn; [reflexivity | now f_equal].
Qed.

Lemma store_new (v : list double) : store 0 v (N_VNew_Serial (List.length v)) = v.
Proof. apply store_whole. unfold N_VNew_Serial. now rewrite repeat_length. Qed.

Ltac simpl_mem_in H :=
  cbn [m_self m_p m_rp m_t m_xz m_xzdot m_q m_rxz m_rxzdot m_rq m_jac m_jacB
       m_linsolF m_linsolB m_mem m_ncheck m_whichB m_first_callB m_statsF
       m_statsB m_userOut m_calls
       set_t set_xz set_xzdot set_q set_rxz set_rxzdot set_rq set_jac set_jacB
       set_linsolF set_linsolB set_mem set_ncheck set_whichB set_first_callB
       set_statsF set_statsB set_userOut set_calls set_p set_rp fst snd app when] in H.

Ltac simpl_mem :=
  cbn [m_self m_p m_rp m_t m_xz m_xzdot m_q m_rxz m_rxzdot m_rq m_jac m_jacB
       m_linsolF m_linsolB m_mem m_ncheck m_whichB m_first_callB m_statsF
       m_statsB m_userOut m_calls
       set_t set_xz set_xzdot set_q set_rxz set_rxzdot set_rq set_jac set_jacB
       set_linsolF set_linsolB set_mem set_ncheck set_whichB set_first_callB
       set_statsF set_statsB set_userOut set_calls set_p set_rp fst snd app when].

Section InitMemory.
Context {E L : Type} {X : Collaborators E L}.

Abbreviation Mem := (IdasMemory E L).

Lemma after_calls_trans (n1 n2 : list IdaCall) (m m1 m2 : Mem) :
  after_calls n1 m m1 -> after_calls n2 m1 m2 -> after_calls (n2 ++ n1) m m2.
Proof.
  intros [h1 ->] [h2 ->]. exists h2. simpl_mem. now rewrite app_assoc.
Qed.

Lemma after_calls_refl (m : Mem) : after_calls [] m m.
Proof. exists (m_mem m). now destruct m. Qed.

Lemma engine_after (c : IdaCall) (m m' : Mem) (r : IdaReply) :
  engine c m = (m', Ok r) -> after_calls [c] m m'.
Proof.
  unfold engine. destruct (ida (m_mem m) c) as [e' r']. intros [= <- _].
  now exists e'.
Qed.

Lemma THROWING_after (line : nat) (c : IdaCall) (m m' : Mem) u :
  THROWING line c no_out m = (m', Ok u) -> after_calls [c] m m'.
Proof.
  unfold THROWING, bind, engine, modify, lift, no_out.
  destruct (ida (m_mem m) c) as [e' r].
  destruct (idas_error _ _); intros [= <-]. now exists e'.
Qed.

(** Inversion of a successful run, one operation after the other: [H1]
    is the run of the first operation, [H] that of the rest.  Each state
    on the way is written out and simplified at once.  [invert_segment]
    is for the runs of several operations that have a lemma of their own. *)
Ltac invert_segment H1 := fail.

Ltac invert_first H1 :=
  lazymatch type of H1 with
  | THROWING _ _ no_out _ = _ => apply THROWING_after in H1; destruct H1 as [? ->]
  | engine _ _ = _ => apply engine_after in H1; destruct H1 as [? ->]
  | modify _ _ = _ => apply modify_inv in H1; subst
  | to_mem _ = _ => apply get_inv in H1; destruct H1; subst
  | ret _ _ = _ => apply ret_inv in H1; subst
  | lift _ _ = _ => apply lift_inv in H1; destruct H1 as [? _]; subst
  | bind _ _ _ = _ => invert_run H1
  | _ =>
      first [ invert_segment H1; destruct H1 as [? ->]
            | lazymatch type of H1 with
              | when ?b _ _ = _ =>
                  let Hb := fresh "Hb" in
                  unfold when in H1; destruct b eqn:Hb; invert_first H1
              end
            | idtac ]
  end
with invert_run H :=
  lazymatch type of H with
  | bind _ _ _ = (_, Ok _) =>
      let m1 := fresh "m" in
      let a := fresh "a" in
      let H1 := fresh "H" in
      apply bind_Ok_inv in H; destruct H as (m1 & a & H1 & H);
      cbv beta in H; revert H; invert_first H1; intros H; simpl_mem_in H;
      invert_run H
  | _ => invert_first H
  end.

(** The states along a run, put together. *)
Ltac close_after :=
  repeat match goal with
    | Ha : after_calls _ _ _ |- _ => destruct Ha as [? ->]
    | Ha : ?x = _ |- _ => is_var x; subst x
    end;
  first [ apply after_calls_refl
        | unfold after_calls; eexists; simpl_mem; reflexivity ].

Lemma linear_solver_after (s : IdasInterface) (m m' : Mem) u :
  (if iterative_ s then
     match itsol_ s with
     | SD_GMRES => THROWING 333 (IDASpgmr (max_krylov_ s)) no_out
     | SD_BCGSTAB => THROWING 334 (IDASpbcg (max_krylov_ s)) no_out
     | SD_TFQMR => THROWING 335 (IDASptfqmr (max_krylov_ s)) no_out
     end ;;
     THROWING 337 IDASpilsSetJacTimesVecFn no_out ;;
     when (use_precon_ s) (THROWING 338 IDASpilsSetPreconditioner no_out)
   else
     _ <- engine IDAMem_set_linear_solver ;; ret tt)%monad m = (m', Ok u) ->
  after_calls (linear_solver_calls s) m m'.
Proof.
  unfold linear_solver_calls, when. intros H.
  destruct (iterative_ s); [|invert_run H; close_after].
  apply bind_Ok_inv in H. destruct H as (m1 & a & H1 & H).
  destruct (use_precon_ s); invert_run H;
    destruct (itsol_ s); invert_first H1; close_after.
Qed.

Lemma quadrature_after (s : IdasInterface) (m m' : Mem) u :
  when (0 <? nq_ s)%nat
    (m <- to_mem ;;
     THROWING 351 (IDAQuadInit (m_q m)) no_out ;;
     when (quad_err_con_ s)
       (THROWING 355 (IDASetQuadErrCon true) no_out ;;
        THROWING 359 (IDAQuadSStolerances (reltol_ s) (abstol_ s)) no_out))%monad m
  = (m', Ok u) ->
  after_calls (quadrature_calls s (m_q m)) m m'.
Proof.
  unfold quadrature_calls, when. intros H.
  destruct (0 <? nq_ s)%nat; [|invert_run H; close_after].
  destruct (quad_err_con_ s); invert_run H; close_after.
Qed.

Lemma tolerance_after (s : IdasInterface) (m m' : Mem) u :
  (if negb (is_empty (abstolv_ s)) then
     let nv_abstol := N_VNew_Serial (List.length (abstolv_ s)) in
     let nv_abstol := store 0 (abstolv_ s) nv_abstol in
     THROWING 309 (IDASVtolerances (reltol_ s) nv_abstol) no_out
   else
     THROWING 313 (IDASStolerances (reltol_ s) (abstol_ s)) no_out) m
  = (m', Ok u) ->
  after_calls [tolerance_call s] m m'.
Proof.
  unfold tolerance_call. cbv zeta. rewrite store_new. intros H.
  destruct (is_empty (abstolv_ s)); cbn [negb] in H; invert_run H; close_after.
Qed.

Lemma adjoint_after (s : IdasInterface) (m m' : Mem) u :
  when (0 <? nrx_ s)%nat
    (let interpType :=
       match interp_ s with SD_HERMITE => IDA_HERMITE | _ => IDA_POLYNOMIAL end in
     THROWING 376 (IDAAdjInit (steps_per_checkpoint_ s) interpType) no_out) m
  = (m', Ok u) ->
  after_calls (adjoint_calls s) m m'.
Proof.
  unfold adjoint_calls, when. cbv zeta. intros H.
  destruct (0 <? nrx_ s)%nat; invert_run H; close_after.
Qed.

Ltac invert_segment H1 ::=
  first [ apply tolerance_after in H1
        | apply linear_solver_after in H1
        | apply quadrature_after in H1
        | apply adjoint_after in H1 ].

(** The calls of a successful [init_memory], and what it leaves in the
    memory block apart from them. *)
Lemma init_memory_success (m m' : Mem) u :
  init_memory m = (m', Ok u) ->
  let s := m_self m in
  m_calls m' = init_memory_calls s ++ m_calls m
  /\ m_self m' = s
  /\ m_xz m' = repeat 0%float (nx_ s + nz_ s)
  /\ m_xzdot m' = repeat 0%float (nx_ s + nz_ s)
  /\ m_first_callB m' = true.
Proof.
  unfold init_memory, SundialsInterface_init_memory. intros H.
  invert_run H.
  all: simpl_mem; unfold init_memory_calls, adjoint_calls.
  all: rewrite Hb, partition_vector_stored, !N_VConst_new, <- !app_assoc.
  all: repeat split; reflexivity.
Qed.
End InitMemory.

(* ================================================================= *)
(** ** Operations that cannot fail *)

Lemma succeeds_bind {S A B} (c : M S A) (k : A -> M S B) :
  succeeds c -> (forall a, succeeds (k a)) -> succeeds (bind c k).
Proof.
  intros Hc Hk s. destruct (Hc s) as (s1 & a & H1).
  destruct (Hk a s1) as (s2 & b & H2). exists s2, b.
  unfold bind. now rewrite H1.
Qed.

Lemma succeeds_ret {S A} (a : A) : succeeds (@ret S A a).
Proof. intros s. now exists s, a. Qed.

Lemma succeeds_get {S} : succeeds (@get S).
Proof. intros s. now exists s, s. Qed.

Lemma succeeds_modify {S} (f : S -> S) : succeeds (modify f).
Proof. intros s. now exists (f s), tt. Qed.

Lemma succeeds_when {S} (b : bool) (c : M S unit) : succeeds c -> succeeds (when b c).
Proof. intros H. destruct b; [exact H | apply succeeds_ret]. Qed.

(* ================================================================= *)
(** ** The outcomes of [init_memory] *)

Section InitMemoryOutcomes.
Context {E L : Type} {X : Collaborators E L}.

Abbreviation Mem := (IdasMemory E L).

Lemma succeeds_engine (c : IdaCall) : succeeds (engine c).
Proof.
  intros m. unfold engine. destruct (ida (m_mem m) c) as [e' r]. eauto.
Qed.

Lemma succeeds_THROWING (line : nat) (c : IdaCall) :
  (forall e, (0 <= r_flag (snd (ida e c)))%Z) -> succeeds (THROWING line c no_out).
Proof.
  intros Hc m. unfold THROWING, bind, engine, modify, lift, no_out, idas_error.
  specialize (Hc (m_mem m)). destruct (ida (m_mem m) c) as [e' r].
  cbn [snd] in Hc. unfold IDA_SUCCESS.
  destruct (Z.geb_spec (r_flag r) 0); [eauto | lia].
Qed.

Lemma succeeds_create (msg : string) (rest : M Mem unit) :
  (forall e, fst (ida e IDACreate) <> None) ->
  succeeds rest ->
  succeeds (_ <- engine IDACreate ;;
            m <- to_mem ;;
            lift (casadi_assert_message (is_some (m_mem m)) msg) ;;
            rest).
Proof.
  intros Hcreate Hrest m. unfold bind, engine, to_mem, get, lift.
  specialize (Hcreate (m_mem m)). destruct (ida (m_mem m) IDACreate) as [e' r].
  cbn [fst] in Hcreate. cbn [m_mem set_calls set_mem].
  destruct e' as [h|]; [|now elim Hcreate]. cbn. apply Hrest.
Qed.

(** X10: The calls of a successful [init_memory] are those of
    [init_memory_calls], in that order, on top of the earlier ones. *)
Theorem init_memory_calls_in_order (m m' : Mem) (u : unit) :
  init_memory m = (m', Ok u) ->
  m_calls m' = init_memory_calls (m_self m) ++ m_calls m.
Proof. intros H. apply (init_memory_success _ _ _ H). Qed.

(** X11: A successful [init_memory] leaves the state and its derivative as
    zero vectors of length [nx + nz], marks the backward problem as not
    yet created, and keeps the object. *)
Theorem init_memory_zero_state (m m' : Mem) (u : unit) :
  init_memory m = (m', Ok u) ->
  let s := m_self m in
  m_self m' = s
  /\ m_xz m' = repeat 0%float (nx_ s + nz_ s)
  /\ m_xzdot m' = repeat 0%float (nx_ s + nz_ s)
  /\ m_first_callB m' = true.
Proof. intros H. apply (init_memory_success _ _ _ H). Qed.

(** X12: When the engine cannot create its memory block, [init_memory] fails
    with the creation message after that one call. *)
Theorem init_memory_creation_failure (m : Mem) :
  fst (ida (m_mem m) IDACreate) = None ->
  snd (init_memory m) = Throw (ThrowStd "IDACreate: Creation failed")
  /\ m_calls (fst (init_memory m)) = IDACreate :: m_calls m
  /\ m_mem (fst (init_memory m)) = None.
Proof.
  intros H. unfold init_memory, SundialsInterface_init_memory.
  unfold bind, to_mem, get, modify, engine, lift. cbn.
  destruct (ida (m_mem m) IDACreate) as [e' r]. cbn [fst] in H. subst e'.
  cbn. auto.
Qed.

(** X13: The flag of [IDAInit] is not looked at: with an engine that creates
    its memory block and accepts every other call, [init_memory]
    succeeds whatever [IDAInit] returns. *)
Theorem init_memory_ignores_IDAInit_flag (m : Mem) :
  (forall e, fst (ida e IDACreate) <> None) ->
  (forall e c, fcn_name c <> "IDAInit" -> (0 <= r_flag (snd (ida e c)))%Z) ->
  exists m', init_memory m = (m', Ok tt).
Proof.
  intros Hcreate Haccept.
  assert (Hthrowing : forall line c,
             fcn_name c <> "IDAInit" -> succeeds (THROWING line c no_out)).
  { intros line c Hc. apply succeeds_THROWING. intros e. now apply Haccept. }
  assert (H : succeeds init_memory).
  { unfold init_memory, SundialsInterface_init_memory, to_mem.
    apply succeeds_bind.
    { repeat lazymatch goal with
             | |- succeeds (bind _ _) => apply succeeds_bind; [|intros ?]
             | |- succeeds get => apply succeeds_get
             | |- succeeds (modify _) => apply succeeds_modify
             end. }
    intros _. apply succeeds_bind; [apply succeeds_get|]. intros m0. cbv zeta.
    apply succeeds_create; [exact Hcreate|].
    repeat lazymatch goal with
           | |- succeeds (THROWING _ _ no_out) => apply Hthrowing; cbn; discriminate
           | |- succeeds (engine _) => apply succeeds_engine
           | |- succeeds (bind _ _) => apply succeeds_bind; [|intros ?]
           | |- succeeds get => apply succeeds_get
           | |- succeeds (modify _) => apply succeeds_modify
           | |- succeeds (ret _) => apply succeeds_ret
           | |- succeeds (when _ _) => apply succeeds_when
           | |- succeeds (if ?b then _ else _) => destruct b
           | |- succeeds (match ?i with _ => _ end) => destruct i
           end. }
  destruct (H m) as (m' & [] & Hm). now exists m'.
Qed.

End InitMemoryOutcomes.

Lemma init_memory_calls_in_order_witness :
  let W := world (calc_gives []) obedient_ida in
  let m : IdasMemory double unit :=
    sample_memory (sample_object (sample_base 2 1 1 1 0 0 0 true) []) 0%float in
  m_calls (fst (@init_memory _ _ W m)) = init_memory_calls (m_self m) ++ m_calls m.
Proof.
  intros W m.
  assert (H : @init_memory _ _ W m = (fst (@init_memory _ _ W m), Ok tt))
    by (vm_compute; reflexivity).
  exact (@init_memory_calls_in_order _ _ W m _ tt H).
Defined.

Lemma init_memory_zero_state_witness :
  let W := world (calc_gives []) obedient_ida in
  let m : IdasMemory double unit :=
    sample_memory (sample_object (sample_base 2 1 1 1 0 0 0 true) []) 0%float in
  m_self (fst (@init_memory _ _ W m)) = m_self m
  /\ m_xz (fst (@init_memory _ _ W m)) = repeat 0%float (nx_ (m_self m) + nz_ (m_self m))
  /\ m_xzdot (fst (@init_memory _ _ W m))
     = repeat 0%float (nx_ (m_self m) + nz_ (m_self m))
  /\ m_first_callB (fst (@init_memory _ _ W m)) = true.
Proof.
  intros W m.
  assert (H : @init_memory _ _ W m = (fst (@init_memory _ _ W m), Ok tt))
    by (vm_compute; reflexivity).
  exact (@init_memory_zero_state _ _ W m _ tt H).
Defined.

Lemma init_memory_creation_failure_witness :
  let W := world (calc_gives [])
             (fun (_ : option unit) (_ : IdaCall) =>
                (None, mkReply 0 0%float [] [] [] 0 no_stats)) in
  let m : IdasMemory unit unit :=
    sample_memory (sample_object (sample_base 2 1 0 0 0 0 0 true) []) 0%float in
  snd (@init_memory _ _ W m) = Throw (ThrowStd "IDACreate: Creation failed").
Proof.
  intros W m. apply (@init_memory_creation_failure _ _ W m). reflexivity.
Defined.

Lemma init_memory_ignores_IDAInit_flag_witness :
  let W := world (calc_gives [])
             (fun (_ : option unit) (c : IdaCall) =>
                (Some tt,
                 mkReply (match c with IDAInit _ _ _ => -1 | _ => 0 end)%Z
                   0%float [] [] [] 0 no_stats)) in
  let m : IdasMemory unit unit :=
    sample_memory (sample_object (sample_base 2 1 0 0 0 0 0 true) []) 0%float in
  exists m', @init_memory _ _ W m = (m', Ok tt).
Proof.
  intros W m. apply (@init_memory_ignores_IDAInit_flag _ _ W m).
  - intros e. cbn. discriminate.
  - intros e c Hc. destruct c; cbn; try lia. now elim Hc.
Defined.

(* ================================================================= *)
(** ** [advance] and [retreat], call by call *)

Section SessionRuns.
Context {E L : Type} {X : Collaborators E L}.

Abbreviation Mem := (IdasMemory E L).

Lemma THROWING_inv (line : nat) (c : IdaCall) (out : IdaReply -> Mem -> Mem)
    (m m' : Mem) u :
  THROWING line c out m = (m', Ok u) ->
  exists h r, m' = out r (set_calls (c :: m_calls m) (set_mem h m)).
Proof.
  unfold THROWING, bind, engine, modify, lift.
  destruct (ida (m_mem m) c) as [e' r].
  destruct (idas_error _ _); intros [= <-]. now exists e', r.
Qed.

Lemma assert_inv (cond : bool) (msg : string) (m m' : Mem) u :
  lift (casadi_assert_message cond msg) m = (m', Ok u) -> m' = m /\ cond = true.
Proof.
  unfold lift, casadi_assert_message, casadi_error.
  destruct cond; intros [= <-]; auto.
Qed.

End SessionRuns.

Ltac simpl_session_in H :=
  cbn [m_self m_p m_rp m_t m_xz m_xzdot m_q m_rxz m_rxzdot m_rq m_jac m_jacB
       m_linsolF m_linsolB m_mem m_ncheck m_whichB m_first_callB m_statsF
       m_statsB m_userOut m_calls
       set_t set_xz set_xzdot set_q set_rxz set_rxzdot set_rq set_jac set_jacB
       set_linsolF set_linsolB set_mem set_ncheck set_whichB set_first_callB
       set_statsF set_statsB set_userOut set_calls set_p set_rp
       no_out out_solve out_solveF out_getB out_getQuadB fst snd app when] in H.

Ltac simpl_session :=
  cbn [m_self m_p m_rp m_t m_xz m_xzdot m_q m_rxz m_rxzdot m_rq m_jac m_jacB
       m_linsolF m_linsolB m_mem m_ncheck m_whichB m_first_callB m_statsF
       m_statsB m_userOut m_calls
       set_t set_xz set_xzdot set_q set_rxz set_rxzdot set_rq set_jac set_jacB
       set_linsolF set_linsolB set_mem set_ncheck set_whichB set_first_callB
       set_statsF set_statsB set_userOut set_calls set_p set_rp
       no_out out_solve out_solveF out_getB out_getQuadB fst snd app when].

Ltac invert_session_first H1 :=
  lazymatch type of H1 with
  | THROWING _ _ _ _ = _ => apply THROWING_inv in H1; destruct H1 as (? & ? & ->)
  | modify _ _ = _ => apply modify_inv in H1; subst
  | to_mem _ = _ => apply get_inv in H1; destruct H1; subst
  | ret _ _ = (_, Ok _) =>
      let Hr := fresh "Hret" in
      pose proof H1 as Hr; apply ret_inv in H1; subst;
      unfold ret in Hr; injection Hr as Hr
  | lift (casadi_assert_message _ _) _ = _ =>
      let Hc := fresh "Hcheck" in
      apply assert_inv in H1; destruct H1 as [? Hc]; subst
  | bind _ _ _ = _ => invert_session_run H1
  | when ?b _ _ = _ =>
      let Hb := fresh "Hb" in
      unfold when in H1; destruct b eqn:Hb; invert_session_first H1
  | (if ?b then _ else _) _ = _ =>
      let Hb := fresh "Hb" in
      destruct b eqn:Hb; invert_session_first H1
  | _ => idtac
  end
with invert_session_run H :=
  lazymatch type of H with
  | bind _ _ _ = (_, Ok _) =>
      let m1 := fresh "m" in
      let a := fresh "a" in
      let H1 := fresh "H" in
      apply bind_Ok_inv in H; destruct H as (m1 & a & H1 & H);
      cbv beta in H; revert H; invert_session_first H1; intros H;
      simpl_session_in H; invert_session_run H
  | _ => invert_session_first H
  end.

Section AdvanceRetreat.
Context {E L : Type} {X : Collaborators E L}.

Abbreviation Mem := (IdasMemory E L).

(** X14: The engine calls of a successful [advance] that is not yet at the
    target: the forward step from the time and state in memory (taped,
    with the checkpoint counter, exactly when there are backward
    states), the retrieval of the quadratures when there are any, the
    statistics. *)
Theorem advance_calls_in_order (t : double) (m m' : Mem)
    (out : N_Vector * N_Vector * N_Vector) :
  dge (fabs (m_t m - t)%float) ttol = true ->
  advance t m = (m', Ok out) ->
  let s := m_self m in
  m_calls m'
  = IDAGetIntegratorStats false
    :: (if (0 <? nq_ s)%nat then [IDAGetQuad (m_q m)] else [])
    ++ [if (0 <? nrx_ s)%nat
        then IDASolveF t (m_t m) (m_xz m) (m_xzdot m) IDA_NORMAL (m_ncheck m)
        else IDASolve t (m_t m) (m_xz m) (m_xzdot m) IDA_NORMAL]
    ++ m_calls m.
Proof.
  intros Hstep H. cbv zeta. unfold advance in H.
  invert_session_run H.
  all: try (rewrite Hstep in *; discriminate).
  all: simpl_session; reflexivity.
Qed.

(** X15: What a successful [advance] hands back is the state in memory after
    the call: the first [nx] entries of [xz], the [nz] entries after
    them, the first [nq] entries of [q]. *)
Theorem advance_returns_memory_state (t : double) (m m' : Mem)
    (out : N_Vector * N_Vector * N_Vector) :
  advance t m = (m', Ok out) ->
  let s := m_self m in
  out = (firstn (nx_ s) (m_xz m'), firstn (nz_ s) (skipn (nx_ s) (m_xz m')),
         firstn (nq_ s) (m_q m'))
  /\ m_self m' = s.
Proof.
  intros H. cbv zeta. unfold advance in H.
  invert_session_run H.
  all: simpl_session; subst out; split; reflexivity.
Qed.

(** X16: The engine calls of a successful [retreat] to an earlier time: the
    backward step, the retrieval of the backward state into the vectors
    in memory, that of the backward quadratures when there are any (at
    the time the state was retrieved for), the statistics. *)
Theorem retreat_calls_in_order (t : double) (m m' : Mem)
    (out : N_Vector * N_Vector * N_Vector) :
  (t <? m_t m)%float = true ->
  retreat t m = (m', Ok out) ->
  let s := m_self m in
  exists tB,
    m_calls m'
    = IDAGetIntegratorStats true
      :: (if (0 <? nrq_ s)%nat then [IDAGetQuadB (m_whichB m) tB (m_rq m)] else [])
      ++ [IDAGetB (m_whichB m) (m_t m) (m_rxz m) (m_rxzdot m);
          IDASolveB t IDA_NORMAL]
      ++ m_calls m
    /\ out = (firstn (nrx_ s) (m_rxz m'), firstn (nrz_ s) (skipn (nrx_ s) (m_rxz m')),
              firstn (nrq_ s) (m_rq m')).
Proof.
  intros Hstep H. cbv zeta. unfold retreat in H.
  invert_session_run H.
  all: try (rewrite Hstep in *; discriminate).
  all: simpl_session; subst out.
  all: first [ eexists; split; reflexivity | exists 0%float; split; reflexivity ].
Qed.

(** X17: A forward step that fails: [advance] throws at once, without
    retrieving quadratures or statistics, and the time, the state and
    its derivative in memory are those the failed step wrote. *)
Theorem advance_failed_step (t : double) (m : Mem) :
  let s := m_self m in
  let c := if (0 <? nrx_ s)%nat
           then IDASolveF t (m_t m) (m_xz m) (m_xzdot m) IDA_NORMAL (m_ncheck m)
           else IDASolve t (m_t m) (m_xz m) (m_xzdot m) IDA_NORMAL in
  let r := snd (ida (m_mem m) c) in
  dge t (grid_front s) = true ->
  (t <=? grid_back s)%float || negb (stop_at_end_ s) = true ->
  dge (fabs (m_t m - t)%float) ttol = true ->
  (r_flag r < 0)%Z ->
  (exists msg, snd (advance t m) = Throw (ThrowStd msg))
  /\ m_calls (fst (advance t m)) = c :: m_calls m
  /\ m_t (fst (advance t m)) = r_tret r
  /\ m_xz (fst (advance t m)) = r_yy r
  /\ m_xzdot (fst (advance t m)) = r_yp r
  /\ m_q (fst (advance t m)) = m_q m.
Proof.
  cbv zeta. intros H0 H1 Hstep Hflag.
  destruct (advance t m) as [m' o] eqn:H. revert H.
  unfold advance. unfold_session. rewrite H0, H1, Hstep.
  destruct (0 <? nrx_ (m_self m))%nat;
    destruct (ida (m_mem m) _) as [e' r]; cbn [snd] in Hflag;
    rewrite (idas_error_failure _ _ Hflag); intros [= <- <-]; cbn; eauto 10.
Qed.

(** X18: A backward step that fails: [retreat] throws at once, and neither
    the backward state nor the time in memory is touched. *)
Theorem retreat_failed_step (t : double) (m : Mem) :
  let r := snd (ida (m_mem m) (IDASolveB t IDA_NORMAL)) in
  (t <? m_t m)%float = true ->
  (r_flag r < 0)%Z ->
  (exists msg, snd (retreat t m) = Throw (ThrowStd msg))
  /\ m_calls (fst (retreat t m)) = IDASolveB t IDA_NORMAL :: m_calls m
  /\ m_t (fst (retreat t m)) = m_t m
  /\ m_rxz (fst (retreat t m)) = m_rxz m
  /\ m_rxzdot (fst (retreat t m)) = m_rxzdot m
  /\ m_rq (fst (retreat t m)) = m_rq m.
Proof.
  cbv zeta. intros Hstep Hflag.
  destruct (retreat t m) as [m' o] eqn:H. revert H.
  unfold retreat. unfold_session. rewrite Hstep.
  destruct (ida (m_mem m) _) as [e' r]. cbn [snd] in Hflag.
  rewrite (idas_error_failure _ _ Hflag). intros [= <- <-]. cbn. eauto 10.
Qed.

End AdvanceRetreat.

Lemma advance_calls_in_order_witness :
  let W := world (calc_gives []) obedient_ida in
  let m : IdasMemory double unit :=
    sample_memory (sample_object (sample_base 1 0 1 1 0 0 0 true) []) 0%float in
  m_calls (fst (@advance _ _ W 1%float m))
  = [IDAGetIntegratorStats false; IDAGetQuad [];
     IDASolveF 1%float 0%float [] [] IDA_NORMAL 0].
Proof.
  intros W m.
  assert (Hstep : dge (fabs (m_t m - 1)%float) ttol = true) by reflexivity.
  assert (H : @advance _ _ W 1%float m = (fst (@advance _ _ W 1%float m), Ok ([], [], [])))
    by (vm_compute; reflexivity).
  exact (@advance_calls_in_order _ _ W 1%float m _ _ Hstep H).
Defined.

Lemma advance_returns_memory_state_witness :
  let W := world (calc_gives []) obedient_ida in
  let m : IdasMemory double unit :=
    set_xz [1; 2; 3]%float
      (sample_memory (sample_object (sample_base 2 1 0 0 0 0 0 true) []) 0%float) in
  ([1; 2]%float, [3%float], @nil double)
  = (firstn 2 (m_xz (fst (@advance _ _ W 1%float m))),
     firstn 1 (skipn 2 (m_xz (fst (@advance _ _ W 1%float m)))),
     firstn 0 (m_q (fst (@advance _ _ W 1%float m)))).
Proof.
  intros W m.
  assert (H : @advance _ _ W 1%float m
              = (fst (@advance _ _ W 1%float m), Ok ([1; 2]%float, [3%float], [])))
    by (vm_compute; reflexivity).
  exact (proj1 (@advance_returns_memory_state _ _ W 1%float m _ _ H)).
Defined.

Lemma retreat_calls_in_order_witness :
  let W := world (calc_gives []) obedient_ida in
  let m : IdasMemory double unit :=
    sample_memory (sample_object (sample_base 1 0 0 1 0 1 0 true) []) 1%float in
  exists tB,
    m_calls (fst (@retreat _ _ W 0%float m))
    = IDAGetIntegratorStats true
      :: [IDAGetQuadB 0 tB []]
      ++ [IDAGetB 0 1%float [] []; IDASolveB 0%float IDA_NORMAL]
      ++ []
    /\ (@nil double, @nil double, @nil double)
       = (firstn 1 (m_rxz (fst (@retreat _ _ W 0%float m))),
          firstn 0 (skipn 1 (m_rxz (fst (@retreat _ _ W 0%float m)))),
          firstn 1 (m_rq (fst (@retreat _ _ W 0%float m)))).
Proof.
  intros W m.
  assert (Hstep : (0 <? m_t m)%float = true) by reflexivity.
  assert (H : @retreat _ _ W 0%float m
              = (fst (@retreat _ _ W 0%float m), Ok ([], [], [])))
    by (vm_compute; reflexivity).
  exact (@retreat_calls_in_order _ _ W 0%float m _ _ Hstep H).
Defined.

Lemma advance_failed_step_witness :
  let W := world (calc_gives []) (const_ida (-4) 0.5%float) in
  let m : IdasMemory unit unit :=
    sample_memory (sample_object (sample_base 1 0 1 0 0 0 0 true) []) 0%float in
  m_calls (fst (@advance _ _ W 1%float m)) = [IDASolve 1%float 0%float [] [] IDA_NORMAL]
  /\ m_t (fst (@advance _ _ W 1%float m)) = 0.5%float.
Proof.
  intros W m.
  assert (H0 : dge 1%float (grid_front (m_self m)) = true) by reflexivity.
  assert (H1 : (1 <=? grid_back (m_self m))%float || negb (stop_at_end_ (m_self m))
               = true) by reflexivity.
  assert (Hstep : dge (fabs (m_t m - 1)%float) ttol = true) by reflexivity.
  assert (Hflag : (r_flag (snd (@ida _ _ W (m_mem m)
                                  (IDASolve 1%float 0%float [] [] IDA_NORMAL))) < 0)%Z)
    by (cbn; lia).
  destruct (@advance_failed_step _ _ W 1%float m H0 H1 Hstep Hflag)
    as (_ & Hcalls & Ht & _).
  split; [exact Hcalls | exact Ht].
Defined.

Lemma retreat_failed_step_witness :
  let W := world (calc_gives []) (const_ida (-4) 0.5%float) in
  let m : IdasMemory unit unit :=
    sample_memory (sample_object (sample_base 1 0 0 1 0 1 0 true) []) 1%float in
  m_calls (fst (@retreat _ _ W 0%float m)) = [IDASolveB 0%float IDA_NORMAL]
  /\ m_t (fst (@retreat _ _ W 0%float m)) = 1%float.
Proof.
  intros W m.
  assert (Hstep : (0 <? m_t m)%float = true) by reflexivity.
  assert (Hflag : (r_flag (snd (@ida _ _ W (m_mem m) (IDASolveB 0%float IDA_NORMAL)))
                   < 0)%Z)
    by (cbn; lia).
  destruct (@retreat_failed_step _ _ W 0%float m Hstep Hflag)
    as (_ & Hcalls & Ht & _).
  split; [exact Hcalls | exact Ht].
Defined.

(* ================================================================= *)
(** ** The resets, run to their end *)

Ltac simpl_reset_in H :=
  cbn [block reset_calls
       m_self m_p m_rp m_t m_xz m_xzdot m_q m_rxz m_rxzdot m_rq m_jac m_jacB
       m_linsolF m_linsolB m_mem m_ncheck m_whichB m_first_callB m_statsF
       m_statsB m_userOut m_calls
       set_t set_xz set_xzdot set_q set_rxz set_rxzdot set_rq set_jac set_jacB
       set_linsolF set_linsolB set_mem set_ncheck set_whichB set_first_callB
       set_statsF set_statsB set_userOut set_calls set_p set_rp
       no_reset_out out_consistent out_consistentB fst snd app when] in H.

Ltac simpl_reset :=
  cbn [block reset_calls
       m_self m_p m_rp m_t m_xz m_xzdot m_q m_rxz m_rxzdot m_rq m_jac m_jacB
       m_linsolF m_linsolB m_mem m_ncheck m_whichB m_first_callB m_statsF
       m_statsB m_userOut m_calls
       set_t set_xz set_xzdot set_q set_rxz set_rxzdot set_rq set_jac set_jacB
       set_linsolF set_linsolB set_mem set_ncheck set_whichB set_first_callB
       set_statsF set_statsB set_userOut set_calls set_p set_rp
       no_reset_out out_consistent out_consistentB fst snd app when].

Section ResetRuns.
Context {E L : Type} {X : Collaborators E L} {R : ResetEngine E}.

Abbreviation Mem := (IdasMemory E L).
Abbreviation RMem := (ResetMemory E L).

Lemma on_block_inv (f : Mem -> Mem) (rm rm' : RMem) u :
  on_block f rm = (rm', Ok u) -> rm' = mkResetMemory (f (block rm)) (reset_calls rm).
Proof. unfold on_block, modify. now intros [= <-]. Qed.

Lemma the_block_inv (rm rm' : RMem) (m : Mem) :
  the_block rm = (rm', Ok m) -> rm' = rm /\ m = block rm.
Proof. unfold the_block. now intros [= <- <-]. Qed.

Lemma engine_reset_inv (c : IdaResetCall) (rm rm' : RMem) r :
  engine_reset c rm = (rm', Ok r) ->
  exists h, rm' = mkResetMemory (set_mem h (block rm)) (c :: reset_calls rm).
Proof.
  unfold engine_reset. destruct (ida_reset (m_mem (block rm)) c) as [e' r'].
  intros [= <- _]. now exists e'.
Qed.

Lemma THROWING_reset_inv (line : nat) (c : IdaResetCall)
    (out : IdaResetReply -> Mem -> Mem) (rm rm' : RMem) u :
  THROWING_reset line c out rm = (rm', Ok u) ->
  exists h r,
    rm' = mkResetMemory (out r (set_mem h (block rm))) (c :: reset_calls rm).
Proof.
  unfold THROWING_reset, bind, engine_reset, on_block, modify, lift.
  destruct (ida_reset (m_mem (block rm)) c) as [e' r].
  destruct (idas_error _ _); intros [= <-]. now exists e', r.
Qed.

Ltac invert_reset_first H1 :=
  lazymatch type of H1 with
  | THROWING_reset _ _ _ _ = _ =>
      apply THROWING_reset_inv in H1; destruct H1 as (? & ? & ->)
  | setStopTime _ _ = _ =>
      apply THROWING_reset_inv in H1; destruct H1 as (? & ? & ->)
  | engine_reset _ _ = _ => apply engine_reset_inv in H1; destruct H1 as [? ->]
  | on_block _ _ = _ => apply on_block_inv in H1; subst
  | the_block _ = _ => apply the_block_inv in H1; destruct H1; subst
  | ret _ _ = _ => apply ret_inv in H1; subst
  | bind _ _ _ = _ => invert_reset_run H1
  | when ?b _ _ = _ =>
      let Hb := fresh "Hb" in
      unfold when in H1; destruct b eqn:Hb; invert_reset_first H1
  | (if ?b then _ else _) _ = _ =>
      let Hb := fresh "Hb" in
      destruct b eqn:Hb; invert_reset_first H1
  | (match ?i with _ => _ end) _ = _ =>
      let Hi := fresh "Hi" in
      destruct i eqn:Hi; invert_reset_first H1
  | _ => idtac
  end
with invert_reset_run H :=
  lazymatch type of H with
  | bind _ _ _ = (_, Ok _) =>
      let m1 := fresh "rm" in
      let a := fresh "a" in
      let H1 := fresh "H" in
      apply bind_Ok_inv in H; destruct H as (m1 & a & H1 & H);
      cbv beta in H; revert H; invert_reset_first H1; intros H; simpl_reset_in H;
      invert_reset_run H
  | _ => invert_reset_first H
  end.

Ltac use_branches :=
  repeat match goal with
    | Hb : _ = true |- _ => rewrite ?Hb; clear Hb
    | Hb : _ = false |- _ => rewrite ?Hb; clear Hb
    | Hb : _ = SD_GMRES |- _ => rewrite ?Hb; clear Hb
    | Hb : _ = SD_BCGSTAB |- _ => rewrite ?Hb; clear Hb
    | Hb : _ = SD_TFQMR |- _ => rewrite ?Hb; clear Hb
    end.

(** The calls of a successful [reset], and the vectors they are made
    with. *)
Lemma reset_success (t : double) (_x _z _p : list double) (rm rm' : RMem) u :
  reset t _x _z _p rm = (rm', Ok u) ->
  let s := m_self (block rm) in
  let m0 := SundialsInterface_reset t _x _z _p (block rm) in
  reset_calls rm'
  = reset_engine_calls s (m_xz m0) (store 0 (init_xdot_ s) (m_xzdot m0)) (m_q m0)
    ++ reset_calls rm
  /\ m_self (block rm') = s
  /\ m_first_callB (block rm') = m_first_callB (block rm)
  /\ m_whichB (block rm') = m_whichB (block rm).
Proof.
  intros H. cbv zeta. unfold reset in H.
  apply bind_Ok_inv in H. destruct H as (rm0 & a & H0 & H).
  apply on_block_inv in H0. subst rm0.
  assert (Hs : m_self (SundialsInterface_reset t _x _z _p (block rm))
               = m_self (block rm)) by reflexivity.
  assert (Hf : m_first_callB (SundialsInterface_reset t _x _z _p (block rm))
               = m_first_callB (block rm)) by reflexivity.
  assert (Hw : m_whichB (SundialsInterface_reset t _x _z _p (block rm))
               = m_whichB (block rm)) by reflexivity.
  rewrite <- Hs, <- Hf, <- Hw.
  set (m0 := SundialsInterface_reset t _x _z _p (block rm)) in *.
  clearbody m0. clear Hs Hf Hw.
  invert_reset_run H.
  all: simpl_reset; unfold reset_engine_calls; use_branches; auto.
Qed.

(** The calls of a successful [resetB], and the vectors and the
    identifier they are made with. *)
Lemma resetB_success (t : double) (rx rz rp : list double) (rm rm' : RMem) u :
  resetB t rx rz rp rm = (rm', Ok u) ->
  let m := block rm in
  let s := m_self m in
  let m0 := SundialsInterface_resetB t rx rz rp m in
  let which := m_whichB (block rm') in
  reset_calls rm'
  = consistentB_calls s which (m_xz m) (m_xzdot m) (m_rxz m0) (m_rxzdot m)
    ++ (if m_first_callB m
        then resetB_create_calls s (m_whichB m) which (m_rxz m0) (m_rxzdot m) (m_rq m0)
        else resetB_reinit_calls s which (m_rxz m0) (m_rxzdot m) (m_rq m0))
    ++ reset_calls rm
  /\ m_self (block rm') = s
  /\ m_first_callB (block rm') = false
  /\ (m_first_callB m = false -> which = m_whichB m).
Proof.
  intros H. cbv zeta. unfold resetB in H.
  apply bind_Ok_inv in H. destruct H as (rm0 & a & H0 & H).
  apply on_block_inv in H0. subst rm0.
  change (m_self (block rm))
    with (m_self (SundialsInterface_resetB t rx rz rp (block rm))).
  change (m_first_callB (block rm))
    with (m_first_callB (SundialsInterface_resetB t rx rz rp (block rm))).
  change (m_whichB (block rm))
    with (m_whichB (SundialsInterface_resetB t rx rz rp (block rm))).
  change (m_xz (block rm))
    with (m_xz (SundialsInterface_resetB t rx rz rp (block rm))).
  change (m_xzdot (block rm))
    with (m_xzdot (SundialsInterface_resetB t rx rz rp (block rm))).
  change (m_rxzdot (block rm))
    with (m_rxzdot (SundialsInterface_resetB t rx rz rp (block rm))).
  set (m0 := SundialsInterface_resetB t rx rz rp (block rm)) in *.
  clearbody m0.
  invert_reset_run H.
  all: simpl_reset.
  all: unfold consistentB_calls, resetB_create_calls, resetB_reinit_calls,
         linear_solver_callsB.
  all: use_branches; simpl_reset; rewrite ?partition_vector_stored.
  all: repeat split; try reflexivity; try discriminate.
Qed.

Lemma no_create_in_consistentB (s : IdasInterface) (which : Z)
    (xz xzdot rxz rxzdot : N_Vector) :
  filter is_IDACreateB (consistentB_calls s which xz xzdot rxz rxzdot) = [].
Proof. unfold consistentB_calls. now destruct (calc_icB_ s). Qed.

Lemma no_create_in_reinit (s : IdasInterface) (which : Z) (rxz rxzdot rq : N_Vector) :
  filter is_IDACreateB (resetB_reinit_calls s which rxz rxzdot rq) = [].
Proof. unfold resetB_reinit_calls. now destruct (0 <? nrq_ s)%nat. Qed.

Lemma one_create_in_create (s : IdasInterface) (which0 which : Z)
    (rxz rxzdot rq : N_Vector) :
  filter is_IDACreateB (resetB_create_calls s which0 which rxz rxzdot rq)
  = [IDACreateB which0].
Proof.
  unfold resetB_create_calls, linear_solver_callsB.
  now destruct (quad_err_con_ s), (iterative_ s), (use_precon_ s), (itsol_ s).
Qed.

(** X19: The calls of a successful [reset] are those of [reset_engine_calls],
    in that order: the re-initialization at the start of the grid with
    the state just loaded and the derivative from [init_xdot], then the
    quadratures, the consistent initial condition, the adjoint
    re-initialization and the stop time, each only when its option asks
    for it. *)
Theorem reset_calls_in_order (t : double) (_x _z _p : list double)
    (rm rm' : RMem) (u : unit) :
  reset t _x _z _p rm = (rm', Ok u) ->
  let s := m_self (block rm) in
  let m0 := SundialsInterface_reset t _x _z _p (block rm) in
  reset_calls rm'
  = reset_engine_calls s (m_xz m0) (store 0 (init_xdot_ s) (m_xzdot m0)) (m_q m0)
    ++ reset_calls rm.
Proof. intros H. apply (reset_success _ _ _ _ _ _ _ H). Qed.

(** X20: The first successful [resetB] creates the backward problem: every
    call after [IDACreateB] carries the identifier that is in the memory
    block afterwards, and the block is marked as initialized. *)
Theorem resetB_creates_backward_problem (t : double) (rx rz rp : list double)
    (rm rm' : RMem) (u : unit) :
  m_first_callB (block rm) = true ->
  resetB t rx rz rp rm = (rm', Ok u) ->
  let m := block rm in
  let s := m_self m in
  let m0 := SundialsInterface_resetB t rx rz rp m in
  let which := m_whichB (block rm') in
  reset_calls rm'
  = consistentB_calls s which (m_xz m) (m_xzdot m) (m_rxz m0) (m_rxzdot m)
    ++ resetB_create_calls s (m_whichB m) which (m_rxz m0) (m_rxzdot m) (m_rq m0)
    ++ reset_calls rm
  /\ m_first_callB (block rm') = false.
Proof.
  intros Hfirst H. cbv zeta.
  destruct (resetB_success _ _ _ _ _ _ _ H) as (Hcalls & _ & Hf & _).
  rewrite Hfirst in Hcalls. now split.
Qed.

(** X21: A later successful [resetB] re-initializes the backward problem
    under the identifier it has: nothing is created, and the quadratures
    are re-initialized only when there are any. *)
Theorem resetB_reinitializes (t : double) (rx rz rp : list double)
    (rm rm' : RMem) (u : unit) :
  m_first_callB (block rm) = false ->
  resetB t rx rz rp rm = (rm', Ok u) ->
  let m := block rm in
  let s := m_self m in
  let m0 := SundialsInterface_resetB t rx rz rp m in
  reset_calls rm'
  = consistentB_calls s (m_whichB m) (m_xz m) (m_xzdot m) (m_rxz m0) (m_rxzdot m)
    ++ resetB_reinit_calls s (m_whichB m) (m_rxz m0) (m_rxzdot m) (m_rq m0)
    ++ reset_calls rm
  /\ m_whichB (block rm') = m_whichB m
  /\ m_first_callB (block rm') = false.
Proof.
  intros Hfirst H. cbv zeta.
  destruct (resetB_success _ _ _ _ _ _ _ H) as (Hcalls & _ & Hf & Hw).
  rewrite Hfirst, (Hw Hfirst) in Hcalls. auto.
Qed.

(** X22: Two successful backward resets with a forward reset in between
    create the backward problem once. *)
Theorem resets_create_backward_problem_once
    (t1 t2 t3 : double) (rx1 rz1 rp1 x z p rx2 rz2 rp2 : list double)
    (rm rm1 rm2 rm3 : RMem) (u1 u2 u3 : unit) :
  m_first_callB (block rm) = true ->
  resetB t1 rx1 rz1 rp1 rm = (rm1, Ok u1) ->
  reset t2 x z p rm1 = (rm2, Ok u2) ->
  resetB t3 rx2 rz2 rp2 rm2 = (rm3, Ok u3) ->
  exists new,
    reset_calls rm3 = new ++ reset_calls rm
    /\ filter is_IDACreateB new = [IDACreateB (m_whichB (block rm))].
Proof.
  intros Hfirst H1 H2 H3.
  destruct (resetB_success _ _ _ _ _ _ _ H1) as (Hc1 & Hs1 & Hf1 & _).
  destruct (reset_success _ _ _ _ _ _ _ H2) as (Hc2 & Hs2 & Hf2 & _).
  destruct (resetB_success _ _ _ _ _ _ _ H3) as (Hc3 & _ & _ & _).
  rewrite Hf2, Hf1 in Hc3. rewrite Hfirst in Hc1.
  rewrite Hc3, Hc2, Hc1. rewrite !app_assoc. eexists. split; [reflexivity|].
  rewrite !filter_app, !no_create_in_consistentB, no_create_in_reinit,
    one_create_in_create.
  unfold reset_engine_calls.
  now destruct (stop_at_end_ _), (0 <? nrx_ _)%nat, (calc_ic_ _), (0 <? nq_ _)%nat.
Qed.

(** What a failing run leaves behind. *)
Lemma preserves_bind {S A B C} (f : S -> C) (c : M S A) (k : A -> M S B) :
  preserves f c -> (forall a, preserves f (k a)) -> preserves f (bind c k).
Proof.
  intros Hc Hk s s' o. unfold bind. destruct (c s) as [s1 [a|e]] eqn:H1.
  - intros H2. rewrite (Hk a _ _ _ H2). apply (Hc _ _ _ H1).
  - intros [= <- _]. apply (Hc _ _ _ H1).
Qed.

Lemma preserves_on_failure_bind {S A B C} (f : S -> C) (c : M S A) (k : A -> M S B) :
  preserves f c -> (forall a, preserves_on_failure f (k a)) ->
  preserves_on_failure f (bind c k).
Proof.
  intros Hc Hk s s' e. unfold bind. destruct (c s) as [s1 [a|e1]] eqn:H1.
  - intros H2. rewrite (Hk a _ _ _ H2). apply (Hc _ _ _ H1).
  - intros [= <- _]. apply (Hc _ _ _ H1).
Qed.

Lemma preserves_ret {S A C} (f : S -> C) (a : A) : preserves f (@ret S A a).
Proof. intros s s' o. unfold ret. now intros [= <- _]. Qed.

Lemma preserves_when {S C} (f : S -> C) (b : bool) (c : M S unit) :
  preserves f c -> preserves f (when b c).
Proof. intros H. destruct b; [exact H | apply preserves_ret]. Qed.

Lemma preserves_on_failure_last {S A B C} (f : S -> C) (c : M S A) (k : A -> M S B) :
  preserves_on_failure f c ->
  (forall a s, exists s' b, k a s = (s', Ok b)) ->
  preserves_on_failure f (bind c k).
Proof.
  intros Hc Hk s s' e. unfold bind. destruct (c s) as [s1 [a|e1]] eqn:H1.
  - destruct (Hk a s1) as (s2 & b & ->). discriminate.
  - intros [= <- _]. apply (Hc _ _ _ H1).
Qed.

Lemma never_fails_ret {S A} (a : A) (s : S) : exists s' b, @ret S A a s = (s', Ok b).
Proof. now exists s, a. Qed.

Abbreviation first_callB_of := (fun rm : RMem => m_first_callB (block rm)).

Lemma preserves_the_block : preserves first_callB_of the_block.
Proof. intros s s' o. unfold the_block. now intros [= <- _]. Qed.

Lemma preserves_engine_reset (c : IdaResetCall) :
  preserves first_callB_of (engine_reset c).
Proof.
  intros s s' o. unfold engine_reset.
  destruct (ida_reset (m_mem (block s)) c). now intros [= <- _].
Qed.

Lemma preserves_THROWING_reset (line : nat) (c : IdaResetCall)
    (out : IdaResetReply -> Mem -> Mem) :
  (forall r m, m_first_callB (out r m) = m_first_callB m) ->
  preserves first_callB_of (THROWING_reset line c out).
Proof.
  intros Hout s s' o. unfold THROWING_reset, bind, engine_reset, on_block, modify, lift.
  destruct (ida_reset (m_mem (block s)) c) as [e' r].
  intros [= <- _]. cbn. now rewrite Hout.
Qed.

Lemma never_fails_on_block {C} (f : RMem -> C) (g : Mem -> Mem) :
  preserves_on_failure f (on_block g).
Proof. intros s s' e. unfold on_block, modify. discriminate. Qed.

(** X23: A [resetB] that fails while it creates the backward problem leaves
    the block marked as not initialized, so that the next [resetB]
    creates a backward problem again.  (Without [calc_icB]: the
    correction of the initial values comes after the mark.) *)
Theorem resetB_failed_creation (t : double) (rx rz rp : list double)
    (rm rm' : RMem) (e : exn) :
  m_first_callB (block rm) = true ->
  calc_icB_ (m_self (block rm)) = false ->
  resetB t rx rz rp rm = (rm', Throw e) ->
  m_first_callB (block rm') = true.
Proof.
  intros Hfirst Hic H. rewrite <- Hfirst.
  change (m_first_callB (block rm))
    with (first_callB_of
            (mkResetMemory (SundialsInterface_resetB t rx rz rp (block rm))
               (reset_calls rm))).
  change (first_callB_of rm' = 
          first_callB_of
            (mkResetMemory (SundialsInterface_resetB t rx rz rp (block rm))
               (reset_calls rm))).
  unfold resetB in H. unfold bind at 1, on_block at 1, modify at 1 in H.
  unfold bind at 1, the_block at 1 in H. cbn [block] in H. cbv zeta in H.
  change (m_first_callB (SundialsInterface_resetB t rx rz rp (block rm)))
    with (m_first_callB (block rm)) in H.
  change (m_self (SundialsInterface_resetB t rx rz rp (block rm)))
    with (m_self (block rm)) in H.
  rewrite Hfirst, Hic in H.
  revert H. apply preserves_on_failure_last; [|intros a s; apply never_fails_ret].
  repeat lazymatch goal with
    | |- preserves _ (THROWING_reset _ _ _) =>
        apply preserves_THROWING_reset; reflexivity
    | |- preserves _ (engine_reset _) => apply preserves_engine_reset
    | |- preserves _ the_block => apply preserves_the_block
    | |- preserves _ (ret _) => apply preserves_ret
    | |- preserves _ (when _ _) => apply preserves_when
    | |- preserves _ (bind _ _) => apply preserves_bind; [|intros ?]
    | |- preserves _ (if ?b then _ else _) => destruct b
    | |- preserves _ (match ?i with _ => _ end) => destruct i
    | |- preserves_on_failure _ (bind _ _) =>
        apply preserves_on_failure_bind; [|intros ?]
    | |- preserves_on_failure _ (on_block _) => apply never_fails_on_block
    end.
Qed.

End ResetRuns.

Lemma reset_calls_in_order_witness :
  let W := world (calc_gives []) (const_ida 0 0%float) in
  let R := accepting_reset [5%float] [6%float] in
  let s := sample_object (sample_base 1 0 1 1 0 0 0 true) [("calc_ic", GT_bool true)] in
  let rm := mkResetMemory (fst (@init_memory _ _ W (sample_memory s 0%float))) [] in
  let m0 := SundialsInterface_reset 0%float [1%float] [] [] (block rm) in
  reset_calls (fst (@reset _ _ W R 0%float [1%float] [] [] rm))
  = reset_engine_calls (m_self (block rm)) (m_xz m0)
      (store 0 (init_xdot_ (m_self (block rm))) (m_xzdot m0)) (m_q m0)
    ++ reset_calls rm.
Proof.
  intros W R s rm m0.
  assert (H : @reset _ _ W R 0%float [1%float] [] [] rm
              = (fst (@reset _ _ W R 0%float [1%float] [] [] rm), Ok tt))
    by (vm_compute; reflexivity).
  exact (@reset_calls_in_order _ _ W R 0%float [1%float] [] [] rm _ tt H).
Defined.

Lemma resetB_creates_backward_problem_witness :
  let W := world (calc_gives []) (const_ida 0 0%float) in
  let R := accepting_reset [5%float] [6%float] in
  let s := sample_object (sample_base 1 0 0 1 0 1 0 true) [] in
  let rm := mkResetMemory (fst (@init_memory _ _ W (sample_memory s 0%float))) [] in
  m_whichB (block (fst (@resetB _ _ W R 1%float [1%float] [] [] rm))) = 7%Z
  /\ m_first_callB (block (fst (@resetB _ _ W R 1%float [1%float] [] [] rm))) = false.
Proof.
  intros W R s rm.
  assert (Hfirst : m_first_callB (block rm) = true) by (vm_compute; reflexivity).
  assert (H : @resetB _ _ W R 1%float [1%float] [] [] rm
              = (fst (@resetB _ _ W R 1%float [1%float] [] [] rm), Ok tt))
    by (vm_compute; reflexivity).
  split; [vm_compute; reflexivity|].
  exact (proj2 (@resetB_creates_backward_problem _ _ W R 1%float [1%float] [] []
                  rm _ tt Hfirst H)).
Defined.

Lemma resetB_reinitializes_witness :
  let W := world (calc_gives []) (const_ida 0 0%float) in
  let R := accepting_reset [5%float] [6%float] in
  let s := sample_object (sample_base 1 0 0 1 0 1 0 true) [] in
  let rm := mkResetMemory (set_whichB 7 (sample_memory s 0%float)) [] in
  m_whichB (block (fst (@resetB _ _ W R 1%float [1%float] [] [] rm))) = 7%Z.
Proof.
  intros W R s rm.
  assert (Hfirst : m_first_callB (block rm) = false) by (vm_compute; reflexivity).
  assert (H : @resetB _ _ W R 1%float [1%float] [] [] rm
              = (fst (@resetB _ _ W R 1%float [1%float] [] [] rm), Ok tt))
    by (vm_compute; reflexivity).
  exact (proj1 (proj2 (@resetB_reinitializes _ _ W R 1%float [1%float] [] []
                         rm _ tt Hfirst H))).
Defined.

Lemma resets_create_backward_problem_once_witness :
  let W := world (calc_gives []) (const_ida 0 0%float) in
  let R := accepting_reset [5%float] [6%float] in
  let s := sample_object (sample_base 1 0 0 1 0 1 0 true) [] in
  let rm := mkResetMemory (fst (@init_memory _ _ W (sample_memory s 0%float))) [] in
  let rm1 := fst (@resetB _ _ W R 1%float [1%float] [] [] rm) in
  let rm2 := fst (@reset _ _ W R 0%float [2%float] [] [] rm1) in
  let rm3 := fst (@resetB _ _ W R 1%float [3%float] [] [] rm2) in
  exists new,
    reset_calls rm3 = new ++ reset_calls rm
    /\ filter is_IDACreateB new = [IDACreateB (m_whichB (block rm))].
Proof.
  intros W R s rm rm1 rm2 rm3.
  assert (Hfirst : m_first_callB (block rm) = true) by (vm_compute; reflexivity).
  assert (H1 : @resetB _ _ W R 1%float [1%float] [] [] rm = (rm1, Ok tt))
    by (vm_compute; reflexivity).
  assert (H2 : @reset _ _ W R 0%float [2%float] [] [] rm1 = (rm2, Ok tt))
    by (vm_compute; reflexivity).
  assert (H3 : @resetB _ _ W R 1%float [3%float] [] [] rm2 = (rm3, Ok tt))
    by (vm_compute; reflexivity).
  exact (@resets_create_backward_problem_once _ _ W R 1%float 0%float 1%float
           [1%float] [] [] [2%float] [] [] [3%float] [] [] rm rm1 rm2 rm3 tt tt tt
           Hfirst H1 H2 H3).
Defined.

Lemma resetB_failed_creation_witness :
  let W := world (calc_gives []) (const_ida 0 0%float) in
  let R := refusing_reset
             (fun c => match c with IDAInitB _ _ _ _ => true | _ => false end) in
  let s := sample_object (sample_base 1 0 0 1 0 1 0 true)
             [("calc_icB", GT_bool false)] in
  let rm := mkResetMemory (fst (@init_memory _ _ W (sample_memory s 0%float))) [] in
  m_first_callB (block (fst (@resetB _ _ W R 1%float [1%float] [] [] rm))) = true.
Proof.
  intros W R s rm.
  assert (Hfirst : m_first_callB (block rm) = true) by (vm_compute; reflexivity).
  assert (Hic : calc_icB_ (m_self (block rm)) = false) by (vm_compute; reflexivity).
  assert (H : @resetB _ _ W R 1%float [1%float] [] [] rm
              = (fst (@resetB _ _ W R 1%float [1%float] [] [] rm),
                 Throw (ThrowStd
                   ("IDAInitB on line 462 of file idas_interface.cpp returned "
                    ++ dquote ++ "IDA_TOO_MUCH_WORK" ++ dquote
                    ++ ". Consult IDAS documentation."))))
    by (vm_compute; reflexivity).
  exact (@resetB_failed_creation _ _ W R 1%float [1%float] [] [] rm _ _ Hfirst Hic H).
Defined.

(* ================================================================= *)
(** ** The options [init] reads *)

Lemma bool_option_cons (key : string) (d : bool) (k : string) (v : GenericType)
    (opts : Dict) :
  ~ In k (map fst opts) ->
  bool_option key (bool_option key d [(k, v)]) opts = bool_option key d ((k, v) :: opts).
Proof.
  intros Hnotin. unfold bool_option. cbn [lookup].
  destruct (k =? key)%string eqn:Hk; [|reflexivity].
  apply String.eqb_eq in Hk. subst k. rewrite (lookup_absent _ _ Hnotin).
  now destruct v.
Qed.

Lemma double_option_cons (key : string) (d : double) (k : string) (v : GenericType)
    (opts : Dict) :
  ~ In k (map fst opts) ->
  double_option key (double_option key d [(k, v)]) opts
  = double_option key d ((k, v) :: opts).
Proof.
  intros Hnotin. unfold double_option. cbn [lookup].
  destruct (k =? key)%string eqn:Hk; [|reflexivity].
  apply String.eqb_eq in Hk. subst k. rewrite (lookup_absent _ _ Hnotin).
  now destruct v.
Qed.

Lemma vector_lookup_cons (key : string) (d : list double) (k : string)
    (v : GenericType) (opts : Dict) :
  ~ In k (map fst opts) ->
  match lookup key opts with
  | Some (GT_double_vector x) => x
  | _ => match lookup key [(k, v)] with
         | Some (GT_double_vector x) => x
         | _ => d
         end
  end
  = match lookup key ((k, v) :: opts) with
    | Some (GT_double_vector x) => x
    | _ => d
    end.
Proof.
  intros Hnotin. cbn [lookup].
  destruct (k =? key)%string eqn:Hk; [|reflexivity].
  apply String.eqb_eq in Hk. subst k. rewrite (lookup_absent _ _ Hnotin).
  now destruct v.
Qed.

Ltac read_key Hk Hty v :=
  apply String.eqb_eq in Hk; subst; cbn in Hty; destruct v; try discriminate Hty;
  eexists; split; [reflexivity | repeat split].

Lemma read_option_fields (k : string) (v : GenericType) (s : IdasInterface) :
  option_typed k v = true ->
  exists s', read_option (k, v) s = (s', Ok tt) /\ first_loop_reads [(k, v)] s s'.
Proof.
  unfold option_typed, first_loop_reads. intros Hty. unfold read_option. unfold_init.
  destruct (k =? "init_xdot")%string eqn:K1; [read_key K1 Hty v|].
  destruct (k =? "cj_scaling")%string eqn:K2; [read_key K2 Hty v|].
  destruct (k =? "calc_ic")%string eqn:K3; [read_key K3 Hty v|].
  destruct (k =? "suppress_algebraic")%string eqn:K4; [read_key K4 Hty v|].
  destruct (k =? "max_step_size")%string eqn:K5; [read_key K5 Hty v|].
  destruct (k =? "abstolv")%string eqn:K6; [read_key K6 Hty v|].
  destruct (k =? "fsens_abstolv")%string eqn:K7; [read_key K7 Hty v|].
  eexists; split; [reflexivity|].
  unfold bool_option, double_option. cbn [lookup].
  rewrite K2, K3, K4, K5, K6, K7. repeat split.
Qed.

Lemma read_dependent_option_fields (k : string) (v : GenericType) (s : IdasInterface) :
  option_typed k v = true ->
  exists s',
    read_dependent_option (k, v) s = (s', Ok tt) /\ second_loop_reads [(k, v)] s s'.
Proof.
  unfold option_typed, second_loop_reads. intros Hty.
  unfold read_dependent_option. unfold_init.
  destruct (k =? "calc_icB")%string eqn:K1; [read_key K1 Hty v|].
  destruct (k =? "first_time")%string eqn:K2; [read_key K2 Hty v|].
  eexists; split; [reflexivity|].
  unfold bool_option, double_option. cbn [lookup].
  rewrite K1, K2. repeat split.
Qed.

Lemma first_loop_fields (opts : Dict) :
  forall s : IdasInterface,
    well_typed opts = true ->
    wf_Dict opts ->
    exists s', for_each opts read_option s = (s', Ok tt) /\ first_loop_reads opts s s'.
Proof.
  unfold wf_Dict.
  induction opts as [|[k v] opts IH]; intros s Hty Hwf.
  - exists s. split; [reflexivity|]. unfold first_loop_reads. repeat split.
  - cbn in Hty. apply andb_true_iff in Hty as [Hkv Hty].
    cbn in Hwf. inversion Hwf as [|? ? Hnotin Hrest]; subst.
    destruct (read_option_fields k v s Hkv) as (s1 & Hrun1 & Hs1).
    destruct (IH s1 Hty Hrest) as (s' & Hrun & Hs').
    exists s'. cbn [for_each]. unfold bind at 1. rewrite Hrun1, Hrun.
    split; [reflexivity|].
    unfold first_loop_reads in *.
    destruct Hs1 as (B1 & F1 & C1 & T1 & J1 & I1 & S1 & M1 & A1 & Z1).
    destruct Hs' as (B & F & C & T & J & I & S & M & A & Z).
    rewrite <- (bool_option_cons "cj_scaling" _ _ _ _ Hnotin).
    rewrite <- (bool_option_cons "calc_ic" _ _ _ _ Hnotin).
    rewrite <- (bool_option_cons "suppress_algebraic" _ _ _ _ Hnotin).
    rewrite <- (double_option_cons "max_step_size" _ _ _ _ Hnotin).
    rewrite <- (vector_lookup_cons "abstolv" _ _ _ _ Hnotin).
    rewrite <- (vector_lookup_cons "fsens_abstolv" _ _ _ _ Hnotin).
    rewrite <- J1, <- I1, <- S1, <- M1, <- A1, <- Z1.
    repeat split; congruence.
Qed.

Lemma second_loop_fields (opts : Dict) :
  forall s : IdasInterface,
    well_typed opts = true ->
    wf_Dict opts ->
    exists s',
      for_each opts read_dependent_option s = (s', Ok tt)
      /\ second_loop_reads opts s s'.
Proof.
  unfold wf_Dict.
  induction opts as [|[k v] opts IH]; intros s Hty Hwf.
  - exists s. split; [reflexivity|]. unfold second_loop_reads. repeat split.
  - cbn in Hty. apply andb_true_iff in Hty as [Hkv Hty].
    cbn in Hwf. inversion Hwf as [|? ? Hnotin Hrest]; subst.
    destruct (read_dependent_option_fields k v s Hkv) as (s1 & Hrun1 & Hs1).
    destruct (IH s1 Hty Hrest) as (s' & Hrun & Hs').
    exists s'. cbn [for_each]. unfold bind at 1. rewrite Hrun1, Hrun.
    split; [reflexivity|].
    unfold second_loop_reads in *.
    destruct Hs1 as (B1 & F1 & J1 & I1 & S1 & M1 & A1 & Z1 & X1 & C1 & T1).
    destruct Hs' as (B & F & J & I & S & M & A & Z & X & C & T).
    rewrite <- (bool_option_cons "calc_icB" _ _ _ _ Hnotin).
    rewrite <- (double_option_cons "first_time" _ _ _ _ Hnotin).
    rewrite <- C1, <- T1.
    repeat split; congruence.
Qed.

(** [init] on well-typed options: the members of the object. *)
Lemma setup_fields (b : SundialsInterface) (opts : Dict) :
  wf_Dict opts ->
  well_typed opts = true ->
  let s := fst (setup b opts) in
  base s = b
  /\ cj_scaling_ s = bool_option "cj_scaling" false opts
  /\ calc_ic_ s = bool_option "calc_ic" true opts
  /\ suppress_algebraic_ s = bool_option "suppress_algebraic" false opts
  /\ max_step_size_ s = double_option "max_step_size" 0%float opts
  /\ abstolv_ s = vector_option "abstolv" opts
  /\ fsens_abstolv_ s = vector_option "fsens_abstolv" opts
  /\ calc_icB_ s = bool_option "calc_icB" (bool_option "calc_ic" true opts) opts
  /\ first_time_ s = double_option "first_time" (grid_back b) opts.
Proof.
  intros Hwf Hty. cbv zeta.
  destruct (setup b opts) as [s o] eqn:Hr. cbn [fst snd]. revert Hr.
  unfold setup, init. unfold bind, modify, this, get.
  match goal with
  | |- context [for_each opts read_option ?s0] =>
      destruct (first_loop_fields opts s0 Hty Hwf) as (s1 & Hrun1 & Hs1);
      rewrite Hrun1
  end.
  match goal with
  | |- context [for_each opts read_dependent_option ?s0] =>
      destruct (second_loop_fields opts s0 Hty Hwf) as (s2 & Hrun2 & Hs2);
      rewrite Hrun2
  end.
  unfold first_loop_reads in Hs1. unfold second_loop_reads in Hs2.
  cbn in Hs1, Hs2.
  destruct Hs1 as (B1 & F1 & C1 & T1 & J1 & I1 & S1 & M1 & A1 & Z1).
  destruct Hs2 as (B & F & J & I & S & M & A & Z & X & C & T).
  rewrite B1 in B, T. rewrite I1 in C. rewrite F1 in F.
  clear Hrun1 Hrun2.
  unfold create_function, set_function, when, bind, modify, lift, ret,
    casadi_assert_message, casadi_error.
  cbn [add_function init_xdot_ base set_init_xdot fst snd].
  rewrite B.
  destruct (0 <? nrx_ b)%nat, (iterative_ b), (is_empty (init_xdot_ s2));
    try destruct (List.length (init_xdot_ s2) =? nx_ b)%nat;
    intros Hr; inversion Hr; subst; clear Hr;
    cbn [base cj_scaling_ calc_ic_ calc_icB_ suppress_algebraic_ max_step_size_
         first_time_ abstolv_ fsens_abstolv_ functions_ set_init_xdot add_function];
    unfold vector_option; repeat split; congruence.
Qed.

(** X24: What [init] reads from its options: each member is the value
    of its option when the option is set, and its default otherwise;
    the default of [calc_icB] is the value [calc_ic] ends up with, that
    of [first_time] the end of the grid. *)
Theorem init_reads_options (b : SundialsInterface) (opts : Dict) :
  wf_Dict opts ->
  well_typed opts = true ->
  let s := fst (setup b opts) in
  cj_scaling_ s = bool_option "cj_scaling" false opts
  /\ calc_ic_ s = bool_option "calc_ic" true opts
  /\ suppress_algebraic_ s = bool_option "suppress_algebraic" false opts
  /\ max_step_size_ s = double_option "max_step_size" 0%float opts
  /\ abstolv_ s = vector_option "abstolv" opts
  /\ fsens_abstolv_ s = vector_option "fsens_abstolv" opts
  /\ calc_icB_ s = bool_option "calc_icB" (bool_option "calc_ic" true opts) opts
  /\ first_time_ s = double_option "first_time" (grid_back b) opts.
Proof.
  intros Hwf Hty. cbv zeta.
  destruct (setup_fields b opts Hwf Hty) as (_ & J & I & S & M & A & Z & C & T).
  repeat split; assumption.
Qed.

(* ================================================================= *)
(** ** Options [init] does not read, and options of the wrong type *)

Lemma for_each_app {S A} (l1 l2 : list A) (body : A -> M S unit) (s : S) :
  for_each (l1 ++ l2) body s
  = (for_each l1 body ;; for_each l2 body) s.
Proof.
  revert s. induction l1 as [|a l1 IH]; intros s; cbn [for_each app].
  - reflexivity.
  - unfold bind. destruct (body a s) as [s1 [u|e]]; [|reflexivity].
    rewrite IH. reflexivity.
Qed.

Lemma string_in_app (k : string) (l1 l2 : list string) :
  string_in k (l1 ++ l2) = string_in k l1 || string_in k l2.
Proof. unfold string_in. apply existsb_app. Qed.

Lemma read_option_other (k : string) (v : GenericType) (s : IdasInterface) :
  string_in k first_loop_keys = false -> read_option (k, v) s = (s, Ok tt).
Proof.
  unfold string_in, first_loop_keys. cbn [existsb]. intros H.
  repeat (apply orb_false_iff in H; destruct H as [? H]).
  unfold read_option.
  repeat match goal with Hk : (k =? _)%string = false |- _ => rewrite Hk; clear Hk end.
  reflexivity.
Qed.

Lemma read_dependent_option_other (k : string) (v : GenericType) (s : IdasInterface) :
  string_in k second_loop_keys = false -> read_dependent_option (k, v) s = (s, Ok tt).
Proof.
  unfold string_in, second_loop_keys. cbn [existsb]. intros H.
  repeat (apply orb_false_iff in H; destruct H as [? H]).
  unfold read_dependent_option.
  repeat match goal with Hk : (k =? _)%string = false |- _ => rewrite Hk; clear Hk end.
  reflexivity.
Qed.

(** X26: The part of [init] after the call of the base class reads the
    options through nine keys only: from whatever object the base class
    has left, it ends in the same object and outcome with and without
    an option that has none of these keys, whatever its value and
    wherever it stands among the others.  (What the base class makes of
    such an option is not the question here.) *)
Theorem init_ignores_other_options (s : IdasInterface) (before after : Dict)
    (k : string) (v : GenericType) :
  string_in k (first_loop_keys ++ second_loop_keys) = false ->
  init (before ++ (k, v) :: after) s = init (before ++ after) s.
Proof.
  rewrite string_in_app. intros H. apply orb_false_iff in H as [H1 H2].
  assert (E1 : forall s, for_each (before ++ (k, v) :: after) read_option s
                         = for_each (before ++ after) read_option s).
  { intros s0. rewrite !for_each_app. unfold bind.
    destruct (for_each before read_option s0) as [s1 [u|e]]; [|reflexivity].
    cbn [for_each]. unfold bind. now rewrite read_option_other. }
  assert (E2 : forall s, for_each (before ++ (k, v) :: after) read_dependent_option s
                         = for_each (before ++ after) read_dependent_option s).
  { intros s0. rewrite !for_each_app. unfold bind.
    destruct (for_each before read_dependent_option s0) as [s1 [u|e]]; [|reflexivity].
    cbn [for_each]. unfold bind. now rewrite read_dependent_option_other. }
  unfold init. unfold bind, modify, this, get.
  rewrite E1.
  destruct (for_each (before ++ after) read_option _) as [s1 [u|e]]; [|reflexivity].
  rewrite E2. reflexivity.
Qed.

(** Every outcome of a round of a loop: the functions registered stay as
    they are, and what is thrown is an exception with a message. *)
Lemma read_option_outcome (op : string * GenericType) (s s' : IdasInterface) o :
  read_option op s = (s', o) ->
  functions_ s' = functions_ s /\ (o = Ok tt \/ exists msg, o = Throw (ThrowStd msg)).
Proof.
  destruct op as [k v]. unfold read_option. unfold_init.
  repeat match goal with
    | |- context [if ?c then _ else _] => destruct c
    end;
    destruct v; intros [= <- <-]; cbn; eauto.
Qed.

Lemma read_dependent_option_outcome (op : string * GenericType)
    (s s' : IdasInterface) o :
  read_dependent_option op s = (s', o) ->
  functions_ s' = functions_ s /\ (o = Ok tt \/ exists msg, o = Throw (ThrowStd msg)).
Proof.
  destruct op as [k v]. unfold read_dependent_option. unfold_init.
  repeat match goal with
    | |- context [if ?c then _ else _] => destruct c
    end;
    destruct v; intros [= <- <-]; cbn; eauto.
Qed.

Lemma loop_outcome (body : string * GenericType -> M IdasInterface unit) :
  (forall op s s' o, body op s = (s', o) ->
     functions_ s' = functions_ s /\ (o = Ok tt \/ exists msg, o = Throw (ThrowStd msg))) ->
  forall opts s s' o, for_each opts body s = (s', o) ->
    functions_ s' = functions_ s /\ (o = Ok tt \/ exists msg, o = Throw (ThrowStd msg)).
Proof.
  intros Hbody. induction opts as [|op opts IH]; intros s s' o; cbn [for_each].
  - unfold ret. intros [= <- <-]. auto.
  - unfold bind. destruct (body op s) as [s1 o1] eqn:H1.
    destruct (Hbody _ _ _ _ H1) as [F1 [-> | [msg ->]]].
    + intros H. destruct (IH _ _ _ H) as [F O]. split; [congruence | exact O].
    + intros [= <- <-]. eauto.
Qed.

Lemma read_option_ill_typed (k : string) (v : GenericType) (s : IdasInterface) :
  string_in k first_loop_keys = true ->
  option_typed k v = false ->
  exists msg, snd (read_option (k, v) s) = Throw (ThrowStd msg).
Proof.
  unfold string_in, first_loop_keys. cbn [existsb]. intros Hin Hty.
  repeat (apply orb_true_iff in Hin; destruct Hin as [Hin | Hin]);
    try discriminate Hin;
    apply String.eqb_eq in Hin; subst k; destruct v; try discriminate Hty;
    cbn; eauto.
Qed.

Lemma read_dependent_option_ill_typed (k : string) (v : GenericType)
    (s : IdasInterface) :
  string_in k second_loop_keys = true ->
  option_typed k v = false ->
  exists msg, snd (read_dependent_option (k, v) s) = Throw (ThrowStd msg).
Proof.
  unfold string_in, second_loop_keys. cbn [existsb]. intros Hin Hty.
  repeat (apply orb_true_iff in Hin; destruct Hin as [Hin | Hin]);
    try discriminate Hin;
    apply String.eqb_eq in Hin; subst k; destruct v; try discriminate Hty;
    cbn; eauto.
Qed.

Lemma loop_ill_typed (body : string * GenericType -> M IdasInterface unit)
    (k : string) (v : GenericType) :
  (forall op s s' o, body op s = (s', o) ->
     functions_ s' = functions_ s /\ (o = Ok tt \/ exists msg, o = Throw (ThrowStd msg))) ->
  (forall s, exists msg, snd (body (k, v) s) = Throw (ThrowStd msg)) ->
  forall opts s, In (k, v) opts ->
    exists msg, snd (for_each opts body s) = Throw (ThrowStd msg).
Proof.
  intros Hbody Hkv. induction opts as [|op opts IH]; intros s Hin; [now elim Hin|].
  cbn [for_each]. unfold bind. destruct Hin as [-> | Hin].
  - destruct (Hkv s) as [msg Hmsg]. destruct (body (k, v) s) as [s1 o1].
    cbn [snd] in Hmsg. subst o1. now exists msg.
  - destruct (body op s) as [s1 o1] eqn:H1.
    destruct (Hbody _ _ _ _ H1) as [_ [-> | [msg ->]]];
      [now apply IH | now exists msg].
Qed.

(** X27: An option [init] looks for with a value of another type than the
    option table gives it: [init] throws while it reads the options,
    before any function is registered. *)
Theorem init_rejects_ill_typed (b : SundialsInterface) (opts : Dict)
    (k : string) (v : GenericType) :
  In (k, v) opts ->
  string_in k (first_loop_keys ++ second_loop_keys) = true ->
  option_typed k v = false ->
  (exists msg, snd (setup b opts) = Throw (ThrowStd msg))
  /\ functions_ (fst (setup b opts)) = [].
Proof.
  intros Hin Hkey Hty. rewrite string_in_app in Hkey.
  unfold setup, init. unfold bind, modify, this, get.
  match goal with
  | |- context [for_each opts read_option ?s0] => set (s0' := s0)
  end.
  assert (F0 : functions_ s0' = []) by reflexivity. clearbody s0'.
  destruct (for_each opts read_option s0') as [s1 o1] eqn:H1.
  destruct (loop_outcome _ read_option_outcome _ _ _ _ H1) as [F1 [-> | [msg ->]]].
  2: { cbn [fst snd]. split; [eauto | congruence]. }
  destruct (string_in k first_loop_keys) eqn:K1.
  { destruct (loop_ill_typed _ k v read_option_outcome
                (fun s => read_option_ill_typed k v s K1 Hty) opts s0' Hin)
      as [msg Hmsg].
    rewrite H1 in Hmsg. discriminate Hmsg. }
  cbn [orb] in Hkey.
  match goal with
  | |- context [for_each opts read_dependent_option ?s0] => set (s2 := s0)
  end.
  assert (F2 : functions_ s2 = []) by (subst s2; cbn; congruence). clearbody s2.
  destruct (loop_ill_typed _ k v read_dependent_option_outcome
              (fun s => read_dependent_option_ill_typed k v s Hkey Hty) opts s2 Hin)
    as [msg Hmsg].
  destruct (for_each opts read_dependent_option s2) as [s3 o3] eqn:H3.
  destruct (loop_outcome _ read_dependent_option_outcome _ _ _ _ H3) as [F3 _].
  cbn [snd] in Hmsg. subst o3. cbn [fst snd]. split; [eauto | congruence].
Qed.

Lemma init_reads_options_witness :
  let b := sample_base 2 0 0 1 0 0 0 true in
  let opts := [("calc_ic", GT_bool false); ("max_step_size", GT_double 0.5%float)] in
  calc_ic_ (fst (setup b opts)) = false
  /\ calc_icB_ (fst (setup b opts)) = false
  /\ max_step_size_ (fst (setup b opts)) = 0.5%float
  /\ first_time_ (fst (setup b opts)) = 1%float.
Proof.
  intros b opts.
  assert (Hwf : wf_Dict opts).
  { unfold wf_Dict. cbn. repeat constructor; cbn; intuition discriminate. }
  destruct (init_reads_options b opts Hwf eq_refl)
    as (_ & I & _ & M & _ & _ & C & T).
  repeat split; assumption.
Defined.

Lemma init_ignores_other_options_witness :
  let s := construct (sample_base 2 0 0 0 0 0 0 true) in
  init ([("calc_ic", GT_bool false)]
        ++ ("extra_fsens_calc_ic", GT_double 1%float)
           :: [("max_step_size", GT_double 0.5%float)]) s
  = init ([("calc_ic", GT_bool false)] ++ [("max_step_size", GT_double 0.5%float)]) s.
Proof.
  intros s.
  exact (init_ignores_other_options s [("calc_ic", GT_bool false)]
           [("max_step_size", GT_double 0.5%float)]
           "extra_fsens_calc_ic" (GT_double 1%float) eq_refl).
Defined.

Lemma init_rejects_ill_typed_witness :
  let b := sample_base 2 0 0 0 0 0 0 true in
  let opts := [("calc_icB", GT_double 1%float)] in
  (exists msg, snd (setup b opts) = Throw (ThrowStd msg))
  /\ functions_ (fst (setup b opts)) = [].
Proof.
  intros b opts.
  apply (init_rejects_ill_typed b opts "calc_icB" (GT_double 1%float)).
  - left. reflexivity.
  - reflexivity.
  - reflexivity.
Defined.
